(** * Ubistormer: the EventStorming graph engine

    A shallow embedding of [src/graph/graphology-adapter.ts] (the
    [GraphologyAdapter] class and the [EventStormingAPI] class that
    follows it in the same file), together with the part of the
    Graphology store the two classes rely on.

    Conventions of the embedding.
    - A JavaScript string is a [string]; each character stands for one
      UTF-16 code unit of the Latin-1 range (0..255).
    - A JavaScript [Map] or [Set] is a list in insertion order.
    - Methods that mutate the store are computations of the monad [Eff]:
      they take the store, return a value or raise, and hand back the new
      store. *)

From Stdlib Require Import String Ascii List Bool Arith Lia.
From Stdlib Require Import Relations.Relation_Operators Sorting.Sorted.
From Stdlib Require Relations.Operators_Properties.
Import ListNotations.
Open Scope string_scope.
Open Scope list_scope.

Set Implicit Arguments.

(** ** Strings *)

Module JsString.

Definition code (c : ascii) : nat := nat_of_ascii c.

(** WhiteSpace and LineTerminator code units below 256, as used by
    [String.prototype.trim]. *)
Definition isWhiteSpace (c : ascii) : bool :=
  let n := code c in
  ((n =? 9) || (n =? 10) || (n =? 11) || (n =? 12) || (n =? 13)
   || (n =? 32) || (n =? 160))%nat.

Fixpoint dropWhile (p : ascii -> bool) (l : list ascii) : list ascii :=
  match l with
  | [] => []
  | c :: r => if p c then dropWhile p r else l
  end.

Definition trimList (l : list ascii) : list ascii :=
  rev (dropWhile isWhiteSpace (rev (dropWhile isWhiteSpace l))).

Definition trim (s : string) : string :=
  string_of_list_ascii (trimList (list_ascii_of_string s)).

(** [s === ''] *)
Definition isEmpty (s : string) : bool :=
  match s with EmptyString => true | _ => false end.

(** Character class [[a-z0-9\-_]]. *)
Definition kebabChar (c : ascii) : bool :=
  let n := code c in
  (((97 <=? n) && (n <=? 122)) || ((48 <=? n) && (n <=? 57))
   || (n =? 45) || (n =? 95))%nat.

(** [/^[a-z0-9\-_]+$/.test(s)] *)
Definition testKebab (s : string) : bool :=
  negb (isEmpty s) && forallb kebabChar (list_ascii_of_string s).

Definition lowerChar (c : ascii) : ascii :=
  let n := code c in
  if (((65 <=? n) && (n <=? 90))
      || ((192 <=? n) && (n <=? 222) && negb (n =? 215)))%nat
  then ascii_of_nat (n + 32) else c.

Fixpoint toLowerCase (s : string) : string :=
  match s with
  | EmptyString => EmptyString
  | String c r => String (lowerChar c) (toLowerCase r)
  end.

(** [s.includes(sub)] *)
Fixpoint includes (sub s : string) : bool :=
  prefix sub s
  || match s with
     | EmptyString => false
     | String _ r => includes sub r
     end.

(** [parts.join(sep)] *)
Fixpoint join (sep : string) (parts : list string) : string :=
  match parts with
  | [] => ""
  | [p] => p
  | p :: rest => (p ++ sep ++ join sep rest)%string
  end.

End JsString.

(** ** Data model (the exported types of the API) *)

Inductive NodeType :=
| actor | command | aggregate | event | viewmodel
| preconditions | guards | branchinglogic | boundary.

Inductive EdgeLabel :=
| issues               (* Actor -> Command *)
| on                   (* Command -> Aggregate *)
| then_                (* Command -> Event *)
| if_                  (* Event -> BranchingLogic *)
| if_guard             (* Command -> Guards *)
| if_preconditions     (* Command -> Preconditions *)
| then_policy          (* Event -> Command (policy) *)
| supports_decision_for (* ViewModel -> Command *)
| marks_pivotal.       (* Event -> Boundary *)

Definition typeString (t : NodeType) : string :=
  match t with
  | actor => "actor" | command => "command" | aggregate => "aggregate"
  | event => "event" | viewmodel => "viewmodel"
  | preconditions => "preconditions" | guards => "guards"
  | branchinglogic => "branchinglogic" | boundary => "boundary"
  end.

Definition labelString (l : EdgeLabel) : string :=
  match l with
  | issues => "issues" | on => "on" | then_ => "then" | if_ => "if"
  | if_guard => "if guard" | if_preconditions => "if preconditions"
  | then_policy => "then (policy)"
  | supports_decision_for => "supports decision for"
  | marks_pivotal => "marks pivotal"
  end.

Definition NodeType_eqb (a b : NodeType) : bool :=
  match a, b with
  | actor, actor | command, command | aggregate, aggregate
  | event, event | viewmodel, viewmodel | preconditions, preconditions
  | guards, guards | branchinglogic, branchinglogic
  | boundary, boundary => true
  | _, _ => false
  end.

Definition EdgeLabel_eqb (a b : EdgeLabel) : bool :=
  match a, b with
  | issues, issues | on, on | then_, then_ | if_, if_
  | if_guard, if_guard | if_preconditions, if_preconditions
  | then_policy, then_policy
  | supports_decision_for, supports_decision_for
  | marks_pivotal, marks_pivotal => true
  | _, _ => false
  end.

(** The optional extension fields of a node ([description],
    [businessContext], ..., [position], [dimensions], [subtype]) are
    carried as a list of (field name, value) pairs; the engine never
    looks inside them. *)
Definition Extension := list (string * string).

Record EventStormingNode := mkNode {
  id : string;
  label : string;
  type : NodeType;
  extension : Extension
}.

Record EventStormingEdge := mkEdge {
  source : string;
  target : string;
  elabel : EdgeLabel
}.

Record EventStormingGraph := mkData {
  nodes : list EventStormingNode;
  edges : list EventStormingEdge
}.

Record ValidationResult := mkResult {
  isValid : bool;
  errors : list string;
  warnings : list string
}.

(** [Partial<EventStormingNode>]: every field may be absent. *)
Record PartialNode := mkPartial {
  p_id : option string;
  p_label : option string;
  p_type : option NodeType;
  p_extension : Extension
}.

Definition setField (k v : string) (x : Extension) : Extension :=
  if existsb (fun kv => fst kv =? k) x
  then map (fun kv => if fst kv =? k then (k, v) else kv) x
  else x ++ [(k, v)].

(** Object spread [{ ...currentNode, ...updates }]. *)
Definition spread (currentNode : EventStormingNode) (updates : PartialNode)
  : EventStormingNode :=
  {| id := match p_id updates with Some v => v | None => id currentNode end;
     label := match p_label updates with
              | Some v => v | None => label currentNode end;
     type := match p_type updates with
             | Some v => v | None => type currentNode end;
     extension := fold_left (fun x kv => setField (fst kv) (snd kv) x)
                            (p_extension updates) (extension currentNode) |}.

(** ** The Graphology store

    [new Graph({ type: 'directed', multi: false })]: nodes and edges are
    kept under string keys, in insertion order.  The adapter always
    passes an edge's own [source] and [target] fields as the endpoints
    of the stored edge, so the stored attributes carry the endpoints.
    The methods raise where the library does: on a node key or an edge
    key that is already present, on a key that is not found, and, the
    graph not being a multigraph, on a second edge from one node to
    another.  Neighbours are visited in the order in which their edges
    were added; the properties below do not depend on that order. *)

Record Graph := mkGraph {
  nodeMap : list (string * EventStormingNode);
  edgeMap : list (string * EventStormingEdge)
}.

Inductive GraphError :=
| NodeAlreadyExists (key : string)
| NodeNotFound (key : string)
| EdgeAlreadyExists (key : string)
| EdgeNotFound (key : string)
| ParallelEdge (src tgt : string).   (* multi: false *)

Inductive Outcome (A : Type) :=
| Returned (a : A)
| Threw (e : GraphError).
Arguments Threw {A} e.

Definition Eff (A : Type) := Graph -> Outcome A * Graph.

Definition ret {A} (a : A) : Eff A := fun g => (Returned a, g).

Definition throw {A} (e : GraphError) : Eff A := fun g => (Threw e, g).

Definition bind {A B} (m : Eff A) (k : A -> Eff B) : Eff B :=
  fun g => match m g with
           | (Returned a, g') => k a g'
           | (Threw e, g') => (Threw e, g')
           end.

Definition getStore : Eff Graph := fun g => (Returned g, g).

Definition putStore (g : Graph) : Eff unit := fun _ => (Returned tt, g).

Notation "x <- m ;; k" := (bind m (fun x => k))
  (at level 61, m at next level, right associativity).
Notation "m ;;; k" := (bind m (fun _ => k))
  (at level 61, right associativity).

(** [xs.forEach(x => body x)] for an effectful body. *)
Fixpoint forEach {A} (xs : list A) (body : A -> Eff unit) : Eff unit :=
  match xs with
  | [] => ret tt
  | x :: rest => body x ;;; forEach rest body
  end.

Module Graphology.

Definition empty : Graph := mkGraph [] [].

Definition hasNode (g : Graph) (k : string) : bool :=
  existsb (fun kv => fst kv =? k) (nodeMap g).

Definition getNodeAttributes (g : Graph) (k : string)
  : option EventStormingNode :=
  option_map snd (find (fun kv => fst kv =? k) (nodeMap g)).

(** One-argument [hasEdge]: is there an edge stored under this key? *)
Definition hasEdge (g : Graph) (key : string) : bool :=
  existsb (fun kv => fst kv =? key) (edgeMap g).

(** Is there an edge from [s] to [t]? *)
Definition hasDirectedEdge (g : Graph) (s t : string) : bool :=
  existsb (fun kv => (source (snd kv) =? s) && (target (snd kv) =? t))
          (edgeMap g).

Definition clear : Eff unit := putStore empty.

Definition addNode (k : string) (attributes : EventStormingNode)
  : Eff unit :=
  fun g =>
    if hasNode g k then (Threw (NodeAlreadyExists k), g)
    else (Returned tt,
          mkGraph (nodeMap g ++ [(k, attributes)]) (edgeMap g)).

Definition replaceNodeAttributes (k : string)
  (attributes : EventStormingNode) : Eff unit :=
  fun g =>
    if hasNode g k
    then (Returned tt,
          mkGraph (map (fun kv => if fst kv =? k then (k, attributes)
                                  else kv) (nodeMap g))
                  (edgeMap g))
    else (Threw (NodeNotFound k), g).

(** [dropNode] first drops every edge attached to the node. *)
Definition dropNode (k : string) : Eff unit :=
  fun g =>
    if hasNode g k
    then (Returned tt,
          mkGraph (filter (fun kv => negb (fst kv =? k)) (nodeMap g))
                  (filter (fun kv => negb ((source (snd kv) =? k)
                                           || (target (snd kv) =? k)))
                          (edgeMap g)))
    else (Threw (NodeNotFound k), g).

Definition addEdgeWithKey (key s t : string)
  (attributes : EventStormingEdge) : Eff unit :=
  fun g =>
    if negb (hasNode g s) then (Threw (NodeNotFound s), g)
    else if negb (hasNode g t) then (Threw (NodeNotFound t), g)
    else if hasEdge g key then (Threw (EdgeAlreadyExists key), g)
    else if hasDirectedEdge g s t then (Threw (ParallelEdge s t), g)
    else (Returned tt,
          mkGraph (nodeMap g) (edgeMap g ++ [(key, attributes)])).

Definition dropEdge (key : string) : Eff unit :=
  fun g =>
    if hasEdge g key
    then (Returned tt,
          mkGraph (nodeMap g)
                  (filter (fun kv => negb (fst kv =? key)) (edgeMap g)))
    else (Threw (EdgeNotFound key), g).

(** The attributes visited by [forEachNode] and [forEachEdge]. *)
Definition nodeEntries (g : Graph) : list EventStormingNode :=
  map snd (nodeMap g).

Definition edgeEntries (g : Graph) : list EventStormingEdge :=
  map snd (edgeMap g).

Definition outEdges (g : Graph) (k : string) : list EventStormingEdge :=
  filter (fun e => source e =? k) (edgeEntries g).

Definition inEdges (g : Graph) (k : string) : list EventStormingEdge :=
  filter (fun e => target e =? k) (edgeEntries g).

(** [forEachEdge(node, ...)]: the in-edges, then the out-edges that are
    not self-loops (those were already visited as in-edges). *)
Definition attachedEdges (g : Graph) (k : string)
  : list EventStormingEdge :=
  inEdges g k ++ filter (fun e => negb (target e =? k)) (outEdges g k).

Definition member (x : string) (s : list string) : bool :=
  existsb (fun y => y =? x) s.

(** [Set.prototype.add] *)
Definition setAdd (x : string) (s : list string) : list string :=
  if member x s then s else s ++ [x].

(** [forEachOutNeighbor]: each neighbour once. *)
Definition outNeighbors (g : Graph) (k : string) : list string :=
  fold_left (fun acc e => setAdd (target e) acc) (outEdges g k) [].

(** [inDegree] and [outDegree]: the number of edges into and out of a
    node (a self-loop counts once in each). *)
Definition inDegree (g : Graph) (k : string) : nat :=
  length (inEdges g k).

Definition outDegree (g : Graph) (k : string) : nat :=
  length (outEdges g k).

(** [Set.prototype.delete] *)
Definition setRemove (x : string) (s : list string) : list string :=
  filter (fun y => negb (y =? x)) s.

(** The text of the library's errors, with the quotation marks it puts
    around keys.  Only the first and the last reach a caller of the
    adapter, which tests for the other conditions before it calls the
    store; nothing below depends on the wording. *)
Definition quoted (k : string) : string :=
  String (ascii_of_nat 34) (k ++ String (ascii_of_nat 34) "")%string.

Definition message (e : GraphError) : string :=
  match e with
  | NodeAlreadyExists k =>
      ("Graph.addNode: the " ++ quoted k
       ++ " node already exist in the graph.")
  | NodeNotFound k =>
      ("Graph: could not find the " ++ quoted k ++ " node in the graph.")
  | EdgeAlreadyExists k =>
      ("Graph.addEdgeWithKey: the " ++ quoted k
       ++ " edge already exists in the graph.")
  | EdgeNotFound k =>
      ("Graph.dropEdge: could not find the " ++ quoted k
       ++ " edge in the graph.")
  | ParallelEdge s t =>
      ("Graph.addEdgeWithKey: an edge linking " ++ quoted s ++ " to "
       ++ quoted t ++ " already exists. If you really want to add "
       ++ "multiple edges linking those nodes, you should create a "
       ++ "multi graph by using the 'multi' option.")
  end%string.

End Graphology.

(** ** GraphologyAdapter *)

Record ImpactAnalysis := mkImpact {
  directImpact : list EventStormingNode;
  indirectImpact : list EventStormingNode;
  totalReach : nat
}.

(** An entry of [findBottlenecks]. *)
Record Bottleneck := mkBottleneck {
  bottleneckNode : EventStormingNode;
  centrality : nat
}.

(** The result of [validateEventStormingRules]. *)
Record RulesResult := mkRules {
  rulesValid : bool;
  violations : list string;
  ruleWarnings : list string
}.

(** The variables the inner [dfs] of [detectCycles] closes over. *)
Record CycleSearch := mkSearch {
  searchCycles : list (list string);
  searchVisited : list string;
  searchRecStack : list string;
  searchPath : list string
}.

Module GraphologyAdapter.

(** [`${edge.source}-${edge.label}-${edge.target}`] *)
Definition edgeKey (s : string) (l : EdgeLabel) (t : string) : string :=
  (s ++ "-" ++ labelString l ++ "-" ++ t)%string.

(** The callback of [edges.forEach] in [loadFromEventStormingData]. *)
Definition loadEdge (edge : EventStormingEdge) : Eff unit :=
  g <- getStore ;;
  if Graphology.hasNode g (source edge)
     && Graphology.hasNode g (target edge)
  then
    let key := edgeKey (source edge) (elabel edge) (target edge) in
    if negb (Graphology.hasEdge g key)
    then Graphology.addEdgeWithKey key (source edge) (target edge) edge
    else ret tt
  else ret tt.

Definition loadFromEventStormingData (data : EventStormingGraph)
  : Eff unit :=
  Graphology.clear ;;;
  forEach (nodes data) (fun node => Graphology.addNode (id node) node) ;;;
  forEach (edges data) loadEdge.

Definition exportToEventStormingData (g : Graph) : EventStormingGraph :=
  mkData (Graphology.nodeEntries g) (Graphology.edgeEntries g).

Definition addNode (node : EventStormingNode) : Eff bool :=
  g <- getStore ;;
  if Graphology.hasNode g (id node) then ret false
  else Graphology.addNode (id node) node ;;; ret true.

Definition hasNode (g : Graph) (nodeId : string) : bool :=
  Graphology.hasNode g nodeId.

Definition getNode (g : Graph) (nodeId : string)
  : option EventStormingNode :=
  if negb (Graphology.hasNode g nodeId) then None
  else Graphology.getNodeAttributes g nodeId.

Definition updateNode (nodeId : string) (updates : PartialNode)
  : Eff bool :=
  g <- getStore ;;
  if negb (Graphology.hasNode g nodeId) then ret false
  else
    match Graphology.getNodeAttributes g nodeId with
    | None => throw (NodeNotFound nodeId)
    | Some currentNode =>
        let updatedNode := spread currentNode updates in
        Graphology.replaceNodeAttributes nodeId updatedNode ;;; ret true
    end.

Definition removeNode (nodeId : string) : Eff bool :=
  g <- getStore ;;
  if negb (Graphology.hasNode g nodeId) then ret false
  else Graphology.dropNode nodeId ;;; ret true.

Definition filterNodes (g : Graph) (predicate : EventStormingNode -> bool)
  : list EventStormingNode :=
  filter predicate (Graphology.nodeEntries g).

Definition getNodesByType (g : Graph) (t : NodeType)
  : list EventStormingNode :=
  filter (fun node => NodeType_eqb (type node) t)
         (Graphology.nodeEntries g).

Definition addEdge (edge : EventStormingEdge) : Eff bool :=
  g <- getStore ;;
  let key := edgeKey (source edge) (elabel edge) (target edge) in
  if Graphology.hasEdge g key then ret false
  else if negb (Graphology.hasNode g (source edge))
          || negb (Graphology.hasNode g (target edge))
  then ret false
  else Graphology.addEdgeWithKey key (source edge) (target edge) edge ;;;
       ret true.

Definition removeEdge (s t : string) (l : EdgeLabel) : Eff bool :=
  g <- getStore ;;
  let key := edgeKey s l t in
  if negb (Graphology.hasEdge g key) then ret false
  else Graphology.dropEdge key ;;; ret true.

Definition getNodeEdges (g : Graph) (nodeId : string)
  : list EventStormingEdge :=
  if negb (Graphology.hasNode g nodeId) then []
  else Graphology.attachedEdges g nodeId.

Definition filterEdges (g : Graph) (predicate : EventStormingEdge -> bool)
  : list EventStormingEdge :=
  filter predicate (Graphology.edgeEntries g).

(** The attributes of the nodes stored under the given keys (every key
    an iteration of the store hands out names a stored node). *)
Definition attributesOf (g : Graph) (keys : list string)
  : list EventStormingNode :=
  flat_map (fun k => match Graphology.getNodeAttributes g k with
                     | Some n => [n]
                     | None => []
                     end) keys.

Definition getOutNeighborsByLabel (g : Graph) (nodeId : string)
  (l : EdgeLabel) : list EventStormingNode :=
  if negb (Graphology.hasNode g nodeId) then []
  else attributesOf g
         (map target (filter (fun edge => EdgeLabel_eqb (elabel edge) l)
                             (Graphology.outEdges g nodeId))).

Definition getInNeighborsByLabel (g : Graph) (nodeId : string)
  (l : EdgeLabel) : list EventStormingNode :=
  if negb (Graphology.hasNode g nodeId) then []
  else attributesOf g
         (map source (filter (fun edge => EdgeLabel_eqb (elabel edge) l)
                             (Graphology.inEdges g nodeId))).

(** The [while (queue.length > 0)] loop of [getImpactAnalysis]; one
    unit of fuel per iteration.  Returns [allReachable]. *)
Fixpoint impactLoop (fuel : nat) (g : Graph)
  (queue visited allReachable : list string) : option (list string) :=
  match fuel with
  | 0 => None
  | S fuel' =>
      match queue with
      | [] => Some allReachable
      | current :: rest =>
          if Graphology.member current visited
          then impactLoop fuel' g rest visited allReachable
          else
            let visited' := Graphology.setAdd current visited in
            impactLoop fuel' g
              (rest ++ filter (fun neighbor =>
                                 negb (Graphology.member neighbor visited'))
                              (Graphology.outNeighbors g current))
              visited'
              (Graphology.setAdd current allReachable)
      end
  end.

Definition getImpactAnalysis (fuel : nat) (g : Graph) (nodeId : string)
  : option ImpactAnalysis :=
  if negb (Graphology.hasNode g nodeId)
  then Some (mkImpact [] [] 0)
  else
    let neighbors := Graphology.outNeighbors g nodeId in
    let directImpact := attributesOf g neighbors in
    let allReachable :=
      fold_left (fun s neighbor => Graphology.setAdd neighbor s)
                neighbors [] in
    let queue := neighbors in
    let visited := Graphology.setAdd nodeId [] in
    match impactLoop fuel g queue visited allReachable with
    | None => None
    | Some allReachable =>
        let indirect :=
          filter (fun reachableId =>
                    negb (existsb (fun n => id n =? reachableId)
                                  directImpact))
                 allReachable in
        Some (mkImpact directImpact (attributesOf g indirect)
                       (length allReachable))
    end.

(** The inner [dfs] of [findAllPaths].  [room] is
    [maxLength + 1 - path.length]: the call returns at once when
    [path.length > maxLength]. *)
Fixpoint dfs (g : Graph) (targetId : string) (room : nat)
  (visited : list string) (currentId : string) (path : list string)
  : list (list string) :=
  match room with
  | 0 => []
  | S room' =>
      if currentId =? targetId then [path ++ [currentId]]
      else if Graphology.member currentId visited then []
      else flat_map (fun neighbor =>
                       dfs g targetId room'
                           (Graphology.setAdd currentId visited)
                           neighbor (path ++ [currentId]))
                    (Graphology.outNeighbors g currentId)
  end.

Definition findAllPaths (g : Graph) (sourceId targetId : string)
  (maxLength : nat) : list (list string) :=
  if negb (Graphology.hasNode g sourceId)
     || negb (Graphology.hasNode g targetId)
  then []
  else dfs g targetId (S maxLength) [] sourceId [].

(** *** Cycles *)

(** [path.indexOf(x)] *)
Fixpoint indexOf (x : string) (l : list string) : option nat :=
  match l with
  | [] => None
  | y :: r => if y =? x then Some 0 else option_map S (indexOf x r)
  end.

(** [path.slice(start)] for the result of [indexOf]: a start of -1
    counts from the end. *)
Definition sliceFrom (start : option nat) (l : list string)
  : list string :=
  match start with
  | Some i => skipn i l
  | None => skipn (length l - 1) l
  end.

(** The callback of [forEachOutNeighbor] in the inner [dfs] of
    [detectCycles]; [dfs] is the recursive call.  The callback's
    [return true] only ends the callback, and [dfs] always returns
    [false]: neither result is used. *)
Definition visitNeighbor
  (dfs : string -> CycleSearch -> option CycleSearch)
  (acc : option CycleSearch) (neighbor : string) : option CycleSearch :=
  match acc with
  | None => None
  | Some s =>
      if negb (Graphology.member neighbor (searchVisited s))
      then dfs neighbor s
      else if Graphology.member neighbor (searchRecStack s)
      then
        let cycleStart := indexOf neighbor (searchPath s) in
        let cycle := sliceFrom cycleStart (searchPath s) in
        Some (mkSearch (searchCycles s ++ [cycle ++ [neighbor]])
                       (searchVisited s) (searchRecStack s)
                       (searchPath s))
      else Some s
  end.

(** The inner [dfs] of [detectCycles].  [fuel] bounds the depth of the
    recursion. *)
Fixpoint cycleDfs (fuel : nat) (g : Graph) (nodeId : string)
  (st : CycleSearch) : option CycleSearch :=
  match fuel with
  | 0 => None
  | S fuel' =>
      let st1 :=
        mkSearch (searchCycles st)
                 (Graphology.setAdd nodeId (searchVisited st))
                 (Graphology.setAdd nodeId (searchRecStack st))
                 (searchPath st ++ [nodeId]) in
      match fold_left (visitNeighbor (cycleDfs fuel' g))
                      (Graphology.outNeighbors g nodeId) (Some st1)
      with
      | None => None
      | Some s =>
          Some (mkSearch (searchCycles s) (searchVisited s)
                         (Graphology.setRemove nodeId (searchRecStack s))
                         (removelast (searchPath s)))
      end
  end.

Definition detectCycles (fuel : nat) (g : Graph)
  : option (list (list string)) :=
  option_map searchCycles
    (fold_left
       (fun acc kv =>
          match acc with
          | None => None
          | Some s =>
              if negb (Graphology.member (fst kv) (searchVisited s))
              then cycleDfs fuel g (fst kv) s
              else Some s
          end)
       (nodeMap g) (Some (mkSearch [] [] [] []))).

(** *** Bottlenecks *)

(** [Array.prototype.sort] with the comparator
    [(a, b) => b.centrality - a.centrality]: the stable sort by
    descending centrality, here by insertion from the right. *)
Fixpoint insertByCentrality (b : Bottleneck) (l : list Bottleneck)
  : list Bottleneck :=
  match l with
  | [] => [b]
  | x :: r =>
      if (centrality x <=? centrality b)%nat then b :: l
      else x :: insertByCentrality b r
  end.

Fixpoint sortByCentrality (l : list Bottleneck) : list Bottleneck :=
  match l with
  | [] => []
  | b :: r => insertByCentrality b (sortByCentrality r)
  end.

Definition findBottlenecks (g : Graph) : list Bottleneck :=
  sortByCentrality
    (flat_map (fun kv =>
                 let inDegree := Graphology.inDegree g (fst kv) in
                 let outDegree := Graphology.outDegree g (fst kv) in
                 let centrality := inDegree + outDegree in
                 if (0 <? centrality)%nat
                 then [mkBottleneck (snd kv) centrality] else [])
              (nodeMap g)).

(** *** Methodology rules *)

Definition commandViolation (node : EventStormingNode) : string :=
  ("Command " ++ Graphology.quoted (label node)
   ++ " must generate at least one event")%string.

Definition eventWarning (node : EventStormingNode) : string :=
  ("Event " ++ Graphology.quoted (label node)
   ++ " is not generated by any command")%string.

Definition validateEventStormingRules (g : Graph) : RulesResult :=
  let violations :=
    flat_map (fun kv =>
                if NodeType_eqb (type (snd kv)) command
                then
                  let hasEvents :=
                    (0 <? length (getOutNeighborsByLabel g (fst kv) then_))%nat
                  in
                  if negb hasEvents then [commandViolation (snd kv)] else []
                else [])
             (nodeMap g) in
  let warnings :=
    flat_map (fun kv =>
                if NodeType_eqb (type (snd kv)) event
                then
                  let hasCommand :=
                    (0 <? length (getInNeighborsByLabel g (fst kv) then_))%nat
                  in
                  if negb hasCommand then [eventWarning (snd kv)] else []
                else [])
             (nodeMap g) in
  mkRules (length violations =? 0)%nat violations warnings.

End GraphologyAdapter.

(** ** EventStormingAPI *)

Inductive PathType := HAPPY_PATH | ERROR_PATH | POLICY_PATH.

(** One entry of [getCommandExecutionPaths(...).paths].  The
    [description] field is display text and is not carried. *)
Record ExecutionPath := mkPath {
  path : list EventStormingNode;
  pathType : PathType
}.

Record CommandExecutionPaths := mkPaths {
  pathsCommand : option EventStormingNode;
  paths : list ExecutionPath
}.

(** What [JSON.parse(jsonString)] hands to [importFromJSON]: an
    exception, or an object whose [nodes] and [edges] are arrays
    ([Some]) or are missing or of another shape ([None]). *)
Inductive ParsedJSON :=
| ParseFailure (msg : string)
| ParsedObject (nodes : option (list EventStormingNode))
               (edges : option (list EventStormingEdge)).

Inductive Mutation :=
| AddNode (node : EventStormingNode)
| UpdateNode (nodeId : string) (updates : PartialNode)
| RemoveNode (nodeId : string)
| AddEdge (edge : EventStormingEdge)
| RemoveEdge (s t : string) (l : EdgeLabel).

(** [try { body } catch (error) { handler error }] *)
Definition tryCatch {A} (body : Eff A) (handler : GraphError -> Eff A)
  : Eff A :=
  fun g => match body g with
           | (Returned a, g') => (Returned a, g')
           | (Threw e, g') => handler e g'
           end.

(** The parameter of [createCommandFlow]. *)
Record CommandFlowParams := mkFlowParams {
  actorId : string;
  actorLabel : string;
  commandId : string;
  commandLabel : string;
  aggregateId : string;
  aggregateLabel : string;
  eventId : string;
  eventLabel : string;
  description : option string
}.

(** An element of the array given to [addCommandGuards] and to
    [addCommandPreconditions]. *)
Record CommandItem := mkItem {
  itemId : string;
  itemLabel : string;
  itemDescription : option string
}.

Record ProcessFlow := mkProcessFlow {
  flowCommand : EventStormingNode;
  flowActor : option EventStormingNode;
  flowAggregate : option EventStormingNode;
  flowGuards : list EventStormingNode;
  flowPreconditions : list EventStormingNode;
  flowEvents : list EventStormingNode;
  flowBranchingLogic : list EventStormingNode;
  flowPoliciesTriggered : list EventStormingNode
}.

Record CommandFlow := mkCommandFlow {
  legacyCommand : EventStormingNode;
  legacyActor : option EventStormingNode;
  legacyAggregate : option EventStormingNode;
  legacyGuards : list EventStormingNode;
  legacyPreconditions : list EventStormingNode;
  legacyEvents : list EventStormingNode;
  legacyBranchingLogic : list EventStormingNode
}.

Record AggregateView := mkAggregateView {
  viewAggregate : EventStormingNode;
  processes : list ProcessFlow;
  allCommands : list EventStormingNode;
  allEvents : list EventStormingNode;
  viewModels : list EventStormingNode
}.

(** The result of [getStatistics]; the two objects built by [reduce]
    are lists of (key, count) in the order in which the keys first
    occur. *)
Record Statistics := mkStatistics {
  totalNodes : nat;
  totalEdges : nat;
  nodesByType : list (NodeType * nat);
  edgesByLabel : list (EdgeLabel * nat);
  statCommands : nat;
  statEvents : nat;
  statAggregates : nat;
  statActors : nat
}.

Inductive Level := LOW | MEDIUM | HIGH.

Record CriticalNode := mkCritical {
  criticalNode : EventStormingNode;
  criticalCentrality : nat;
  criticalityLevel : Level
}.

Record ChangeImpact := mkChangeImpact {
  impactNode : option EventStormingNode;
  changeDirect : list EventStormingNode;
  changeIndirect : list EventStormingNode;
  changeReach : nat;
  riskLevel : Level
}.

(** A violation or a warning of [validateEventStormingMethodology]. *)
Record Finding := mkFinding {
  rule : string;
  message : string;
  affectedNodes : list string
}.

Record MethodologyResult := mkMethodology {
  methodologyValid : bool;
  methodologyViolations : list Finding;
  methodologyWarnings : list Finding;
  suggestions : list string
}.

Module EventStormingAPI.

Definition getGraph (g : Graph) : EventStormingGraph :=
  GraphologyAdapter.exportToEventStormingData g.

Definition loadGraph (data : EventStormingGraph) : Eff unit :=
  GraphologyAdapter.loadFromEventStormingData data.

Definition getNodesByType (g : Graph) (t : NodeType)
  : list EventStormingNode :=
  GraphologyAdapter.getNodesByType g t.

Definition getNode (g : Graph) (nodeId : string)
  : option EventStormingNode :=
  GraphologyAdapter.getNode g nodeId.

Definition getNodeEdges (g : Graph) (nodeId : string)
  : list EventStormingEdge :=
  GraphologyAdapter.getNodeEdges g nodeId.

Definition validTypes : list NodeType :=
  [actor; command; aggregate; event; viewmodel; preconditions; guards;
   branchinglogic].

Definition idWarning (i : string) : string :=
  ("Node ID '" ++ i ++ "' should use kebab-case format "
   ++ "(lowercase with hyphens/underscores)")%string.

Definition typeError (t : NodeType) : string :=
  ("Invalid node type '" ++ typeString t ++ "'. Must be one of: "
   ++ JsString.join ", " (map typeString validTypes))%string.

Definition validateNode (node : EventStormingNode) : ValidationResult :=
  let errors1 :=
    if JsString.isEmpty (id node)
       || JsString.isEmpty (JsString.trim (id node))
    then ["Node ID cannot be empty"] else [] in
  let errors2 :=
    if JsString.isEmpty (label node)
       || JsString.isEmpty (JsString.trim (label node))
    then ["Node label cannot be empty"] else [] in
  let warnings :=
    if negb (JsString.isEmpty (id node))
       && negb (JsString.testKebab (id node))
    then [idWarning (id node)] else [] in
  let errors3 :=
    if negb (existsb (NodeType_eqb (type node)) validTypes)
    then [typeError (type node)] else [] in
  let errors := errors1 ++ errors2 ++ errors3 in
  mkResult (length errors =? 0)%nat errors warnings.

Definition validCombinations (l : EdgeLabel)
  : list (NodeType * NodeType) :=
  match l with
  | issues => [(actor, command)]
  | on => [(command, aggregate)]
  | then_ => [(command, event)]
  | if_ => [(event, branchinglogic)]
  | if_guard => [(command, guards)]
  | if_preconditions => [(command, preconditions)]
  | then_policy => [(event, command)]
  | supports_decision_for => [(viewmodel, command)]
  | marks_pivotal => [(event, boundary)]
  end.

Definition isValidCombination (l : EdgeLabel) (s t : NodeType) : bool :=
  existsb (fun combo => NodeType_eqb (fst combo) s
                        && NodeType_eqb (snd combo) t)
          (validCombinations l).

Definition validateEdge (edge : EventStormingEdge)
  (sourceNode targetNode : EventStormingNode) : ValidationResult :=
  let validCombs := validCombinations (elabel edge) in
  let errors :=
    if negb (isValidCombination (elabel edge) (type sourceNode)
                                (type targetNode))
    then [("Invalid edge: " ++ typeString (type sourceNode) ++ " --"
           ++ labelString (elabel edge) ++ "--> "
           ++ typeString (type targetNode) ++ ". "
           ++ "Valid combinations for '" ++ labelString (elabel edge)
           ++ "': "
           ++ JsString.join ", "
                (map (fun c => (typeString (fst c) ++ " -> "
                                ++ typeString (snd c))%string)
                     validCombs))%string]
    else [] in
  mkResult (length errors =? 0)%nat errors [].

(** The template literals of the failure results. *)
Definition nodeExists (i : string) : string :=
  ("Node with ID '" ++ i ++ "' already exists")%string.

Definition nodeNotFound (i : string) : string :=
  ("Node with ID '" ++ i ++ "' not found")%string.

Definition sourceNotFound (i : string) : string :=
  ("Source node '" ++ i ++ "' not found")%string.

Definition targetNotFound (i : string) : string :=
  ("Target node '" ++ i ++ "' not found")%string.

Definition edgeExists (s : string) (l : EdgeLabel) (t : string) : string :=
  ("Edge already exists: " ++ s ++ " --" ++ labelString l ++ "--> "
   ++ t)%string.

Definition edgeNotFound (s : string) (l : EdgeLabel) (t : string)
  : string :=
  ("Edge not found: " ++ s ++ " --" ++ labelString l ++ "--> " ++ t)%string.

Definition addNode (node : EventStormingNode) : Eff ValidationResult :=
  g <- getStore ;;
  if GraphologyAdapter.hasNode g (id node)
  then ret (mkResult false [nodeExists (id node)] [])
  else
    let validation := validateNode node in
    if negb (isValid validation) then ret validation
    else GraphologyAdapter.addNode node ;;;
         ret (mkResult true [] (warnings validation)).

Definition updateNode (nodeId : string) (updates : PartialNode)
  : Eff ValidationResult :=
  g <- getStore ;;
  if negb (GraphologyAdapter.hasNode g nodeId)
  then ret (mkResult false [nodeNotFound nodeId] [])
  else
    match GraphologyAdapter.getNode g nodeId with
    | None => throw (NodeNotFound nodeId)   (* excluded by [hasNode] *)
    | Some currentNode =>
        let updatedNode := spread currentNode updates in
        let validation := validateNode updatedNode in
        if negb (isValid validation) then ret validation
        else GraphologyAdapter.updateNode nodeId updates ;;;
             ret (mkResult true [] (warnings validation))
    end.

Definition removeNode (nodeId : string) : Eff ValidationResult :=
  g <- getStore ;;
  if negb (GraphologyAdapter.hasNode g nodeId)
  then ret (mkResult false [nodeNotFound nodeId] [])
  else GraphologyAdapter.removeNode nodeId ;;;
       ret (mkResult true [] []).

Definition addEdge (edge : EventStormingEdge) : Eff ValidationResult :=
  g <- getStore ;;
  match getNode g (source edge), getNode g (target edge) with
  | None, _ =>
      ret (mkResult false [sourceNotFound (source edge)] [])
  | Some _, None =>
      ret (mkResult false [targetNotFound (target edge)] [])
  | Some sourceNode, Some targetNode =>
      let validation := validateEdge edge sourceNode targetNode in
      if negb (isValid validation) then ret validation
      else
        added <- GraphologyAdapter.addEdge edge ;;
        if negb added
        then ret (mkResult false
                    [edgeExists (source edge) (elabel edge) (target edge)]
                    [])
        else ret (mkResult true [] (warnings validation))
  end.

Definition removeEdge (s t : string) (l : EdgeLabel)
  : Eff ValidationResult :=
  removed <- GraphologyAdapter.removeEdge s t l ;;
  if negb removed
  then ret (mkResult false [edgeNotFound s l t] [])
  else ret (mkResult true [] []).

Definition mutate (m : Mutation) : Eff ValidationResult :=
  match m with
  | AddNode node => addNode node
  | UpdateNode nodeId updates => updateNode nodeId updates
  | RemoveNode nodeId => removeNode nodeId
  | AddEdge edge => addEdge edge
  | RemoveEdge s t l => removeEdge s t l
  end.

Definition commandError (c : EventStormingNode) : string :=
  ("Command '" ++ label c ++ "' must generate at least one event")%string.

Definition eventWarning (e : EventStormingNode) : string :=
  ("Event '" ++ label e ++ "' is not generated by any command")%string.

Definition validateGraph (g : Graph) : ValidationResult :=
  let allEdges := GraphologyAdapter.filterEdges g (fun _ => true) in
  let connectedNodeIds :=
    fold_left (fun s edge =>
                 Graphology.setAdd (target edge)
                   (Graphology.setAdd (source edge) s))
              allEdges [] in
  let allNodes := GraphologyAdapter.filterNodes g (fun _ => true) in
  let orphanedNodes :=
    filter (fun node => negb (Graphology.member (id node) connectedNodeIds))
           allNodes in
  let warnings1 :=
    if (0 <? length orphanedNodes)%nat
    then [("Orphaned nodes found: "
           ++ JsString.join ", " (map label orphanedNodes))%string]
    else [] in
  let commands := getNodesByType g command in
  let errors :=
    flat_map (fun c =>
                let hasEvents :=
                  existsb (fun edge => (source edge =? id c)
                              && EdgeLabel_eqb (elabel edge) then_)
                          allEdges in
                if negb hasEvents then [commandError c] else [])
             commands in
  let events := getNodesByType g event in
  let warnings2 :=
    flat_map (fun e =>
                let hasIncomingCommand :=
                  existsb (fun edge => (target edge =? id e)
                              && EdgeLabel_eqb (elabel edge) then_)
                          allEdges in
                if negb hasIncomingCommand then [eventWarning e] else [])
             events in
  mkResult (length errors =? 0)%nat errors (warnings1 ++ warnings2).

Definition importFromJSON (parsed : ParsedJSON) : Eff ValidationResult :=
  match parsed with
  | ParseFailure msg =>
      ret (mkResult false [("Failed to parse JSON: " ++ msg)%string] [])
  | ParsedObject None _ =>
      ret (mkResult false
             ["Invalid JSON: missing or invalid nodes array"] [])
  | ParsedObject (Some _) None =>
      ret (mkResult false
             ["Invalid JSON: missing or invalid edges array"] [])
  | ParsedObject (Some ns) (Some es) =>
      tryCatch
        (GraphologyAdapter.loadFromEventStormingData (mkData ns es) ;;;
         g <- getStore ;;
         let validation := validateGraph g in
         ret (mkResult true [] (warnings validation)))
        (fun error =>
           ret (mkResult false
                  [("Failed to parse JSON: "
                    ++ Graphology.message error)%string] []))
  end.

Definition isErrorLabel (l : string) : bool :=
  JsString.includes "error" (JsString.toLowerCase l)
  || JsString.includes "failed" (JsString.toLowerCase l).

Definition getCommandExecutionPaths (g : Graph) (commandId : string)
  : CommandExecutionPaths :=
  match GraphologyAdapter.getNode g commandId with
  | None => mkPaths None []
  | Some c =>
      if negb (NodeType_eqb (type c) command) then mkPaths None []
      else
        let events :=
          GraphologyAdapter.getOutNeighborsByLabel g commandId then_ in
        mkPaths (Some c)
          (flat_map (fun ev =>
             let eventPaths :=
               GraphologyAdapter.findAllPaths g commandId (id ev) 5 in
             map (fun pathIds =>
                    let pathNodes :=
                      flat_map (fun i =>
                                  match GraphologyAdapter.getNode g i with
                                  | Some n => [n]
                                  | None => []
                                  end) pathIds in
                    let pathType1 :=
                      if isErrorLabel (label ev)
                      then ERROR_PATH else HAPPY_PATH in
                    let policyCommands :=
                      GraphologyAdapter.getOutNeighborsByLabel
                        g (id ev) then_policy in
                    let pathType2 :=
                      if (0 <? length policyCommands)%nat
                      then POLICY_PATH else pathType1 in
                    mkPath pathNodes pathType2)
                 eventPaths)
             events)
  end.

(** *** Further queries and compound operations *)

Definition getEdgesByLabel (g : Graph) (l : EdgeLabel)
  : list EventStormingEdge :=
  GraphologyAdapter.filterEdges g
    (fun edge => EdgeLabel_eqb (elabel edge) l).

(** [description: params.description]: the field is carried when it
    has a value. *)
Definition describe (d : option string) : Extension :=
  match d with
  | Some v => [("description", v)]
  | None => []
  end.

(** The result built from [results]: all errors, all warnings. *)
Definition combineResults (results : list ValidationResult)
  : ValidationResult :=
  let errors := flat_map errors results in
  let warnings := flat_map warnings results in
  mkResult (length errors =? 0)%nat errors warnings.

Definition createCommandFlow (params : CommandFlowParams)
  : Eff ValidationResult :=
  r1 <- addNode (mkNode (actorId params) (actorLabel params) actor
                        (describe (description params))) ;;
  r2 <- addNode (mkNode (commandId params) (commandLabel params) command
                        (describe (description params))) ;;
  r3 <- addNode (mkNode (aggregateId params) (aggregateLabel params)
                        aggregate (describe (description params))) ;;
  r4 <- addNode (mkNode (eventId params) (eventLabel params) event
                        (describe (description params))) ;;
  r5 <- addEdge (mkEdge (actorId params) (commandId params) issues) ;;
  r6 <- addEdge (mkEdge (commandId params) (aggregateId params) on) ;;
  r7 <- addEdge (mkEdge (commandId params) (eventId params) then_) ;;
  ret (combineResults [r1; r2; r3; r4; r5; r6; r7]).

(** The loop shared by [addCommandGuards] and
    [addCommandPreconditions]: per item, add the node, then the edge
    from the command, collecting both results. *)
Fixpoint addItems (t : NodeType) (l : EdgeLabel) (commandId : string)
  (items : list CommandItem) : Eff (list ValidationResult) :=
  match items with
  | [] => ret []
  | item :: rest =>
      r1 <- addNode (mkNode (itemId item) (itemLabel item) t
                            (describe (itemDescription item))) ;;
      r2 <- addEdge (mkEdge commandId (itemId item) l) ;;
      results <- addItems t l commandId rest ;;
      ret (r1 :: r2 :: results)
  end.

Definition addCommandGuards (commandId : string)
  (guardItems : list CommandItem) : Eff ValidationResult :=
  results <- addItems guards if_guard commandId guardItems ;;
  ret (combineResults results).

Definition addCommandPreconditions (commandId : string)
  (items : list CommandItem) : Eff ValidationResult :=
  results <- addItems preconditions if_preconditions commandId items ;;
  ret (combineResults results).

Definition ofType (t : NodeType) (l : list EventStormingNode)
  : list EventStormingNode :=
  filter (fun node => NodeType_eqb (type node) t) l.

Definition getProcessFlow (g : Graph) (commandId : string)
  : option ProcessFlow :=
  match GraphologyAdapter.getNode g commandId with
  | None => None
  | Some c =>
      if negb (NodeType_eqb (type c) command) then None
      else
        let actors :=
          ofType actor
            (GraphologyAdapter.getInNeighborsByLabel g commandId issues) in
        let aggregates :=
          ofType aggregate
            (GraphologyAdapter.getOutNeighborsByLabel g commandId on) in
        let guardNodes :=
          ofType guards
            (GraphologyAdapter.getOutNeighborsByLabel g commandId if_guard)
        in
        let preconditionNodes :=
          ofType preconditions
            (GraphologyAdapter.getOutNeighborsByLabel
               g commandId if_preconditions) in
        let events :=
          ofType event
            (GraphologyAdapter.getOutNeighborsByLabel g commandId then_) in
        let branchingLogic :=
          flat_map (fun ev =>
                      ofType branchinglogic
                        (GraphologyAdapter.getOutNeighborsByLabel
                           g (id ev) if_)) events in
        let policiesTriggered :=
          flat_map (fun ev =>
                      ofType command
                        (GraphologyAdapter.getOutNeighborsByLabel
                           g (id ev) then_policy)) events in
        Some (mkProcessFlow c (hd_error actors) (hd_error aggregates)
                guardNodes preconditionNodes events branchingLogic
                policiesTriggered)
  end.

Definition getCommandFlow (g : Graph) (commandId : string)
  : option CommandFlow :=
  match getNode g commandId with
  | None => None
  | Some c =>
      if negb (NodeType_eqb (type c) command) then None
      else
        let actors :=
          GraphologyAdapter.getInNeighborsByLabel g commandId issues in
        let aggregates :=
          GraphologyAdapter.getOutNeighborsByLabel g commandId on in
        let guardNodes :=
          ofType guards
            (GraphologyAdapter.getOutNeighborsByLabel g commandId if_guard)
        in
        let preconditionNodes :=
          ofType preconditions
            (GraphologyAdapter.getOutNeighborsByLabel
               g commandId if_preconditions) in
        let events :=
          ofType event
            (GraphologyAdapter.getOutNeighborsByLabel g commandId then_) in
        let branchingLogic :=
          flat_map (fun ev =>
                      ofType branchinglogic
                        (GraphologyAdapter.getOutNeighborsByLabel
                           g (id ev) if_)) events in
        Some (mkCommandFlow c
                (find (fun node => NodeType_eqb (type node) actor) actors)
                (find (fun node => NodeType_eqb (type node) aggregate)
                      aggregates)
                guardNodes preconditionNodes events branchingLogic)
  end.

(** [flows.filter(flow => flow !== null)] *)
Definition present {A} (l : list (option A)) : list A :=
  flat_map (fun o => match o with Some a => [a] | None => [] end) l.

(** [Map.prototype.set] on a map from ids to nodes. *)
Definition mapSet (k : string) (v : EventStormingNode)
  (m : list (string * EventStormingNode))
  : list (string * EventStormingNode) :=
  if existsb (fun kv => fst kv =? k) m
  then map (fun kv => if fst kv =? k then (k, v) else kv) m
  else m ++ [(k, v)].

(** [Array.from(new Map(l.map(n => [n.id, n])).values())] *)
Definition uniqueById (l : list EventStormingNode)
  : list EventStormingNode :=
  map snd (fold_left (fun m n => mapSet (id n) n m) l []).

Definition getAggregateView (g : Graph) (aggregateId : string)
  : option AggregateView :=
  match getNode g aggregateId with
  | None => None
  | Some a =>
      if negb (NodeType_eqb (type a) aggregate) then None
      else
        let commandsOnAggregate :=
          ofType command
            (GraphologyAdapter.getInNeighborsByLabel g aggregateId on) in
        let processes :=
          present (map (fun cmd => getProcessFlow g (id cmd))
                       commandsOnAggregate) in
        let allEvents := uniqueById (flat_map flowEvents processes) in
        let viewModels :=
          flat_map (fun cmd =>
                      ofType viewmodel
                        (GraphologyAdapter.getInNeighborsByLabel
                           g (id cmd) supports_decision_for))
                   commandsOnAggregate in
        Some (mkAggregateView a processes commandsOnAggregate allEvents
                              viewModels)
  end.

Definition getAllProcessFlows (g : Graph) : list ProcessFlow :=
  present (map (fun cmd => getProcessFlow g (id cmd))
               (getNodesByType g command)).

Definition getAllAggregateViews (g : Graph) : list AggregateView :=
  present (map (fun agg => getAggregateView g (id agg))
               (getNodesByType g aggregate)).

Definition getProcessesByEvent (g : Graph) (eventId : string)
  : list ProcessFlow :=
  filter (fun process =>
            existsb (fun ev => id ev =? eventId) (flowEvents process))
         (getAllProcessFlows g).

Definition getAggregatesByActor (g : Graph) (actorId : string)
  : list AggregateView :=
  filter (fun view =>
            existsb (fun process =>
                       match flowActor process with
                       | Some a => id a =? actorId
                       | None => false
                       end) (processes view))
         (getAllAggregateViews g).

(** [acc[key] = (acc[key] || 0) + 1] *)
Fixpoint increment {K} (eqb : K -> K -> bool) (key : K)
  (acc : list (K * nat)) : list (K * nat) :=
  match acc with
  | [] => [(key, 1)]
  | (k, n) :: rest =>
      if eqb k key then (k, S n) :: rest
      else (k, n) :: increment eqb key rest
  end.

Definition getStatistics (g : Graph) : Statistics :=
  let allNodes := GraphologyAdapter.filterNodes g (fun _ => true) in
  let allEdges := GraphologyAdapter.filterEdges g (fun _ => true) in
  let nodesByType :=
    fold_left (fun acc node => increment NodeType_eqb (type node) acc)
              allNodes [] in
  let edgesByLabel :=
    fold_left (fun acc edge => increment EdgeLabel_eqb (elabel edge) acc)
              allEdges [] in
  mkStatistics (length allNodes) (length allEdges) nodesByType edgesByLabel
               (length (getNodesByType g command))
               (length (getNodesByType g event))
               (length (getNodesByType g aggregate))
               (length (getNodesByType g actor)).

Definition updateFailed (i : string) : string :=
  ("Failed to update node with ID '" ++ i ++ "'")%string.

(** [fields] holds extension fields only. *)
Definition updateNodeExtendedFields (nodeId : string) (fields : Extension)
  : Eff ValidationResult :=
  g <- getStore ;;
  if negb (GraphologyAdapter.hasNode g nodeId)
  then ret (mkResult false [nodeNotFound nodeId] [])
  else
    success <- GraphologyAdapter.updateNode nodeId
                 (mkPartial None None None fields) ;;
    if negb success
    then ret (mkResult false [updateFailed nodeId] [])
    else ret (mkResult true [] []).

Definition findCriticalNodes (g : Graph) : list CriticalNode :=
  map (fun b =>
         let criticalityLevel :=
           if (20 <? centrality b)%nat then HIGH
           else if (10 <? centrality b)%nat then MEDIUM
           else LOW in
         mkCritical (bottleneckNode b) (centrality b) criticalityLevel)
      (GraphologyAdapter.findBottlenecks g).

Definition getChangeImpactAnalysis (fuel : nat) (g : Graph)
  (nodeId : string) : option ChangeImpact :=
  match GraphologyAdapter.getNode g nodeId with
  | None => Some (mkChangeImpact None [] [] 0 LOW)
  | Some node =>
      match GraphologyAdapter.getImpactAnalysis fuel g nodeId with
      | None => None
      | Some impact =>
          let riskLevel :=
            if (10 <? totalReach impact)%nat then HIGH
            else if (5 <? totalReach impact)%nat then MEDIUM
            else LOW in
          Some (mkChangeImpact (Some node) (directImpact impact)
                               (indirectImpact impact) (totalReach impact)
                               riskLevel)
      end
  end.

(** *** Methodology report *)

Definition isQuote (c : ascii) : bool := (JsString.code c =? 34)%nat.

(** All matches in [message] of the pattern "a quotation mark, one or
    more characters that are none, a quotation mark", each with its
    quotation marks removed: the non-empty runs between an opening
    mark and the next mark, from left to right.  [run] is the run read
    since the last candidate opening mark, in reverse, when there is
    one. *)
Fixpoint quotedRuns (run : option (list ascii)) (l : list ascii)
  : list string :=
  match l with
  | [] => []
  | c :: rest =>
      match run with
      | None => if isQuote c then quotedRuns (Some []) rest
                else quotedRuns None rest
      | Some [] => if isQuote c then quotedRuns (Some []) rest
                   else quotedRuns (Some [c]) rest
      | Some acc =>
          if isQuote c
          then string_of_list_ascii (rev acc) :: quotedRuns None rest
          else quotedRuns (Some (c :: acc)) rest
      end
  end.

Definition extractNodeIdsFromMessage (message : string) : list string :=
  quotedRuns None (list_ascii_of_string message).

Definition generateSuggestions (violations warnings : list Finding)
  : list string :=
  (if (0 <? length violations)%nat
   then ["Focus on fixing methodology violations first - they represent structural issues"]
   else [])
  ++ (if (5 <? length warnings)%nat
      then ["Consider reviewing your EventStorming model for completeness"]
      else [])
  ++ ["Use impact analysis before making changes to critical nodes";
      "Check for circular dependencies regularly to avoid infinite loops"].

Definition validateEventStormingMethodology (g : Graph)
  : MethodologyResult :=
  let validation := GraphologyAdapter.validateEventStormingRules g in
  let violations :=
    map (fun msg => mkFinding "EventStorming Methodology" msg
                              (extractNodeIdsFromMessage msg))
        (violations validation) in
  let warnings :=
    map (fun msg => mkFinding "EventStorming Best Practice" msg
                              (extractNodeIdsFromMessage msg))
        (ruleWarnings validation) in
  mkMethodology (rulesValid validation) violations warnings
                (generateSuggestions violations warnings).

End EventStormingAPI.

(** ** Notions used to state the properties *)

Section Notions.

Variable g : Graph.

Definition typeOf (k : string) : option NodeType :=
  option_map type (Graphology.getNodeAttributes g k).

(** The pair (source.type, target.type) of a stored edge is in the
    table of [validateEdge] for the edge's label. *)
Definition edgeCompatible (e : EventStormingEdge) : bool :=
  match typeOf (source e), typeOf (target e) with
  | Some s, Some t => EventStormingAPI.isValidCombination (elabel e) s t
  | _, _ => false
  end.

Definition compatible : bool :=
  forallb edgeCompatible (Graphology.edgeEntries g).

(** A mutation that leaves the [type] of the node it touches alone. *)
Definition keepsType (m : Mutation) : bool :=
  match m with
  | UpdateNode k updates =>
      match Graphology.getNodeAttributes g k with
      | Some n => NodeType_eqb (type (spread n updates)) (type n)
      | None => true
      end
  | _ => true
  end.

(** A mutation that leaves the [id] field of the node it touches
    alone. *)
Definition keepsId (m : Mutation) : bool :=
  match m with
  | UpdateNode k updates =>
      match Graphology.getNodeAttributes g k with
      | Some n => id (spread n updates) =? id n
      | None => true
      end
  | _ => true
  end.

(** Every node is stored under its own [id]. *)
Definition idsAreKeys : bool :=
  forallb (fun kv => fst kv =? id (snd kv)) (nodeMap g).

Fixpoint distinct (l : list string) : bool :=
  match l with
  | [] => true
  | x :: r => negb (Graphology.member x r) && distinct r
  end.

(** [e'] links the same ordered pair of nodes as [e]. *)
Definition parallelTo (e e' : EventStormingEdge) : bool :=
  (source e' =? source e) && (target e' =? target e).

Fixpoint noParallel (l : list EventStormingEdge) : bool :=
  match l with
  | [] => true
  | e :: r => negb (existsb (parallelTo e) r) && noParallel r
  end.

(** No two edges of a snapshot link the same ordered pair of nodes
    under different labels. *)
Definition unambiguous (es : list EventStormingEdge) : bool :=
  forallb (fun e => forallb (fun e' => implb (parallelTo e e')
                                             (EdgeLabel_eqb (elabel e')
                                                            (elabel e)))
                            es) es.

(** What the store itself maintains: distinct node keys, edges between
    stored nodes, each edge under the key the adapter computes for it,
    distinct edge keys, and (multi: false) at most one edge per ordered
    pair of nodes. *)
Definition wellFormed : bool :=
  distinct (map fst (nodeMap g))
  && forallb (fun e => Graphology.hasNode g (source e)
                       && Graphology.hasNode g (target e))
             (Graphology.edgeEntries g)
  && forallb (fun kv => fst kv =? GraphologyAdapter.edgeKey
                                    (source (snd kv)) (elabel (snd kv))
                                    (target (snd kv)))
             (edgeMap g)
  && distinct (map fst (edgeMap g))
  && noParallel (Graphology.edgeEntries g).

(** There is a stored edge from [x] to [y]. *)
Definition edgeStep (x y : string) : Prop :=
  exists e, In e (Graphology.edgeEntries g)
            /\ source e = x /\ target e = y.

(** [y] is forward-reachable from [x] (in zero or more steps). *)
Definition reachable : string -> string -> Prop :=
  clos_refl_trans_1n string edgeStep.

Definition nodeAt (k : string) (n : EventStormingNode) : Prop :=
  Graphology.getNodeAttributes g k = Some n.

(** Some stored edge leaves the node [n] with the given label. *)
Definition hasOutgoing (l : EdgeLabel) (n : EventStormingNode) : bool :=
  existsb (fun e => (source e =? id n) && EdgeLabel_eqb (elabel e) l)
          (Graphology.edgeEntries g).

(** Enough iterations for the loop of [getImpactAnalysis]. *)
Definition impactFuel : nat :=
  S (length (edgeMap g) + S (length (edgeMap g)) * length (nodeMap g)).

End Notions.

(** The state of the loop of [getImpactAnalysis] for the node [N]: what
    holds of [queue], [visited] and [allReachable] before each
    iteration. *)
Record LoopInvariant (g : Graph) (N : string)
       (queue visited allReachable : list string) : Prop := {
  inv_start : In N visited;
  inv_all : forall x, In x allReachable <->
                      edgeStep g N x \/ (In x visited /\ x <> N);
  inv_nodup : NoDup allReachable;
  inv_visited : forall x, In x visited -> x <> N ->
                          exists s, edgeStep g N s /\ reachable g s x;
  inv_queue : forall x, In x queue ->
                        exists s, edgeStep g N s /\ reachable g s x;
  inv_seeds : forall s, edgeStep g N s -> In s visited \/ In s queue;
  inv_closed : forall x y, In x visited -> x <> N -> edgeStep g x y ->
                           In y visited \/ In y queue
}.

(** The number of stored nodes the loop has not visited yet. *)
Definition unvisited (g : Graph) (visited : list string) : nat :=
  length (filter (fun k => negb (Graphology.member k visited))
                 (map fst (nodeMap g))).

(** The store after [replaceNodeAttributes] and after [dropNode]. *)
Definition replaced (k : string) (n : EventStormingNode) (g : Graph)
  : Graph :=
  mkGraph (map (fun kv => if fst kv =? k then (k, n) else kv) (nodeMap g))
          (edgeMap g).

Definition without (k : string) (g : Graph) : Graph :=
  mkGraph (filter (fun kv => negb (fst kv =? k)) (nodeMap g))
          (filter (fun kv => negb ((source (snd kv) =? k)
                                   || (target (snd kv) =? k)))
                  (edgeMap g)).

(** An id without the character the edge key is joined with. *)
Definition hyphenFree (s : string) : bool :=
  forallb (fun c => negb (JsString.code c =? 45)%nat)
          (list_ascii_of_string s).

(** Every node key of the store is free of hyphens. *)
Definition hyphenFreeKeys (g : Graph) : bool :=
  forallb hyphenFree (map fst (nodeMap g)).

(** The stores the engine can hold: the empty one of the constructor,
    and what a load or a mutation leaves, whatever its outcome. *)
Inductive EngineState : Graph -> Prop :=
| state_new : EngineState Graphology.empty
| state_load data g :
    EngineState g ->
    EngineState (snd (EventStormingAPI.loadGraph data g))
| state_mutate m g :
    EngineState g ->
    EngineState (snd (EventStormingAPI.mutate m g)).

(** The classification the command-execution paths are checked against. *)
Definition classify (g : Graph) (E : EventStormingNode) : PathType :=
  if hasOutgoing g then_policy E then POLICY_PATH
  else if EventStormingAPI.isErrorLabel (label E) then ERROR_PATH
  else HAPPY_PATH.

Definition lastNode (p : list EventStormingNode)
  : option EventStormingNode :=
  match rev p with
  | [] => None
  | n :: _ => Some n
  end.

(** The ids [p] form a walk: each is linked to the next by a stored
    edge. *)
Fixpoint walk (g : Graph) (p : list string) : Prop :=
  match p with
  | [] => True
  | x :: r =>
      match r with
      | [] => True
      | y :: _ => edgeStep g x y /\ walk g r
      end
  end.

(** A walk of at least one edge that ends where it starts. *)
Definition closedWalk (g : Graph) (c : list string) : Prop :=
  walk g c /\ exists x mid, c = x :: mid ++ [x].

(** The nodes the search of [detectCycles] is done with. *)
Definition finished (s : CycleSearch) (x : string) : Prop :=
  In x (searchVisited s) /\ ~ In x (searchRecStack s).

(** What the search of [detectCycles] keeps true. *)
Record CycleInvariant (g : Graph) (s : CycleSearch) : Prop := {
  stack_is_path :
    forall x, In x (searchRecStack s) <-> In x (searchPath s);
  stack_visited :
    forall x, In x (searchRecStack s) -> In x (searchVisited s);
  path_simple : NoDup (searchPath s);
  path_walk : walk g (searchPath s);
  cycles_closed : forall c, In c (searchCycles s) -> closedWalk g c;
  finished_closed :
    searchCycles s = [] ->
    forall x, finished s x ->
              (forall y, edgeStep g x y -> finished s y)
              /\ ~ clos_trans string (edgeStep g) x x
}.

(** Running a list of mutations, keeping the store. *)
Fixpoint mutateAll (ms : list Mutation) (g : Graph) : Graph :=
  match ms with
  | [] => g
  | m :: rest => mutateAll rest (snd (EventStormingAPI.mutate m g))
  end.

(** ** Node ids the model of the library covers

    The library keeps each node's neighbours in plain objects keyed by
    the neighbour's key.  Read from such an object, a key that names a
    property every object inherits answers as if an edge were stored
    there, and a store under [__proto__] replaces the object's
    prototype instead of adding an entry.  The lists of the model
    describe the indexes of an engine whose node ids avoid these
    names; the properties that depend on the indexes are stated for
    such engines. *)
Definition inheritedNames : list string :=
  ["__proto__"; "constructor"; "hasOwnProperty"; "isPrototypeOf";
   "propertyIsEnumerable"; "toLocaleString"; "toString"; "valueOf";
   "__defineGetter__"; "__defineSetter__"; "__lookupGetter__";
   "__lookupSetter__"].

Definition plainKey (k : string) : bool :=
  negb (Graphology.member k inheritedNames).

Definition plainKeys (g : Graph) : bool :=
  forallb plainKey (map fst (nodeMap g)).

(** A mutation that brings no inherited name in as a node id. *)
Definition plainMutation (m : Mutation) : bool :=
  match m with
  | AddNode node => plainKey (id node)
  | _ => true
  end.

(** The stores of an engine that has only seen plain node ids since
    its store was last cleared: the empty store, what a load of a
    snapshot with plain node ids leaves (a load clears the store
    first), and what a plain mutation leaves, whatever the outcome. *)
Inductive PlainEngine : Graph -> Prop :=
| plain_new : PlainEngine Graphology.empty
| plain_load data g :
    forallb (fun n => plainKey (id n)) (nodes data) = true ->
    PlainEngine (snd (EventStormingAPI.loadGraph data g))
| plain_mutate m g :
    PlainEngine g ->
    plainMutation m = true ->
    PlainEngine (snd (EventStormingAPI.mutate m g)).

(** Some stored edge labelled [l] leaves the node stored under the
    key [k]. *)
Definition leaves (g : Graph) (l : EdgeLabel) (k : string) : bool :=
  existsb (fun e => (source e =? k) && EdgeLabel_eqb (elabel e) l)
          (Graphology.edgeEntries g).

(** ** Example stores *)

Module Examples.

Definition node (i l : string) (t : NodeType) : EventStormingNode :=
  mkNode i l t [].

Definition edge (s : string) (l : EdgeLabel) (t : string)
  : EventStormingEdge := mkEdge s t l.

Definition retype (t : NodeType) : PartialNode :=
  mkPartial None None (Some t) [].

Definition rename (i : string) : PartialNode :=
  mkPartial (Some i) None None [].

(** Scenario 1, first half: an actor issuing a command. *)
Definition issuing : Graph :=
  mutateAll [AddNode (node "a1" "Customer" actor);
             AddNode (node "c1" "Place order" command);
             AddEdge (edge "a1" issues "c1")] Graphology.empty.

(** Scenario 1, second half: the command now generates an event. *)
Definition generating : Graph :=
  mutateAll [AddNode (node "e1" "Order placed" event);
             AddEdge (edge "c1" then_ "e1")] issuing.

(** Two commands and two events whose ids contain the separator the
    edge key is built with. *)
Definition hyphenated : Graph :=
  mutateAll [AddNode (node "a" "Pay" command);
             AddNode (node "then-b" "Paid" event);
             AddNode (node "a-then" "Ship" command);
             AddNode (node "b" "Shipped" event);
             AddEdge (edge "a" then_ "then-b")] Graphology.empty.

(** A loaded snapshot with an edge the table does not permit. *)
Definition mislabelled : Graph :=
  snd (EventStormingAPI.loadGraph
         (mkData [node "c1" "Place order" command;
                  node "e1" "Order placed" event]
                 [edge "c1" on "e1"]) Graphology.empty).

(** Scenario 5: n1 -> n2 -> n3 and n1 -> n4. *)
Definition chain : Graph :=
  mutateAll [AddNode (node "n1" "Place order" command);
             AddNode (node "n2" "Order placed" event);
             AddNode (node "n3" "Ship order" command);
             AddNode (node "n4" "Payment failed" event);
             AddEdge (edge "n1" then_ "n2");
             AddEdge (edge "n2" then_policy "n3");
             AddEdge (edge "n1" then_ "n4")] Graphology.empty.

(** A command, its event, and the policy that re-issues the command. *)
Definition loop : Graph :=
  mutateAll [AddNode (node "c1" "Retry payment" command);
             AddNode (node "e1" "Payment declined" event);
             AddEdge (edge "c1" then_ "e1");
             AddEdge (edge "e1" then_policy "c1")] Graphology.empty.

(** A command with two events; the first event is then given the id of
    the second. *)
Definition renamed : Graph :=
  mutateAll [AddNode (node "c1" "Place order" command);
             AddNode (node "e1" "Order failed" event);
             AddNode (node "e2" "Order placed" event);
             AddEdge (edge "c1" then_ "e1");
             AddEdge (edge "c1" then_ "e2");
             UpdateNode "e1" (rename "e2")] Graphology.empty.

(** A command whose id field is changed after it got its event. *)
Definition relabelled : Graph :=
  mutateAll [AddNode (node "c1" "Place order" command);
             AddNode (node "e1" "Order placed" event);
             AddEdge (edge "c1" then_ "e1");
             UpdateNode "c1" (rename "c9")] Graphology.empty.

End Examples.

Unset Implicit Arguments.

(** * Properties *)

Arguments EventStormingAPI.validateNode : simpl never.
Arguments EventStormingAPI.validateEdge : simpl never.
Arguments String.append : simpl never.

Ltac eff := unfold bind, ret, getStore, putStore, throw, tryCatch in *.

(** ** Basic facts about the store *)

Lemma NodeType_eqb_eq a b : NodeType_eqb a b = true <-> a = b.
Proof. destruct a, b; simpl; split; intros H; try reflexivity; discriminate. Qed.

Lemma EdgeLabel_eqb_eq a b : EdgeLabel_eqb a b = true <-> a = b.
Proof. destruct a, b; simpl; split; intros H; try reflexivity; discriminate. Qed.

Lemma member_In x s : Graphology.member x s = true <-> In x s.
Proof.
  unfold Graphology.member. rewrite existsb_exists. split.
  - intros [y [Hy E]]. apply String.eqb_eq in E. now subst.
  - intros H. exists x. split; auto. apply String.eqb_refl.
Qed.

Lemma hasNode_In g k :
  Graphology.hasNode g k = true <-> In k (map fst (nodeMap g)).
Proof.
  unfold Graphology.hasNode. rewrite existsb_exists, in_map_iff. split.
  - intros [kv [Hin E]]. apply String.eqb_eq in E. eauto.
  - intros [kv [E Hin]]. exists kv. split; auto. now apply String.eqb_eq.
Qed.

Lemma getNodeAttributes_In g k n :
  Graphology.getNodeAttributes g k = Some n -> In (k, n) (nodeMap g).
Proof.
  unfold Graphology.getNodeAttributes.
  destruct (find _ _) as [[k' n']|] eqn:F; simpl; try discriminate.
  intros E; inversion E; subst. apply find_some in F.
  destruct F as [Hin E']; simpl in E'.
  apply String.eqb_eq in E'. now subst.
Qed.

Lemma hasNode_getNodeAttributes g k :
  Graphology.hasNode g k = true <->
  exists n, Graphology.getNodeAttributes g k = Some n.
Proof.
  unfold Graphology.hasNode, Graphology.getNodeAttributes. split.
  - intros H. apply existsb_exists in H. destruct H as [kv [Hin E]].
    destruct (find (fun kv => fst kv =? k) (nodeMap g)) eqn:F.
    + eexists; reflexivity.
    + eapply find_none in F; eauto. congruence.
  - intros [n H].
    destruct (find _ _) as [kv|] eqn:F; simpl in H; try discriminate.
    apply find_some in F. apply existsb_exists. exists kv. exact F.
Qed.

Lemma hasNode_false_getNodeAttributes g k :
  Graphology.hasNode g k = false -> Graphology.getNodeAttributes g k = None.
Proof.
  intros H. destruct (Graphology.getNodeAttributes g k) eqn:E; auto.
  assert (Graphology.hasNode g k = true)
    by (apply hasNode_getNodeAttributes; eauto).
  congruence.
Qed.

Lemma getNode_attributes g k :
  GraphologyAdapter.getNode g k = Graphology.getNodeAttributes g k.
Proof.
  unfold GraphologyAdapter.getNode.
  destruct (Graphology.hasNode g k) eqn:H; simpl; auto.
  symmetry. now apply hasNode_false_getNodeAttributes.
Qed.

(** ** What each mutation of the API computes *)

Opaque EventStormingAPI.validateNode EventStormingAPI.validateEdge.

Lemma addNode_run node g :
  EventStormingAPI.addNode node g =
  if Graphology.hasNode g (id node)
  then (Returned (mkResult false [EventStormingAPI.nodeExists (id node)] []),
        g)
  else if isValid (EventStormingAPI.validateNode node)
  then (Returned (mkResult true []
                    (warnings (EventStormingAPI.validateNode node))),
        mkGraph (nodeMap g ++ [(id node, node)]) (edgeMap g))
  else (Returned (EventStormingAPI.validateNode node), g).
Proof.
  unfold EventStormingAPI.addNode, GraphologyAdapter.addNode,
    GraphologyAdapter.hasNode, Graphology.addNode. eff.
  destruct (Graphology.hasNode g (id node)) eqn:Hn; auto.
  generalize (EventStormingAPI.validateNode node). intros v.
  destruct (isValid v); simpl; auto.
  rewrite Hn. simpl. now rewrite Hn.
Qed.

Lemma updateNode_run k updates g :
  EventStormingAPI.updateNode k updates g =
  match Graphology.getNodeAttributes g k with
  | None => (Returned (mkResult false [EventStormingAPI.nodeNotFound k] []),
             g)
  | Some currentNode =>
      let validation :=
        EventStormingAPI.validateNode (spread currentNode updates) in
      if isValid validation
      then (Returned (mkResult true [] (warnings validation)),
            replaced k (spread currentNode updates) g)
      else (Returned validation, g)
  end.
Proof.
  unfold EventStormingAPI.updateNode, GraphologyAdapter.updateNode,
    GraphologyAdapter.hasNode, Graphology.replaceNodeAttributes. eff.
  rewrite getNode_attributes.
  destruct (Graphology.hasNode g k) eqn:Hn; simpl.
  - apply hasNode_getNodeAttributes in Hn as Hc. destruct Hc as [c Hc].
    rewrite Hc. cbv zeta.
    generalize (EventStormingAPI.validateNode (spread c updates)). intros v.
    destruct (isValid v); simpl; auto.
    rewrite Hn. simpl. rewrite Hc. simpl. now rewrite Hn.
  - now rewrite (hasNode_false_getNodeAttributes _ _ Hn).
Qed.

Lemma removeNode_run k g :
  EventStormingAPI.removeNode k g =
  if Graphology.hasNode g k
  then (Returned (mkResult true [] []), without k g)
  else (Returned (mkResult false [EventStormingAPI.nodeNotFound k] []), g).
Proof.
  unfold EventStormingAPI.removeNode, GraphologyAdapter.removeNode,
    GraphologyAdapter.hasNode, Graphology.dropNode. eff.
  destruct (Graphology.hasNode g k) eqn:Hn; simpl; auto.
  rewrite Hn. simpl. now rewrite Hn.
Qed.

Lemma addEdge_run edge g :
  EventStormingAPI.addEdge edge g =
  match Graphology.getNodeAttributes g (source edge),
        Graphology.getNodeAttributes g (target edge) with
  | None, _ =>
      (Returned (mkResult false
                   [EventStormingAPI.sourceNotFound (source edge)] []), g)
  | Some _, None =>
      (Returned (mkResult false
                   [EventStormingAPI.targetNotFound (target edge)] []), g)
  | Some sourceNode, Some targetNode =>
      let validation :=
        EventStormingAPI.validateEdge edge sourceNode targetNode in
      let key := GraphologyAdapter.edgeKey (source edge) (elabel edge)
                                           (target edge) in
      if negb (isValid validation) then (Returned validation, g)
      else if Graphology.hasEdge g key
      then (Returned (mkResult false
                        [EventStormingAPI.edgeExists
                           (source edge) (elabel edge) (target edge)] []),
            g)
      else if Graphology.hasDirectedEdge g (source edge) (target edge)
      then (Threw (ParallelEdge (source edge) (target edge)), g)
      else (Returned (mkResult true [] (warnings validation)),
            mkGraph (nodeMap g) (edgeMap g ++ [(key, edge)]))
  end.
Proof.
  unfold EventStormingAPI.addEdge, EventStormingAPI.getNode,
    GraphologyAdapter.addEdge, Graphology.addEdgeWithKey. eff.
  rewrite !getNode_attributes.
  destruct (Graphology.getNodeAttributes g (source edge)) as [s|] eqn:Hs; auto.
  destruct (Graphology.getNodeAttributes g (target edge)) as [t|] eqn:Ht; auto.
  cbv zeta. generalize (EventStormingAPI.validateEdge edge s t). intros v.
  destruct (negb (isValid v)); simpl; auto.
  assert (Hs' : Graphology.hasNode g (source edge) = true)
    by (apply hasNode_getNodeAttributes; eauto).
  assert (Ht' : Graphology.hasNode g (target edge) = true)
    by (apply hasNode_getNodeAttributes; eauto).
  destruct (Graphology.hasEdge g _) eqn:Hk; simpl; auto.
  rewrite Hs', Ht'. simpl. rewrite Hs', Ht', Hk. simpl.
  destruct (Graphology.hasDirectedEdge g _ _); auto.
Qed.

Lemma removeEdge_run s t l g :
  EventStormingAPI.removeEdge s t l g =
  let key := GraphologyAdapter.edgeKey s l t in
  if Graphology.hasEdge g key
  then (Returned (mkResult true [] []),
        mkGraph (nodeMap g)
                (filter (fun kv => negb (fst kv =? key)) (edgeMap g)))
  else (Returned (mkResult false [EventStormingAPI.edgeNotFound s l t] []),
        g).
Proof.
  unfold EventStormingAPI.removeEdge, GraphologyAdapter.removeEdge,
    Graphology.dropEdge. eff.
  destruct (Graphology.hasEdge g _) eqn:Hk; simpl; auto.
  now rewrite Hk.
Qed.

Transparent EventStormingAPI.validateNode EventStormingAPI.validateEdge.

(** ** Lookups after a mutation *)

Lemma find_append {A} (f : A -> bool) l l' :
  find f (l ++ l') =
  match find f l with Some x => Some x | None => find f l' end.
Proof. induction l as [|a l IH]; simpl; auto. destruct (f a); auto. Qed.

Lemma typeOf_addNode g k n x t :
  typeOf g x = Some t ->
  typeOf (mkGraph (nodeMap g ++ [(k, n)]) (edgeMap g)) x = Some t.
Proof.
  unfold typeOf, Graphology.getNodeAttributes. simpl. rewrite find_append.
  destruct (find _ (nodeMap g)); simpl; auto. discriminate.
Qed.

Lemma typeOf_replaced g k cur upd x :
  Graphology.getNodeAttributes g k = Some cur ->
  type upd = type cur ->
  typeOf (replaced k upd g) x = typeOf g x.
Proof.
  unfold typeOf, Graphology.getNodeAttributes, replaced. simpl.
  intros Hcur Ht. induction (nodeMap g) as [|[k0 n0] l IH]; simpl; auto.
  simpl in Hcur. destruct (k0 =? k) eqn:E0; simpl.
  - apply String.eqb_eq in E0. subst k0. simpl in Hcur.
    inversion Hcur; subst n0.
    destruct (k =? x) eqn:E1; simpl.
    + now rewrite Ht.
    + clear IH Hcur. induction l as [|[k1 n1] l IH]; simpl; auto.
      destruct (k1 =? k) eqn:E2; simpl.
      * apply String.eqb_eq in E2. subst k1. now rewrite E1.
      * destruct (k1 =? x); auto.
  - destruct (k0 =? x) eqn:E1; simpl; auto.
Qed.

Lemma getNodeAttributes_without g k x :
  x <> k ->
  Graphology.getNodeAttributes (without k g) x
  = Graphology.getNodeAttributes g x.
Proof.
  unfold Graphology.getNodeAttributes, without. simpl. intros Hx. f_equal.
  induction (nodeMap g) as [|[k0 n0] l IH]; simpl; auto.
  destruct (k0 =? k) eqn:E0; simpl.
  - apply String.eqb_eq in E0. subst k0.
    destruct (k =? x) eqn:E1; auto. apply String.eqb_eq in E1. congruence.
  - destruct (k0 =? x); auto.
Qed.

Lemma edgeEntries_without g k e :
  In e (Graphology.edgeEntries (without k g)) <->
  In e (Graphology.edgeEntries g) /\ source e <> k /\ target e <> k.
Proof.
  unfold Graphology.edgeEntries, without. simpl.
  rewrite !in_map_iff. split.
  - intros [[key e'] [E Hin]]. simpl in E. subst e'.
    apply filter_In in Hin. destruct Hin as [Hin Hn]. simpl in Hn.
    apply negb_true_iff, orb_false_iff in Hn. destruct Hn as [Hs Ht].
    apply String.eqb_neq in Hs, Ht. split; [|tauto].
    exists (key, e). auto.
  - intros [[[key e'] [E Hin]] [Hs Ht]]. simpl in E. subst e'.
    exists (key, e). split; auto. apply filter_In. split; auto. simpl.
    apply String.eqb_neq in Hs, Ht. now rewrite Hs, Ht.
Qed.

Lemma validateEdge_valid e s t :
  isValid (EventStormingAPI.validateEdge e s t) = true ->
  EventStormingAPI.isValidCombination (elabel e) (type s) (type t) = true.
Proof.
  unfold EventStormingAPI.validateEdge. simpl.
  destruct (EventStormingAPI.isValidCombination _ _ _); simpl; auto.
Qed.

Lemma edgeCompatible_ext g g' e :
  (forall x t, typeOf g x = Some t -> typeOf g' x = Some t) ->
  edgeCompatible g e = true -> edgeCompatible g' e = true.
Proof.
  intros H. unfold edgeCompatible.
  destruct (typeOf g (source e)) eqn:E1; try discriminate.
  destruct (typeOf g (target e)) eqn:E2; try discriminate.
  now rewrite (H _ _ E1), (H _ _ E2).
Qed.

Lemma edgeCompatible_same_nodes g g' e :
  nodeMap g = nodeMap g' -> edgeCompatible g e = edgeCompatible g' e.
Proof.
  intros H. unfold edgeCompatible, typeOf, Graphology.getNodeAttributes.
  now rewrite H.
Qed.

(** ** C9: a failed mutation changes nothing *)

(** C9.  Whenever one of the five mutations returns a result with
    [isValid = false], the store (its node map and its edge map) is the
    one the call started from. *)
Theorem failed_mutation_leaves_store m g r g' :
  EventStormingAPI.mutate m g = (Returned r, g') ->
  isValid r = false ->
  g' = g.
Proof.
  intros H Hr. destruct m; simpl in H.
  - rewrite addNode_run in H.
    destruct (Graphology.hasNode g (id node)); [now inversion H|].
    destruct (isValid (EventStormingAPI.validateNode node)) eqn:V;
      inversion H; subst; auto. discriminate.
  - rewrite updateNode_run in H.
    destruct (Graphology.getNodeAttributes g nodeId); [|now inversion H].
    cbv zeta in H.
    destruct (isValid (EventStormingAPI.validateNode _)) eqn:V;
      inversion H; subst; auto. discriminate.
  - rewrite removeNode_run in H.
    destruct (Graphology.hasNode g nodeId); inversion H; subst; auto.
    discriminate.
  - rewrite addEdge_run in H.
    destruct (Graphology.getNodeAttributes g (source edge));
      [|now inversion H].
    destruct (Graphology.getNodeAttributes g (target edge));
      [|now inversion H].
    cbv zeta in H.
    destruct (negb (isValid _)); [now inversion H|].
    destruct (Graphology.hasEdge g _); [now inversion H|].
    destruct (Graphology.hasDirectedEdge g _ _); inversion H; subst.
    discriminate.
  - rewrite removeEdge_run in H. cbv zeta in H.
    destruct (Graphology.hasEdge g _); inversion H; subst; auto.
    discriminate.
Qed.

Lemma failed_mutation_leaves_store_witness :
  snd (EventStormingAPI.mutate (AddEdge (Examples.edge "a1" on "c1"))
                               Examples.issuing)
  = Examples.issuing.
Proof.
  apply (failed_mutation_leaves_store
           (AddEdge (Examples.edge "a1" on "c1")) Examples.issuing
           (EventStormingAPI.validateEdge
              (Examples.edge "a1" on "c1")
              (Examples.node "a1" "Customer" actor)
              (Examples.node "c1" "Place order" command)) _).
  - reflexivity.
  - reflexivity.
Defined.

(** ** C1: edges stay within the compatibility table *)

(** C1, as the code has it.  From a store in which every edge joins a
    permitted pair of node types, a mutation that returns
    [isValid = true] leads to such a store again, provided it is not an
    [updateNode] that changes the [type] of the node. *)
Theorem mutation_preserves_compatibility g m r g' :
  compatible g = true ->
  EventStormingAPI.mutate m g = (Returned r, g') ->
  isValid r = true ->
  keepsType g m = true ->
  compatible g' = true.
Proof.
  intros Hc H Hr Hk. unfold compatible in *. rewrite forallb_forall in *.
  destruct m; simpl in H.
  - rewrite addNode_run in H.
    destruct (Graphology.hasNode g (id node)); [inversion H; now subst|].
    destruct (isValid (EventStormingAPI.validateNode node));
      inversion H; subst; auto.
    intros e He. apply edgeCompatible_ext with (g := g); auto.
    intros x t. apply typeOf_addNode.
  - rewrite updateNode_run in H. simpl in Hk.
    destruct (Graphology.getNodeAttributes g nodeId) as [cur|] eqn:Hcur;
      [|inversion H; now subst].
    cbv zeta in H.
    destruct (isValid (EventStormingAPI.validateNode _));
      inversion H; subst; auto.
    apply NodeType_eqb_eq in Hk.
    intros e He. apply edgeCompatible_ext with (g := g); auto.
    intros x t.
    now rewrite (typeOf_replaced g nodeId cur (spread cur updates) x Hcur Hk).
  - rewrite removeNode_run in H.
    destruct (Graphology.hasNode g nodeId); inversion H; subst; auto.
    intros e He. apply edgeEntries_without in He.
    destruct He as [He [Hs Ht]]. specialize (Hc e He).
    unfold edgeCompatible, typeOf in *.
    now rewrite !getNodeAttributes_without.
  - rewrite addEdge_run in H.
    destruct (Graphology.getNodeAttributes g (source edge)) as [s|] eqn:Hs;
      [|inversion H; now subst].
    destruct (Graphology.getNodeAttributes g (target edge)) as [t|] eqn:Ht;
      [|inversion H; now subst].
    cbv zeta in H.
    destruct (isValid (EventStormingAPI.validateEdge edge s t)) eqn:V;
      simpl in H; [|inversion H; subst; congruence].
    destruct (Graphology.hasEdge g _); [inversion H; now subst|].
    destruct (Graphology.hasDirectedEdge g _ _); inversion H; subst.
    intros e He. unfold Graphology.edgeEntries in He. simpl in He.
    rewrite map_app in He. apply in_app_or in He.
    destruct He as [He|[He|[]]].
    + apply (Hc e He).
    + subst e. rewrite <- (edgeCompatible_same_nodes g); [|reflexivity].
      cbn [snd]. unfold edgeCompatible, typeOf. rewrite Hs, Ht. simpl.
      now apply validateEdge_valid.
  - rewrite removeEdge_run in H. cbv zeta in H.
    destruct (Graphology.hasEdge g _); inversion H; subst; auto.
    intros e He. apply (Hc e). unfold Graphology.edgeEntries in *.
    simpl in He. apply in_map_iff in He. destruct He as [kv [E Hin]].
    apply filter_In in Hin. apply in_map_iff. exists kv. tauto.
Qed.

Lemma mutation_preserves_compatibility_witness :
  compatible (snd (EventStormingAPI.mutate
                     (AddEdge (Examples.edge "c1" then_ "e1"))
                     (snd (EventStormingAPI.mutate
                             (AddNode (Examples.node "e1" "Order placed"
                                                     event))
                             Examples.issuing)))) = true.
Proof.
  apply (mutation_preserves_compatibility
           (snd (EventStormingAPI.mutate
                   (AddNode (Examples.node "e1" "Order placed" event))
                   Examples.issuing))
           (AddEdge (Examples.edge "c1" then_ "e1"))
           (mkResult true [] []) _).
  - reflexivity.
  - reflexivity.
  - reflexivity.
  - reflexivity.
Defined.

(** C1, as specified, fails: changing the type of the actor
    of [Examples.issuing] to [event] succeeds, and leaves an [issues]
    edge from an event to a command. *)
Lemma retyping_breaks_compatibility :
  compatible Examples.issuing = true
  /\ exists r g',
       EventStormingAPI.mutate (UpdateNode "a1" (Examples.retype event))
                               Examples.issuing = (Returned r, g')
       /\ isValid r = true
       /\ compatible g' = false.
Proof.
  split; [reflexivity|]. eexists. eexists.
  split; [vm_compute; reflexivity|]. split; reflexivity.
Qed.

(** ** Removing a node *)

Lemma hasNode_without g k : Graphology.hasNode (without k g) k = false.
Proof.
  unfold Graphology.hasNode, without. simpl.
  induction (nodeMap g) as [|[k0 n0] l IH]; simpl; auto.
  destruct (k0 =? k) eqn:E; simpl; auto. now rewrite E.
Qed.

(** ** C3: when [addEdge] reports an existing edge *)

(** What [addEdge] does once both endpoints exist and the pair of types
    is permitted: it reports an existing edge exactly when some stored
    edge has the same key string; else it raises when another edge
    already links the two nodes; else it appends the edge. *)
Lemma addEdge_permitted edge g s t :
  Graphology.getNodeAttributes g (source edge) = Some s ->
  Graphology.getNodeAttributes g (target edge) = Some t ->
  EventStormingAPI.isValidCombination (elabel edge) (type s) (type t)
  = true ->
  let key := GraphologyAdapter.edgeKey (source edge) (elabel edge)
                                       (target edge) in
  EventStormingAPI.addEdge edge g =
  if Graphology.hasEdge g key
  then (Returned (mkResult false
                    [EventStormingAPI.edgeExists
                       (source edge) (elabel edge) (target edge)] []), g)
  else if Graphology.hasDirectedEdge g (source edge) (target edge)
  then (Threw (ParallelEdge (source edge) (target edge)), g)
  else (Returned (mkResult true [] []),
        mkGraph (nodeMap g) (edgeMap g ++ [(key, edge)])).
Proof.
  intros Hs Ht Hv key. rewrite addEdge_run, Hs, Ht. cbv zeta.
  unfold EventStormingAPI.validateEdge. rewrite Hv. reflexivity.
Qed.

(** C3 fails on the code.  In [Examples.hyphenated] the only edge is
    [a --then--> then-b].  The edge [a-then --then--> b] joins two
    existing nodes of permitted types and is not in the store, yet
    [addEdge] reports it as existing and adds nothing: both triples
    give the key [a-then-then-b]. *)
Theorem addEdge_blocked_by_another_triple :
  let e := Examples.edge "a-then" then_ "b" in
  typeOf Examples.hyphenated (source e) = Some command
  /\ typeOf Examples.hyphenated (target e) = Some event
  /\ EventStormingAPI.isValidCombination (elabel e) command event = true
  /\ Graphology.edgeEntries Examples.hyphenated
     = [Examples.edge "a" then_ "then-b"]
  /\ EventStormingAPI.addEdge e Examples.hyphenated
     = (Returned (mkResult false
                    ["Edge already exists: a-then --then--> b"] []),
        Examples.hyphenated).
Proof. repeat split. Qed.

(** A second way in which distinct triples block each other: the store
    is not a multigraph, so an edge between two nodes that are already
    linked in that direction under another label makes [addEdge]
    raise. *)
Lemma addEdge_parallel_edge_raises :
  let e := Examples.edge "c1" then_ "e1" in
  Graphology.edgeEntries Examples.mislabelled = [Examples.edge "c1" on "e1"]
  /\ EventStormingAPI.addEdge e Examples.mislabelled
     = (Threw (ParallelEdge "c1" "e1"), Examples.mislabelled).
Proof. repeat split. Qed.

(** ** C4: nodes that [addNode] accepts *)

Lemma isEmpty_true s : JsString.isEmpty s = true <-> s = "".
Proof. destruct s; simpl; split; intros H; auto; discriminate. Qed.

Lemma trim_nonblank s :
  JsString.trim s <> "" ->
  JsString.isEmpty s || JsString.isEmpty (JsString.trim s) = false.
Proof.
  intros H. apply orb_false_iff. split.
  - destruct s; auto. exfalso. apply H. reflexivity.
  - destruct (JsString.isEmpty (JsString.trim s)) eqn:E; auto.
    apply isEmpty_true in E. contradiction.
Qed.

Lemma validateNode_accepts node :
  JsString.trim (id node) <> "" ->
  JsString.trim (label node) <> "" ->
  type node <> boundary ->
  EventStormingAPI.validateNode node =
  mkResult true []
    (if JsString.testKebab (id node) then []
     else [EventStormingAPI.idWarning (id node)]).
Proof.
  intros Hi Hl Ht. unfold EventStormingAPI.validateNode.
  rewrite (trim_nonblank _ Hi), (trim_nonblank _ Hl).
  assert (E : JsString.isEmpty (id node) = false).
  { apply trim_nonblank in Hi. now apply orb_false_iff in Hi. }
  rewrite E.
  assert (T : existsb (NodeType_eqb (type node)) EventStormingAPI.validTypes
              = true).
  { destruct (type node); try reflexivity. contradiction. }
  rewrite T. simpl. destruct (JsString.testKebab (id node)); reflexivity.
Qed.

(** C4, as the code has it.  A node whose id and label each contain a
    character that is not white space, and whose type is one of actor,
    command, aggregate, event, viewmodel, preconditions, guards and
    branchinglogic, is added to a store that has no node under that id:
    the result is valid with no errors, and carries one warning exactly
    when the id does not match [[a-z0-9_-]+]. *)
Theorem addNode_accepts g node :
  JsString.trim (id node) <> "" ->
  JsString.trim (label node) <> "" ->
  type node <> boundary ->
  Graphology.hasNode g (id node) = false ->
  EventStormingAPI.addNode node g =
  (Returned (mkResult true []
               (if JsString.testKebab (id node) then []
                else [EventStormingAPI.idWarning (id node)])),
   mkGraph (nodeMap g ++ [(id node, node)]) (edgeMap g)).
Proof.
  intros Hi Hl Ht Hn. rewrite addNode_run, Hn.
  now rewrite (validateNode_accepts node Hi Hl Ht).
Qed.

Lemma addNode_accepts_witness :
  EventStormingAPI.addNode (Examples.node "Order 1" "Order" aggregate)
                           Examples.issuing
  = (Returned (mkResult true []
                 [EventStormingAPI.idWarning "Order 1"]),
     mkGraph (nodeMap Examples.issuing
              ++ [("Order 1", Examples.node "Order 1" "Order" aggregate)])
             (edgeMap Examples.issuing)).
Proof.
  apply (addNode_accepts Examples.issuing
           (Examples.node "Order 1" "Order" aggregate)).
  - discriminate.
  - discriminate.
  - discriminate.
  - reflexivity.
Defined.

(** C4, as specified, fails twice: an id made of a space is
    not empty and is refused, and a node of type boundary is refused. *)
Lemma addNode_refuses_blank_id_and_boundary :
  (let n := Examples.node " " "Customer" actor in
   JsString.isEmpty (id n) = false
   /\ JsString.isEmpty (label n) = false
   /\ Graphology.hasNode Graphology.empty (id n) = false
   /\ EventStormingAPI.addNode n Graphology.empty
      = (Returned (mkResult false ["Node ID cannot be empty"]
                            [EventStormingAPI.idWarning " "]),
         Graphology.empty))
  /\
  (let n := Examples.node "b1" "Checkout" boundary in
   JsString.isEmpty (id n) = false
   /\ JsString.isEmpty (label n) = false
   /\ Graphology.hasNode Graphology.empty (id n) = false
   /\ EventStormingAPI.addNode n Graphology.empty
      = (Returned (mkResult false [EventStormingAPI.typeError boundary] []),
         Graphology.empty)).
Proof. repeat split. Qed.

(** ** C6: [validateGraph] *)

Lemma flat_map_singletons {A B} (p : A -> bool) (f : A -> B) l :
  flat_map (fun x => if negb (p x) then [f x] else []) l
  = map f (filter (fun x => negb (p x)) l).
Proof.
  induction l as [|a l IH]; simpl; auto.
  destruct (p a); simpl; now rewrite IH.
Qed.

Lemma hasOutgoing_spec g l n :
  hasOutgoing g l n = true <->
  exists e, In e (Graphology.edgeEntries g)
            /\ source e = id n /\ elabel e = l.
Proof.
  unfold hasOutgoing. rewrite existsb_exists. split.
  - intros [e [He H]]. apply andb_prop in H. destruct H as [H1 H2].
    apply String.eqb_eq in H1. apply EdgeLabel_eqb_eq in H2. eauto.
  - intros [e [He [H1 H2]]]. exists e. split; auto.
    apply andb_true_intro. split.
    + now apply String.eqb_eq.
    + now apply EdgeLabel_eqb_eq.
Qed.

Lemma filter_all {A} (l : list A) : filter (fun _ => true) l = l.
Proof. induction l; simpl; congruence. Qed.

Lemma validateGraph_errors g :
  errors (EventStormingAPI.validateGraph g)
  = map EventStormingAPI.commandError
        (filter (fun c => negb (hasOutgoing g then_ c))
                (EventStormingAPI.getNodesByType g command)).
Proof.
  unfold EventStormingAPI.validateGraph. cbn [errors].
  unfold GraphologyAdapter.filterEdges. rewrite filter_all.
  apply flat_map_singletons.
Qed.

Lemma leaves_spec g l k :
  leaves g l k = true <->
  exists e, In e (Graphology.edgeEntries g)
            /\ source e = k /\ elabel e = l.
Proof.
  unfold leaves. rewrite existsb_exists. split.
  - intros [e [He H]]. apply andb_prop in H. destruct H as [H1 H2].
    apply String.eqb_eq in H1. apply EdgeLabel_eqb_eq in H2. eauto.
  - intros [e [He [H1 H2]]]. exists e. split; auto.
    apply andb_true_intro. split.
    + now apply String.eqb_eq.
    + now apply EdgeLabel_eqb_eq.
Qed.

(** Where every node is stored under its id, the errors are about the
    commands no then edge leaves. *)
Lemma validateGraph_errors_by_key g :
  idsAreKeys g = true ->
  errors (EventStormingAPI.validateGraph g)
  = map (fun kv => EventStormingAPI.commandError (snd kv))
        (filter (fun kv => NodeType_eqb (type (snd kv)) command
                           && negb (leaves g then_ (fst kv)))
                (nodeMap g)).
Proof.
  intros I. rewrite validateGraph_errors.
  unfold EventStormingAPI.getNodesByType, GraphologyAdapter.getNodesByType,
    Graphology.nodeEntries.
  unfold idsAreKeys in I. rewrite forallb_forall in I.
  induction (nodeMap g) as [|[k n] l IH]; simpl; auto.
  assert (E : k = id n).
  { specialize (I (k, n) (or_introl eq_refl)). simpl in I.
    now apply String.eqb_eq in I. }
  assert (IH' := IH (fun kv H => I kv (or_intror H))). clear IH.
  destruct (NodeType_eqb (type n) command); simpl; auto.
  change (hasOutgoing g then_ n) with (leaves g then_ (id n)).
  rewrite <- E. destruct (leaves g then_ k); simpl; auto.
  now rewrite IH'.
Qed.

(** C6, as the code has it.  In a store in which every node is stored
    under its own id, [validateGraph] reports one error, "Command
    '...' must generate at least one event", per command node that no
    then edge leaves, and nothing else as an error; it is valid
    exactly when it reports no error, which is exactly when a then
    edge leaves every command node.  In scenario 1 the error is
    reported for the command that only has an issuer, and the result
    is valid with no errors (and no warnings) once the command
    generates an event. *)
Theorem validateGraph_commands_need_events :
  (forall g,
     idsAreKeys g = true ->
     errors (EventStormingAPI.validateGraph g)
     = map (fun kv => EventStormingAPI.commandError (snd kv))
           (filter (fun kv => NodeType_eqb (type (snd kv)) command
                              && negb (leaves g then_ (fst kv)))
                   (nodeMap g))
     /\ (isValid (EventStormingAPI.validateGraph g) = true <->
         errors (EventStormingAPI.validateGraph g) = [])
     /\ (isValid (EventStormingAPI.validateGraph g) = true <->
         forall k c, In (k, c) (nodeMap g) ->
                     type c = command ->
                     exists e, In e (Graphology.edgeEntries g)
                               /\ source e = k /\ elabel e = then_))
  /\ EventStormingAPI.validateGraph Examples.issuing
     = mkResult false
         ["Command 'Place order' must generate at least one event"] []
  /\ EventStormingAPI.validateGraph Examples.generating
     = mkResult true [] [].
Proof.
  split; [|split; reflexivity].
  intros g I. split; [now apply validateGraph_errors_by_key|].
  assert (V : isValid (EventStormingAPI.validateGraph g) = true <->
              errors (EventStormingAPI.validateGraph g) = []).
  { unfold EventStormingAPI.validateGraph. cbn [isValid errors].
    rewrite Nat.eqb_eq. apply length_zero_iff_nil. }
  split; [exact V|]. rewrite V, (validateGraph_errors_by_key g I). split.
  - intros H k c Hc Ht. apply leaves_spec.
    destruct (leaves g then_ k) eqn:E; auto. exfalso.
    apply map_eq_nil in H.
    assert (In (k, c)
               (filter (fun kv => NodeType_eqb (type (snd kv)) command
                                  && negb (leaves g then_ (fst kv)))
                       (nodeMap g))).
    { apply filter_In. split; auto. simpl. rewrite E.
      apply andb_true_intro. split; auto. now apply NodeType_eqb_eq. }
    rewrite H in H0. destruct H0.
  - intros H.
    destruct (filter _ _) as [|[k c] l] eqn:F; [reflexivity|]. exfalso.
    assert (Hc : In (k, c) ((k, c) :: l)) by (left; reflexivity).
    rewrite <- F in Hc. apply filter_In in Hc. destruct Hc as [Hc Hn].
    simpl in Hn. apply andb_prop in Hn. destruct Hn as [Ht Hn].
    apply NodeType_eqb_eq in Ht.
    specialize (H k c Hc Ht). apply leaves_spec in H.
    rewrite H in Hn. discriminate.
Qed.

Lemma validateGraph_commands_need_events_witness :
  isValid (EventStormingAPI.validateGraph Examples.generating) = true <->
  forall k c, In (k, c) (nodeMap Examples.generating) ->
              type c = command ->
              exists e, In e (Graphology.edgeEntries Examples.generating)
                        /\ source e = k /\ elabel e = then_.
Proof.
  apply (proj1 validateGraph_commands_need_events Examples.generating).
  vm_compute. reflexivity.
Defined.

(** C6, as specified, fails once [updateNode] has changed the id field
    of a command.  In [Examples.relabelled] the command is stored
    under [c1] and the then edge from [c1] to [e1] leaves it, so a
    then edge leaves every command node; [validateGraph] looks for an
    edge whose source is the id field, [c9], finds none, and reports
    the error. *)
Lemma validateGraph_misses_edges_of_renamed_command :
  (forall k c, In (k, c) (nodeMap Examples.relabelled) ->
               type c = command ->
               exists e, In e (Graphology.edgeEntries Examples.relabelled)
                         /\ source e = k /\ elabel e = then_)
  /\ EventStormingAPI.validateGraph Examples.relabelled
     = mkResult false
         ["Command 'Place order' must generate at least one event"]
         ["Orphaned nodes found: Place order"].
Proof.
  split; [|vm_compute; reflexivity].
  intros k c H T. vm_compute in H. destruct H as [H|[H|[]]].
  - inversion H; subst. exists (Examples.edge "c1" then_ "e1").
    vm_compute. tauto.
  - inversion H; subst. discriminate.
Qed.

(** ** What the store maintains *)

Lemma member_app x l r :
  Graphology.member x (l ++ r)
  = Graphology.member x l || Graphology.member x r.
Proof. unfold Graphology.member. apply existsb_app. Qed.

Lemma member_false x s : Graphology.member x s = false <-> ~ In x s.
Proof.
  rewrite <- member_In. destruct (Graphology.member x s).
  - split; [discriminate|]. intros H. exfalso. now apply H.
  - split; [discriminate|reflexivity].
Qed.

Lemma distinct_NoDup l : distinct l = true <-> NoDup l.
Proof.
  induction l as [|a l IH]; simpl.
  - split; [constructor|reflexivity].
  - rewrite andb_true_iff, negb_true_iff, member_false, IH. split.
    + intros [H1 H2]. now constructor.
    + intros H. inversion H; subst. tauto.
Qed.

Lemma distinct_snoc l x :
  distinct (l ++ [x]) = distinct l && negb (Graphology.member x l).
Proof.
  induction l as [|a l IH]; simpl; auto.
  rewrite IH, member_app. simpl. rewrite orb_false_r.
  rewrite (String.eqb_sym a x).
  destruct (Graphology.member a l), (distinct l), (Graphology.member x l),
    (x =? a); reflexivity.
Qed.

Lemma distinct_filter {A} (q : string * A -> bool) l :
  distinct (map fst l) = true -> distinct (map fst (filter q l)) = true.
Proof.
  induction l as [|a l IH]; simpl; auto.
  rewrite andb_true_iff, negb_true_iff. intros [H1 H2].
  destruct (q a); simpl; auto. rewrite IH by assumption.
  rewrite andb_true_r, negb_true_iff. apply member_false.
  apply member_false in H1. intros Hin. apply H1.
  apply in_map_iff in Hin. destruct Hin as [kv [E Hin]].
  apply filter_In in Hin. apply in_map_iff. exists kv. tauto.
Qed.

Lemma parallelTo_sym e e' : parallelTo e e' = parallelTo e' e.
Proof.
  unfold parallelTo.
  now rewrite (String.eqb_sym (source e')), (String.eqb_sym (target e')).
Qed.

Lemma noParallel_snoc l e :
  noParallel (l ++ [e])
  = noParallel l && negb (existsb (parallelTo e) l).
Proof.
  induction l as [|a l IH]; simpl; auto.
  rewrite IH, existsb_app. simpl. rewrite orb_false_r.
  fold (parallelTo a). fold (parallelTo a e). rewrite (parallelTo_sym a e).
  destruct (existsb (parallelTo a) l), (noParallel l),
    (existsb (parallelTo e) l), (parallelTo e a); reflexivity.
Qed.

Lemma noParallel_filter (q : string * EventStormingEdge -> bool) l :
  noParallel (map snd l) = true ->
  noParallel (map snd (filter q l)) = true.
Proof.
  induction l as [|a l IH]; simpl; auto.
  rewrite andb_true_iff, negb_true_iff. intros [H1 H2].
  destruct (q a); simpl; auto. rewrite IH by assumption.
  rewrite andb_true_r, negb_true_iff.
  destruct (existsb _ (map snd (filter q l))) eqn:E; auto.
  apply existsb_exists in E. destruct E as [x [Hin Hx]].
  assert (existsb (parallelTo (snd a)) (map snd l) = true); [|congruence].
  apply existsb_exists. exists x. split; auto.
  apply in_map_iff in Hin. destruct Hin as [kv [E Hin]].
  apply filter_In in Hin. apply in_map_iff. exists kv. tauto.
Qed.

Lemma wellFormed_parts g :
  wellFormed g = true <->
  distinct (map fst (nodeMap g)) = true
  /\ forallb (fun e => Graphology.hasNode g (source e)
                       && Graphology.hasNode g (target e))
             (Graphology.edgeEntries g) = true
  /\ forallb (fun kv => fst kv =? GraphologyAdapter.edgeKey
                                    (source (snd kv)) (elabel (snd kv))
                                    (target (snd kv)))
             (edgeMap g) = true
  /\ distinct (map fst (edgeMap g)) = true
  /\ noParallel (Graphology.edgeEntries g) = true.
Proof. unfold wellFormed. rewrite !andb_true_iff. tauto. Qed.

Lemma wellFormed_empty : wellFormed Graphology.empty = true.
Proof. reflexivity. Qed.

Lemma hasNode_snoc g k n x :
  Graphology.hasNode (mkGraph (nodeMap g ++ [(k, n)]) (edgeMap g)) x
  = Graphology.hasNode g x || (k =? x).
Proof.
  unfold Graphology.hasNode. simpl. rewrite existsb_app. simpl.
  now rewrite orb_false_r.
Qed.

Lemma hasNode_same_keys g g' x :
  map fst (nodeMap g') = map fst (nodeMap g) ->
  Graphology.hasNode g' x = Graphology.hasNode g x.
Proof.
  intros H. unfold Graphology.hasNode.
  assert (E : forall l : list (string * EventStormingNode),
             existsb (fun kv => fst kv =? x) l
             = existsb (fun k => k =? x) (map fst l)).
  { induction l; simpl; congruence. }
  now rewrite !E, H.
Qed.

Lemma replaced_keys k n g :
  map fst (nodeMap (replaced k n g)) = map fst (nodeMap g).
Proof.
  unfold replaced. simpl. rewrite map_map. apply map_ext_in.
  intros [k0 n0] _. simpl. destruct (k0 =? k) eqn:E; auto.
  apply String.eqb_eq in E. now subst.
Qed.

Lemma hasNode_without_other g k x :
  x <> k -> Graphology.hasNode (without k g) x = Graphology.hasNode g x.
Proof.
  intros Hx. unfold Graphology.hasNode, without. simpl.
  induction (nodeMap g) as [|[k0 n0] l IH]; simpl; auto.
  destruct (k0 =? k) eqn:E; simpl.
  - apply String.eqb_eq in E. subst k0.
    destruct (k =? x) eqn:E'; auto. apply String.eqb_eq in E'. congruence.
  - now rewrite IH.
Qed.

Lemma wellFormed_addNode g k n :
  wellFormed g = true -> Graphology.hasNode g k = false ->
  wellFormed (mkGraph (nodeMap g ++ [(k, n)]) (edgeMap g)) = true.
Proof.
  rewrite !wellFormed_parts. intros [H1 [H2 [H3 [H4 H5]]]] Hk.
  unfold Graphology.edgeEntries in *. simpl.
  repeat split; auto.
  - rewrite map_app. simpl. rewrite distinct_snoc, H1. simpl.
    assert (E : Graphology.member k (map fst (nodeMap g)) = false);
      [|now rewrite E].
    apply member_false. rewrite <- hasNode_In. congruence.
  - rewrite forallb_forall in *. intros e He. specialize (H2 e He).
    apply andb_prop in H2. destruct H2 as [Hs Ht].
    now rewrite !hasNode_snoc, Hs, Ht.
Qed.

Lemma wellFormed_replaced g k n :
  wellFormed g = true -> wellFormed (replaced k n g) = true.
Proof.
  rewrite !wellFormed_parts. intros [H1 [H2 [H3 [H4 H5]]]].
  repeat split; auto.
  - now rewrite replaced_keys.
  - rewrite forallb_forall in *. intros e He.
    rewrite (hasNode_same_keys g _ (source e) (replaced_keys k n g)),
      (hasNode_same_keys g _ (target e) (replaced_keys k n g)).
    apply (H2 e He).
Qed.

Lemma wellFormed_without g k :
  wellFormed g = true -> wellFormed (without k g) = true.
Proof.
  rewrite !wellFormed_parts. intros [H1 [H2 [H3 [H4 H5]]]].
  repeat split.
  - now apply distinct_filter.
  - rewrite forallb_forall in *. intros e He.
    apply edgeEntries_without in He. destruct He as [He [Hs Ht]].
    rewrite !hasNode_without_other by assumption. apply (H2 e He).
  - rewrite forallb_forall in *. intros kv Hkv. apply H3.
    unfold without in Hkv. simpl in Hkv. apply filter_In in Hkv. tauto.
  - now apply distinct_filter.
  - now apply noParallel_filter.
Qed.

Lemma wellFormed_addEdge g e :
  wellFormed g = true ->
  Graphology.hasNode g (source e) = true ->
  Graphology.hasNode g (target e) = true ->
  Graphology.hasEdge g (GraphologyAdapter.edgeKey (source e) (elabel e)
                                                  (target e)) = false ->
  Graphology.hasDirectedEdge g (source e) (target e) = false ->
  wellFormed (mkGraph (nodeMap g)
                (edgeMap g ++ [(GraphologyAdapter.edgeKey
                                  (source e) (elabel e) (target e), e)]))
  = true.
Proof.
  rewrite !wellFormed_parts. intros [H1 [H2 [H3 [H4 H5]]]] Hs Ht Hk Hp.
  unfold Graphology.edgeEntries in *. simpl.
  repeat split; auto.
  - rewrite map_app, forallb_app. simpl.
    change (Graphology.hasNode {| nodeMap := nodeMap g; edgeMap := _ |})
      with (Graphology.hasNode g).
    rewrite Hs, Ht. simpl. rewrite andb_true_r. exact H2.
  - rewrite forallb_app, H3. simpl. now rewrite String.eqb_refl.
  - rewrite map_app. simpl. rewrite distinct_snoc, H4. simpl.
    apply negb_true_iff.
    apply member_false. intros Hin.
    assert (Graphology.hasEdge g (GraphologyAdapter.edgeKey
              (source e) (elabel e) (target e)) = true); [|congruence].
    unfold Graphology.hasEdge. apply existsb_exists.
    apply in_map_iff in Hin. destruct Hin as [kv [E Hin]].
    exists kv. split; auto. now apply String.eqb_eq.
  - rewrite map_app. simpl. rewrite noParallel_snoc, H5. simpl.
    apply negb_true_iff.
    rewrite <- Hp. unfold Graphology.hasDirectedEdge.
    clear. induction (edgeMap g) as [|a l IH]; simpl; auto.
    rewrite IH. reflexivity.
Qed.

Lemma wellFormed_dropEdge g key :
  wellFormed g = true ->
  wellFormed (mkGraph (nodeMap g)
                (filter (fun kv => negb (fst kv =? key)) (edgeMap g)))
  = true.
Proof.
  rewrite !wellFormed_parts. intros [H1 [H2 [H3 [H4 H5]]]].
  unfold Graphology.edgeEntries in *. simpl.
  repeat split; auto.
  - apply forallb_forall. intros e He. rewrite forallb_forall in H2.
    apply (H2 e). apply in_map_iff in He. destruct He as [kv [E Hin]].
    apply filter_In in Hin. apply in_map_iff. exists kv. tauto.
  - rewrite forallb_forall in *. intros kv Hkv. apply H3.
    apply filter_In in Hkv. tauto.
  - now apply distinct_filter.
  - now apply noParallel_filter.
Qed.

(** Every mutation of the API, whatever its outcome, leads from a
    well-formed store to a well-formed store. *)
Lemma mutate_wellFormed m g :
  wellFormed g = true ->
  wellFormed (snd (EventStormingAPI.mutate m g)) = true.
Proof.
  intros H. destruct m; simpl.
  - rewrite addNode_run.
    destruct (Graphology.hasNode g (id node)) eqn:Hn; auto.
    destruct (isValid _); auto. now apply wellFormed_addNode.
  - rewrite updateNode_run.
    destruct (Graphology.getNodeAttributes g nodeId); auto. cbv zeta.
    destruct (isValid _); auto. now apply wellFormed_replaced.
  - rewrite removeNode_run. destruct (Graphology.hasNode g nodeId); auto.
    now apply wellFormed_without.
  - rewrite addEdge_run.
    destruct (Graphology.getNodeAttributes g (source edge)) eqn:Hs; auto.
    destruct (Graphology.getNodeAttributes g (target edge)) eqn:Ht; auto.
    cbv zeta. destruct (negb _); auto.
    destruct (Graphology.hasEdge g _) eqn:Hk; auto.
    destruct (Graphology.hasDirectedEdge g _ _) eqn:Hp; auto.
    apply wellFormed_addEdge; auto; apply hasNode_getNodeAttributes; eauto.
  - rewrite removeEdge_run. cbv zeta.
    destruct (Graphology.hasEdge g _); auto. now apply wellFormed_dropEdge.
Qed.

Lemma mutateAll_wellFormed ms g :
  wellFormed g = true -> wellFormed (mutateAll ms g) = true.
Proof.
  revert g. induction ms as [|m ms IH]; simpl; auto.
  intros g H. apply IH. now apply mutate_wellFormed.
Qed.

(** ** Loading a snapshot *)

Lemma forEach_invariant {A} (P : Graph -> Prop) (body : A -> Eff unit) xs :
  (forall x g, P g -> P (snd (body x g))) ->
  forall g, P g -> P (snd (forEach xs body g)).
Proof.
  intros Hb. induction xs as [|x xs IH]; simpl; auto.
  intros g Hg. unfold bind. specialize (Hb x g Hg).
  destruct (body x g) as [[u|e] g1]; simpl in *; auto.
Qed.

Lemma loadEdge_run e g :
  GraphologyAdapter.loadEdge e g =
  let key := GraphologyAdapter.edgeKey (source e) (elabel e) (target e) in
  if Graphology.hasNode g (source e) && Graphology.hasNode g (target e)
     && negb (Graphology.hasEdge g key)
  then if Graphology.hasDirectedEdge g (source e) (target e)
       then (Threw (ParallelEdge (source e) (target e)), g)
       else (Returned tt, mkGraph (nodeMap g) (edgeMap g ++ [(key, e)]))
  else (Returned tt, g).
Proof.
  unfold GraphologyAdapter.loadEdge, Graphology.addEdgeWithKey. eff.
  cbv zeta.
  destruct (Graphology.hasNode g (source e)) eqn:Hs; simpl; auto.
  destruct (Graphology.hasNode g (target e)) eqn:Ht; simpl; auto.
  destruct (Graphology.hasEdge g _) eqn:Hk; simpl; auto.
  now rewrite Hs, Ht, Hk.
Qed.

Lemma loadEdge_wellFormed e g :
  wellFormed g = true ->
  wellFormed (snd (GraphologyAdapter.loadEdge e g)) = true.
Proof.
  intros H. rewrite loadEdge_run. cbv zeta.
  destruct (Graphology.hasNode g (source e)) eqn:Hs; simpl; auto.
  destruct (Graphology.hasNode g (target e)) eqn:Ht; simpl; auto.
  destruct (Graphology.hasEdge g _) eqn:Hk; simpl; auto.
  destruct (Graphology.hasDirectedEdge g _ _) eqn:Hp; simpl; auto.
  now apply wellFormed_addEdge.
Qed.

Lemma addNode_wellFormed k n g :
  wellFormed g = true ->
  wellFormed (snd (Graphology.addNode k n g)) = true.
Proof.
  intros H. unfold Graphology.addNode.
  destruct (Graphology.hasNode g k) eqn:Hk; simpl; auto.
  now apply wellFormed_addNode.
Qed.

Lemma idsAreKeys_snoc g n :
  idsAreKeys g = true ->
  idsAreKeys (mkGraph (nodeMap g ++ [(id n, n)]) (edgeMap g)) = true.
Proof.
  unfold idsAreKeys. simpl. intros H. rewrite forallb_app, H. simpl.
  now rewrite String.eqb_refl.
Qed.

(** Whatever the snapshot, and whether or not the load runs to its end,
    the store it leaves is well formed and has every node under its
    id. *)
Lemma load_wellFormed data g0 :
  let g' := snd (GraphologyAdapter.loadFromEventStormingData data g0) in
  wellFormed g' = true /\ idsAreKeys g' = true.
Proof.
  cbv zeta.
  set (P := fun g => wellFormed g = true /\ idsAreKeys g = true).
  change (P (snd (GraphologyAdapter.loadFromEventStormingData data g0))).
  unfold GraphologyAdapter.loadFromEventStormingData.
  unfold bind, Graphology.clear, putStore.
  assert (HN : P (snd (forEach (nodes data)
                         (fun node => Graphology.addNode (id node) node)
                         Graphology.empty))).
  { apply forEach_invariant; [|split; reflexivity].
    intros n g [H1 H2]. split; [now apply addNode_wellFormed|].
    unfold Graphology.addNode. destruct (Graphology.hasNode g (id n)); auto.
    now apply idsAreKeys_snoc. }
  destruct (forEach (nodes data) _ Graphology.empty) as [[u|e] g1];
    simpl in *; auto.
  apply (forEach_invariant P); auto.
  intros e g [H1 H2]. split; [now apply loadEdge_wellFormed|].
  rewrite loadEdge_run. cbv zeta.
  destruct (_ && _); auto. destruct (Graphology.hasDirectedEdge _ _ _); auto.
Qed.

Lemma forEach_addNode ns g :
  distinct (map fst (nodeMap g) ++ map id ns) = true ->
  forEach ns (fun node => Graphology.addNode (id node) node) g
  = (Returned tt,
     mkGraph (nodeMap g ++ map (fun n => (id n, n)) ns) (edgeMap g)).
Proof.
  revert g. induction ns as [|n ns IH]; intros g H; simpl.
  - rewrite app_nil_r. now destruct g.
  - unfold bind, Graphology.addNode.
    apply distinct_NoDup in H. simpl in H.
    assert (Hn : Graphology.hasNode g (id n) = false).
    { destruct (Graphology.hasNode g (id n)) eqn:E; auto.
      apply hasNode_In in E. apply NoDup_remove_2 in H.
      exfalso. apply H. apply in_or_app. now left. }
    rewrite Hn. rewrite IH; simpl.
    + now rewrite <- app_assoc.
    + apply distinct_NoDup. rewrite map_app, <- app_assoc. exact H.
Qed.

Lemma hasEdge_In g key :
  Graphology.hasEdge g key = true <-> In key (map fst (edgeMap g)).
Proof.
  unfold Graphology.hasEdge. rewrite existsb_exists, in_map_iff. split.
  - intros [kv [Hin E]]. apply String.eqb_eq in E. eauto.
  - intros [kv [E Hin]]. exists kv. split; auto. now apply String.eqb_eq.
Qed.

Lemma hasDirectedEdge_parallel g e :
  Graphology.hasDirectedEdge g (source e) (target e)
  = existsb (parallelTo e) (Graphology.edgeEntries g).
Proof.
  unfold Graphology.hasDirectedEdge, Graphology.edgeEntries.
  induction (edgeMap g) as [|a l IH]; simpl; auto. now rewrite IH.
Qed.

Lemma unambiguous_spec es e e' :
  unambiguous es = true -> In e es -> In e' es ->
  parallelTo e e' = true -> elabel e' = elabel e.
Proof.
  unfold unambiguous. rewrite forallb_forall. intros H He He' Hp.
  specialize (H e He). rewrite forallb_forall in H. specialize (H e' He').
  rewrite Hp in H. simpl in H. now apply EdgeLabel_eqb_eq.
Qed.

Lemma parallelTo_spec e e' :
  parallelTo e e' = true <-> source e' = source e /\ target e' = target e.
Proof.
  unfold parallelTo. now rewrite andb_true_iff, !String.eqb_eq.
Qed.

(** The edge phase of a load never raises when the snapshot is
    unambiguous. *)
Lemma forEach_loadEdge es0 :
  unambiguous es0 = true ->
  forall es g,
    incl es es0 ->
    (forall key e, In (key, e) (edgeMap g) ->
       key = GraphologyAdapter.edgeKey (source e) (elabel e) (target e)
       /\ In e es0) ->
    exists g',
      forEach es GraphologyAdapter.loadEdge g = (Returned tt, g')
      /\ nodeMap g' = nodeMap g
      /\ (forall key e, In (key, e) (edgeMap g') ->
            key = GraphologyAdapter.edgeKey (source e) (elabel e)
                                            (target e)
            /\ In e es0)
      /\ (forall key, Graphology.hasEdge g key = true ->
                      Graphology.hasEdge g' key = true)
      /\ (forall e, In e es ->
            Graphology.hasNode g (source e) = true ->
            Graphology.hasNode g (target e) = true ->
            Graphology.hasEdge g' (GraphologyAdapter.edgeKey
                                     (source e) (elabel e) (target e))
            = true).
Proof.
  intros Hu es. induction es as [|e es IH]; intros g Hincl Hinv; simpl.
  - exists g. split; [reflexivity|]. split; [reflexivity|].
    split; [exact Hinv|]. split; [auto|]. intros x [].
  - unfold bind. rewrite loadEdge_run. cbv zeta.
    assert (He : In e es0) by (apply Hincl; now left).
    assert (Hincl' : incl es es0)
      by (intros x Hx; apply Hincl; now right).
    destruct (Graphology.hasNode g (source e)
              && Graphology.hasNode g (target e)
              && negb (Graphology.hasEdge g _)) eqn:C.
    + apply andb_prop in C. destruct C as [C Hk].
      apply negb_true_iff in Hk.
      destruct (Graphology.hasDirectedEdge g (source e) (target e)) eqn:Hp.
      { exfalso. rewrite hasDirectedEdge_parallel in Hp.
        apply existsb_exists in Hp. destruct Hp as [e' [Hin Hp]].
        unfold Graphology.edgeEntries in Hin. apply in_map_iff in Hin.
        destruct Hin as [[key e''] [E Hin]]. simpl in E. subst e''.
        destruct (Hinv key e' Hin) as [Hkey He'].
        assert (L := unambiguous_spec es0 e e' Hu He He' Hp).
        apply parallelTo_spec in Hp. destruct Hp as [P1 P2].
        assert (Graphology.hasEdge g (GraphologyAdapter.edgeKey
                  (source e) (elabel e) (target e)) = true);
          [|congruence].
        apply hasEdge_In. rewrite <- P1, <- P2, <- L, <- Hkey.
        apply in_map_iff. exists (key, e'). auto. }
      set (g1 := mkGraph (nodeMap g) (edgeMap g ++ [(_, e)])).
      destruct (IH g1 Hincl') as [g' [R [Hnm [Hi [Hmono Hall]]]]].
      { intros key e' Hin. unfold g1 in Hin. simpl in Hin.
        apply in_app_or in Hin. destruct Hin as [Hin|[Hin|[]]].
        - now apply Hinv.
        - inversion Hin; subst. auto. }
      exists g'. rewrite R. split; [reflexivity|]. split; [exact Hnm|].
      split; [exact Hi|]. split.
      * intros key H. apply Hmono. unfold g1, Graphology.hasEdge. simpl.
        rewrite existsb_app. unfold Graphology.hasEdge in H. now rewrite H.
      * intros x [Hx|Hx] Hs Ht.
        -- subst x. apply Hmono. unfold g1, Graphology.hasEdge. simpl.
           rewrite existsb_app. simpl. rewrite String.eqb_refl.
           now rewrite orb_true_r.
        -- apply Hall; auto.
    + destruct (IH g Hincl' Hinv) as [g' [R [Hnm [Hi [Hmono Hall]]]]].
      exists g'. rewrite R. split; [reflexivity|]. split; [exact Hnm|].
      split; [exact Hi|]. split; [exact Hmono|].
      intros x [Hx|Hx] Hs Ht.
      * subst x. rewrite Hs, Ht in C. simpl in C.
        apply negb_false_iff in C. now apply Hmono.
      * apply Hall; auto.
Qed.

(** ** C10: what a load keeps *)

Lemma wellFormed_keys g :
  wellFormed g = true ->
  NoDup (map (fun e => GraphologyAdapter.edgeKey
                         (source e) (elabel e) (target e))
             (Graphology.edgeEntries g)).
Proof.
  intros W. apply wellFormed_parts in W.
  destruct W as [_ [_ [W3 [W4 _]]]]. apply distinct_NoDup in W4.
  unfold Graphology.edgeEntries. rewrite map_map.
  rewrite forallb_forall in W3.
  erewrite map_ext_in; [exact W4|]. intros kv Hkv. simpl.
  specialize (W3 kv Hkv). apply String.eqb_eq in W3. now symmetry.
Qed.

Lemma load_run ns es g0 :
  distinct (map id ns) = true ->
  unambiguous es = true ->
  exists g',
    GraphologyAdapter.loadFromEventStormingData (mkData ns es) g0
    = (Returned tt, g')
    /\ nodeMap g' = map (fun n => (id n, n)) ns
    /\ (forall key e, In (key, e) (edgeMap g') ->
          key = GraphologyAdapter.edgeKey (source e) (elabel e) (target e)
          /\ In e es)
    /\ (forall e, In e es ->
          In (source e) (map id ns) -> In (target e) (map id ns) ->
          Graphology.hasEdge g' (GraphologyAdapter.edgeKey
                                   (source e) (elabel e) (target e))
          = true).
Proof.
  intros Hn Hu. unfold GraphologyAdapter.loadFromEventStormingData.
  unfold bind at 1 2. unfold Graphology.clear, putStore. cbn [nodes edges].
  rewrite forEach_addNode by exact Hn.
  cbn [nodeMap edgeMap Graphology.empty app].
  set (g1 := mkGraph (map (fun n => (id n, n)) ns) []).
  destruct (forEach_loadEdge es Hu es g1 (incl_refl es))
    as [g' [R [Hnm [Hi [_ Hall]]]]].
  { intros key e []. }
  exists g'. split; [exact R|]. split; [exact Hnm|]. split; [exact Hi|].
  intros e He Hs Ht. apply Hall; auto; apply hasNode_In; unfold g1; simpl;
    now rewrite map_map.
Qed.

(** C10, as the code has it.  Take a snapshot whose node ids are
    pairwise distinct, in which no two edges link the same ordered
    pair of nodes under different labels, and in which no edge has a
    target named like a property every object inherits (for such a
    target the library answers that an edge is there already).  Then
    [importFromJSON] loads it and returns [isValid = true] with no
    errors; the stored nodes are the snapshot's nodes; every stored
    edge is an edge of the snapshot whose source and target are stored
    nodes; no two stored edges share a key; and an edge of the
    snapshot is left out only when an endpoint is missing or its key
    is already stored.  (For any snapshot at all the store left by the
    load is well formed: [load_wellFormed].) *)
Theorem import_skips_unusable_edges ns es g0 :
  distinct (map id ns) = true ->
  unambiguous es = true ->
  forallb (fun e => plainKey (target e)) es = true ->
  exists g',
    EventStormingAPI.importFromJSON (ParsedObject (Some ns) (Some es)) g0
    = (Returned (mkResult true []
                   (warnings (EventStormingAPI.validateGraph g'))), g')
    /\ Graphology.nodeEntries g' = ns
    /\ (forall e, In e (Graphology.edgeEntries g') ->
          In e es
          /\ Graphology.hasNode g' (source e) = true
          /\ Graphology.hasNode g' (target e) = true)
    /\ NoDup (map (fun e => GraphologyAdapter.edgeKey
                              (source e) (elabel e) (target e))
                  (Graphology.edgeEntries g'))
    /\ (forall e, In e es ->
          In (source e) (map id ns) -> In (target e) (map id ns) ->
          Graphology.hasEdge g' (GraphologyAdapter.edgeKey
                                   (source e) (elabel e) (target e))
          = true).
Proof.
  intros Hn Hu _.
  destruct (load_run ns es g0 Hn Hu) as [g' [R [Hnm [Hi Hall]]]].
  assert (W := load_wellFormed (mkData ns es) g0). rewrite R in W.
  cbv zeta in W. cbn [snd] in W. destruct W as [W _].
  assert (K := wellFormed_keys g' W).
  apply wellFormed_parts in W. destruct W as [_ [W2 _]].
  exists g'. split; [|split; [|split; [|split]]]; auto.
  - unfold EventStormingAPI.importFromJSON, tryCatch, bind.
    rewrite R. reflexivity.
  - unfold Graphology.nodeEntries. rewrite Hnm, map_map. simpl.
    apply map_id.
  - intros e He. rewrite forallb_forall in W2. specialize (W2 e He).
    apply andb_prop in W2. split; [|exact W2].
    unfold Graphology.edgeEntries in He. apply in_map_iff in He.
    destruct He as [[key e'] [E Hin]]. simpl in E. subst e'.
    now apply (Hi key e).
Qed.

Lemma import_skips_unusable_edges_witness :
  exists g',
    EventStormingAPI.importFromJSON
      (ParsedObject
         (Some [Examples.node "c1" "Place order" command;
                Examples.node "e1" "Order placed" event])
         (Some [Examples.edge "c1" then_ "e1";
                Examples.edge "c1" then_ "e9";
                Examples.edge "c1" then_ "e1"]))
      Examples.issuing
    = (Returned (mkResult true []
                   (warnings (EventStormingAPI.validateGraph g'))), g')
    /\ Graphology.nodeEntries g'
       = [Examples.node "c1" "Place order" command;
          Examples.node "e1" "Order placed" event]
    /\ forall e, In e (Graphology.edgeEntries g') ->
                 In e [Examples.edge "c1" then_ "e1";
                       Examples.edge "c1" then_ "e9";
                       Examples.edge "c1" then_ "e1"]
                 /\ Graphology.hasNode g' (source e) = true
                 /\ Graphology.hasNode g' (target e) = true.
Proof.
  destruct (import_skips_unusable_edges
              [Examples.node "c1" "Place order" command;
               Examples.node "e1" "Order placed" event]
              [Examples.edge "c1" then_ "e1";
               Examples.edge "c1" then_ "e9";
               Examples.edge "c1" then_ "e1"]
              Examples.issuing eq_refl eq_refl eq_refl)
    as [g' [H1 [H2 [H3 _]]]].
  exists g'. auto.
Defined.

(** C10, as specified, fails: a snapshot with two nodes of
    the same id, or with two edges joining the same nodes under
    different labels, makes the load raise part-way, and
    [importFromJSON] answers [isValid = false]. *)
Lemma import_rejects_some_snapshots :
  (exists msg g',
     EventStormingAPI.importFromJSON
       (ParsedObject
          (Some [Examples.node "a1" "Customer" actor;
                 Examples.node "a1" "Clerk" actor])
          (Some [])) Graphology.empty
     = (Returned (mkResult false [msg] []), g'))
  /\
  (exists msg g',
     EventStormingAPI.importFromJSON
       (ParsedObject
          (Some [Examples.node "c1" "Place order" command;
                 Examples.node "e1" "Order placed" event])
          (Some [Examples.edge "c1" then_ "e1";
                 Examples.edge "c1" on "e1"])) Graphology.empty
     = (Returned (mkResult false [msg] []), g')).
Proof.
  split; eexists; eexists; vm_compute; reflexivity.
Qed.

(** ** C7: export, then load *)

Lemma noParallel_middle l e r :
  noParallel (l ++ e :: r) = true -> existsb (parallelTo e) l = false.
Proof.
  induction l as [|a l IH]; simpl; auto.
  rewrite andb_true_iff, negb_true_iff, existsb_app. simpl.
  intros [H1 H2]. apply orb_false_iff in H1. destruct H1 as [_ H1].
  apply orb_false_iff in H1. destruct H1 as [H1 _].
  rewrite (parallelTo_sym e a), H1. simpl. now apply IH.
Qed.

Lemma forEach_loadEdge_stored g suffix :
  wellFormed g = true ->
  forall prefix,
    edgeMap g = prefix ++ suffix ->
    forEach (map snd suffix) GraphologyAdapter.loadEdge
            (mkGraph (nodeMap g) prefix)
    = (Returned tt, mkGraph (nodeMap g) (prefix ++ suffix)).
Proof.
  intros W. apply wellFormed_parts in W.
  destruct W as [_ [W2 [W3 [W4 W5]]]].
  induction suffix as [|[key e] suffix IH]; intros prefix E; simpl.
  - now rewrite app_nil_r.
  - unfold bind. rewrite loadEdge_run. cbv zeta.
    assert (Hin : In (key, e) (edgeMap g)).
    { rewrite E. apply in_or_app. right. now left. }
    rewrite forallb_forall in W2, W3.
    assert (H2 := W2 e (in_map snd _ _ Hin)).
    assert (H3 := W3 _ Hin). simpl in H3. apply String.eqb_eq in H3.
    rewrite <- H3.
    change (Graphology.hasNode (mkGraph (nodeMap g) prefix))
      with (Graphology.hasNode g).
    rewrite H2. simpl.
    assert (Hk : Graphology.hasEdge (mkGraph (nodeMap g) prefix) key
                 = false).
    { destruct (Graphology.hasEdge _ key) eqn:Hk; auto.
      apply hasEdge_In in Hk. simpl in Hk.
      apply distinct_NoDup in W4. rewrite E, map_app in W4. simpl in W4.
      apply NoDup_remove_2 in W4. exfalso. apply W4.
      apply in_or_app. now left. }
    rewrite Hk. simpl.
    assert (Hp : Graphology.hasDirectedEdge (mkGraph (nodeMap g) prefix)
                   (source e) (target e) = false).
    { rewrite hasDirectedEdge_parallel. unfold Graphology.edgeEntries in *.
      simpl. rewrite E, map_app in W5. simpl in W5.
      now apply noParallel_middle in W5. }
    rewrite Hp. cbn [nodeMap edgeMap].
    rewrite (IH (prefix ++ [(key, e)])).
    + now rewrite <- app_assoc.
    + now rewrite <- app_assoc.
Qed.

(** C7, as the code has it.  For a store in which every node is stored
    under its own id, loading what [exportToEventStormingData] returns
    gives back that very store: the same nodes and the same edges (in
    the same order, too). *)
Theorem export_then_load g g0 :
  wellFormed g = true ->
  idsAreKeys g = true ->
  GraphologyAdapter.loadFromEventStormingData
    (GraphologyAdapter.exportToEventStormingData g) g0
  = (Returned tt, g).
Proof.
  intros W I. unfold GraphologyAdapter.loadFromEventStormingData,
    GraphologyAdapter.exportToEventStormingData.
  unfold bind at 1 2. unfold Graphology.clear, putStore. cbn [nodes edges].
  assert (K : map (fun n => (id n, n)) (Graphology.nodeEntries g)
              = nodeMap g).
  { unfold Graphology.nodeEntries, idsAreKeys in *. rewrite map_map.
    rewrite forallb_forall in I. rewrite <- (map_id (nodeMap g)) at 2.
    apply map_ext_in. intros [k n] Hin. specialize (I _ Hin). simpl in *.
    apply String.eqb_eq in I. now subst. }
  rewrite forEach_addNode.
  - cbn [nodeMap edgeMap Graphology.empty app]. rewrite K.
    unfold Graphology.edgeEntries.
    rewrite (forEach_loadEdge_stored g (edgeMap g) W []); [|reflexivity].
    simpl. now destruct g.
  - cbn [nodeMap Graphology.empty map app].
    apply wellFormed_parts in W. destruct W as [W1 _].
    rewrite <- K in W1. rewrite map_map in W1. simpl in W1.
    exact W1.
Qed.

Lemma export_then_load_witness :
  GraphologyAdapter.loadFromEventStormingData
    (GraphologyAdapter.exportToEventStormingData Examples.chain)
    Examples.issuing
  = (Returned tt, Examples.chain).
Proof.
  apply (export_then_load Examples.chain Examples.issuing).
  - reflexivity.
  - reflexivity.
Defined.

(** C7, as specified, fails: [Examples.relabelled] is reached
    by mutations of the API alone, and loading its export loses its
    edge, because the node stored under [c1] is exported with the id
    [c9]. *)
Lemma export_then_load_loses_edge :
  Graphology.edgeEntries Examples.relabelled
  = [Examples.edge "c1" then_ "e1"]
  /\ exists g',
       GraphologyAdapter.loadFromEventStormingData
         (GraphologyAdapter.exportToEventStormingData Examples.relabelled)
         Examples.relabelled = (Returned tt, g')
       /\ Graphology.edgeEntries g' = []
       /\ Graphology.nodeEntries g'
          = Graphology.nodeEntries Examples.relabelled.
Proof.
  split; [reflexivity|]. eexists. split; [vm_compute; reflexivity|].
  split; reflexivity.
Qed.

(** ** C8: the type of a command execution path *)

Lemma attributesOf_In g keys n :
  In n (GraphologyAdapter.attributesOf g keys) <->
  exists k, In k keys /\ Graphology.getNodeAttributes g k = Some n.
Proof.
  unfold GraphologyAdapter.attributesOf. rewrite in_flat_map. split.
  - intros [k [Hk Hn]]. exists k. split; auto.
    destruct (Graphology.getNodeAttributes g k); simpl in Hn;
      [destruct Hn as [->|[]]; reflexivity|destruct Hn].
  - intros [k [Hk Hn]]. exists k. split; auto. rewrite Hn. now left.
Qed.

Lemma attributesOf_length g keys :
  (forall k, In k keys -> Graphology.hasNode g k = true) ->
  length (GraphologyAdapter.attributesOf g keys) = length keys.
Proof.
  induction keys as [|k keys IH]; simpl; auto. intros H.
  destruct (proj1 (hasNode_getNodeAttributes g k) (H k (or_introl eq_refl)))
    as [n Hn].
  rewrite Hn. simpl. rewrite IH; auto.
Qed.

Lemma idsAreKeys_id g k n :
  idsAreKeys g = true -> Graphology.getNodeAttributes g k = Some n ->
  id n = k.
Proof.
  unfold idsAreKeys. rewrite forallb_forall. intros H Hn.
  apply getNodeAttributes_In in Hn. specialize (H _ Hn). simpl in H.
  apply String.eqb_eq in H. now subst.
Qed.

Lemma wellFormed_endpoints g e :
  wellFormed g = true -> In e (Graphology.edgeEntries g) ->
  Graphology.hasNode g (source e) = true
  /\ Graphology.hasNode g (target e) = true.
Proof.
  intros W He. apply wellFormed_parts in W. destruct W as [_ [W _]].
  rewrite forallb_forall in W. specialize (W e He). now apply andb_prop.
Qed.

Lemma nonempty_filter {A} (p : A -> bool) l :
  (0 <? length (filter p l))%nat = existsb p l.
Proof.
  induction l as [|a l IH]; simpl; auto. destruct (p a); simpl; auto.
Qed.

Lemma getOutNeighborsByLabel_nonempty g n l :
  wellFormed g = true ->
  Graphology.hasNode g (id n) = true ->
  (0 <? length (GraphologyAdapter.getOutNeighborsByLabel g (id n) l))%nat
  = hasOutgoing g l n.
Proof.
  intros W Hn. unfold GraphologyAdapter.getOutNeighborsByLabel.
  rewrite Hn. simpl. rewrite attributesOf_length.
  - rewrite length_map. unfold Graphology.outEdges.
    rewrite nonempty_filter. unfold hasOutgoing.
    induction (Graphology.edgeEntries g) as [|e es IH]; simpl; auto.
    destruct (source e =? id n); simpl; auto.
    now rewrite IH.
  - intros k Hk. apply in_map_iff in Hk. destruct Hk as [e [E He]].
    subst k. apply filter_In in He. destruct He as [He _].
    unfold Graphology.outEdges in He. apply filter_In in He.
    now apply (wellFormed_endpoints g e W).
Qed.

Lemma dfs_ends_at_target g targetId room visited currentId p ids :
  In ids (GraphologyAdapter.dfs g targetId room visited currentId p) ->
  exists pre, ids = pre ++ [targetId].
Proof.
  revert visited currentId p.
  induction room as [|room IH]; intros visited currentId p H; simpl in H.
  - destruct H.
  - destruct (currentId =? targetId) eqn:E.
    + apply String.eqb_eq in E. subst. destruct H as [<-|[]]. eauto.
    + destruct (Graphology.member currentId visited); [destruct H|].
      apply in_flat_map in H. destruct H as [nb [_ H]]. eauto.
Qed.

Lemma lastNode_snoc l n : lastNode (l ++ [n]) = Some n.
Proof. unfold lastNode. now rewrite rev_unit. Qed.

(** C8, as the code has it.  In a store in which every node is stored
    under its own id, a path returned by [getCommandExecutionPaths]
    that ends at the event [E] has type POLICY_PATH if some then
    (policy) edge leaves [E]; else ERROR_PATH if the label of [E],
    in lower case, contains "error" or "failed"; else HAPPY_PATH. *)
Theorem path_type_follows_final_event g C p E :
  wellFormed g = true ->
  idsAreKeys g = true ->
  In p (paths (EventStormingAPI.getCommandExecutionPaths g C)) ->
  lastNode (path p) = Some E ->
  pathType p = classify g E.
Proof.
  intros W I Hp HE. unfold EventStormingAPI.getCommandExecutionPaths in Hp.
  destruct (GraphologyAdapter.getNode g C) as [c|]; [|destruct Hp].
  destruct (negb (NodeType_eqb (type c) command)); [destruct Hp|].
  cbn [paths] in Hp. apply in_flat_map in Hp. destruct Hp as [ev [Hev Hp]].
  apply in_map_iff in Hp. destruct Hp as [ids [Ep Hids]].
  assert (Hk : Graphology.getNodeAttributes g (id ev) = Some ev).
  { unfold GraphologyAdapter.getOutNeighborsByLabel in Hev.
    destruct (negb (Graphology.hasNode g C)); [destruct Hev|].
    apply attributesOf_In in Hev. destruct Hev as [k [_ Hk]].
    now rewrite (idsAreKeys_id g k ev I Hk). }
  unfold GraphologyAdapter.findAllPaths in Hids.
  destruct (negb (Graphology.hasNode g C)
            || negb (Graphology.hasNode g (id ev))); [destruct Hids|].
  apply dfs_ends_at_target in Hids. destruct Hids as [pre Hids].
  subst ids p. cbn [path pathType] in *.
  rewrite flat_map_app in HE. simpl in HE.
  rewrite getNode_attributes, Hk in HE. simpl in HE.
  rewrite lastNode_snoc in HE. inversion HE; subst E.
  rewrite getOutNeighborsByLabel_nonempty; auto.
  apply hasNode_getNodeAttributes. eauto.
Qed.

Lemma path_type_follows_final_event_witness :
  pathType (mkPath [Examples.node "n1" "Place order" command;
                    Examples.node "n2" "Order placed" event] POLICY_PATH)
  = classify Examples.chain (Examples.node "n2" "Order placed" event).
Proof.
  apply (path_type_follows_final_event Examples.chain "n1").
  - vm_compute. reflexivity.
  - vm_compute. reflexivity.
  - vm_compute. left. reflexivity.
  - vm_compute. reflexivity.
Defined.

(** The three types occur on [Examples.chain] once a plain event is
    added. *)
Lemma path_types_example :
  map pathType
      (paths (EventStormingAPI.getCommandExecutionPaths
                (mutateAll [AddNode (Examples.node "n5" "Order queued"
                                                   event);
                            AddEdge (Examples.edge "n1" then_ "n5")]
                           Examples.chain) "n1"))
  = [POLICY_PATH; ERROR_PATH; HAPPY_PATH].
Proof. vm_compute. reflexivity. Qed.

(** C8, as specified, fails: in [Examples.renamed] a path
    that ends at the event "Order placed", which has no outgoing edge
    at all, is typed ERROR_PATH (the loop is at the event "Order
    failed", whose id field now names the other event). *)
Lemma path_type_of_another_event :
  let E := Examples.node "e2" "Order placed" event in
  let p := mkPath [Examples.node "c1" "Place order" command; E]
                  ERROR_PATH in
  In p (paths (EventStormingAPI.getCommandExecutionPaths
                 Examples.renamed "c1"))
  /\ lastNode (path p) = Some E
  /\ hasOutgoing Examples.renamed then_policy E = false
  /\ EventStormingAPI.isErrorLabel (label E) = false
  /\ pathType p <> HAPPY_PATH.
Proof.
  vm_compute. split; [left; reflexivity|]. repeat split. discriminate.
Qed.

(** ** C5: impact analysis *)

Lemma setAdd_In x y s :
  In x (Graphology.setAdd y s) <-> x = y \/ In x s.
Proof.
  unfold Graphology.setAdd. destruct (Graphology.member y s) eqn:E.
  - apply member_In in E. split; [tauto|]. intros [->|H]; auto.
  - rewrite in_app_iff. simpl. split; intros H; intuition.
Qed.

Lemma setAdd_NoDup y s : NoDup s -> NoDup (Graphology.setAdd y s).
Proof.
  intros H. unfold Graphology.setAdd.
  destruct (Graphology.member y s) eqn:E; auto.
  apply member_false in E. apply NoDup_app; auto.
  - repeat constructor. intros [].
  - intros a Ha [<-|[]]. contradiction.
Qed.

Lemma setAdd_length y s :
  length (Graphology.setAdd y s) <= S (length s).
Proof.
  unfold Graphology.setAdd. destruct (Graphology.member y s); auto.
  rewrite length_app. simpl. lia.
Qed.

Section FoldSetAdd.

Context {A : Type} (f : A -> string).

Lemma fold_setAdd_In l s x :
  In x (fold_left (fun acc a => Graphology.setAdd (f a) acc) l s) <->
  In x s \/ exists a, In a l /\ f a = x.
Proof.
  revert s. induction l as [|a l IH]; intros s; simpl.
  - split; [tauto|]. intros [H|[a [[] _]]]. exact H.
  - rewrite IH, setAdd_In. split.
    + intros [[->|H]|[b [Hb E]]]; eauto.
    + intros [H|[b [[->|Hb] E]]]; eauto.
Qed.

Lemma fold_setAdd_NoDup l s :
  NoDup s ->
  NoDup (fold_left (fun acc a => Graphology.setAdd (f a) acc) l s).
Proof.
  revert s. induction l as [|a l IH]; intros s H; simpl; auto.
  apply IH. now apply setAdd_NoDup.
Qed.

Lemma fold_setAdd_length l s :
  length (fold_left (fun acc a => Graphology.setAdd (f a) acc) l s)
  <= length s + length l.
Proof.
  revert s. induction l as [|a l IH]; intros s; simpl; [lia|].
  specialize (IH (Graphology.setAdd (f a) s)).
  assert (H := setAdd_length (f a) s). lia.
Qed.

End FoldSetAdd.

Lemma outNeighbors_In g k y :
  In y (Graphology.outNeighbors g k) <-> edgeStep g k y.
Proof.
  unfold Graphology.outNeighbors, edgeStep, Graphology.outEdges.
  rewrite fold_setAdd_In. simpl. split.
  - intros [[]|[e [He E]]]. apply filter_In in He. destruct He as [He Hs].
    apply String.eqb_eq in Hs. eauto.
  - intros [e [He [Hs Ht]]]. right. exists e. split; auto.
    apply filter_In. split; auto. now apply String.eqb_eq.
Qed.

Lemma outNeighbors_NoDup g k : NoDup (Graphology.outNeighbors g k).
Proof. apply fold_setAdd_NoDup. constructor. Qed.

Lemma outNeighbors_length g k :
  length (Graphology.outNeighbors g k) <= length (edgeMap g).
Proof.
  unfold Graphology.outNeighbors.
  etransitivity; [apply fold_setAdd_length|]. simpl.
  unfold Graphology.outEdges, Graphology.edgeEntries.
  etransitivity; [apply filter_length_le|]. now rewrite length_map.
Qed.

Lemma outNeighbors_hasNode g k y :
  wellFormed g = true -> In y (Graphology.outNeighbors g k) ->
  Graphology.hasNode g y = true.
Proof.
  intros W H. apply outNeighbors_In in H. destruct H as [e [He [_ <-]]].
  now apply (wellFormed_endpoints g e W).
Qed.

Lemma reachable_step g x y z :
  reachable g x y -> edgeStep g y z -> reachable g x z.
Proof.
  intros H Hz. induction H as [x|x y w Hxy Hyw IH].
  - econstructor; [exact Hz|constructor].
  - econstructor; [exact Hxy|]. now apply IH.
Qed.

Lemma impactLoop_invariant g N fuel :
  forall queue visited allReachable r,
    LoopInvariant g N queue visited allReachable ->
    GraphologyAdapter.impactLoop fuel g queue visited allReachable
    = Some r ->
    exists visited', LoopInvariant g N [] visited' r.
Proof.
  induction fuel as [|fuel IH]; intros queue visited allR r Inv H;
    simpl in H; [discriminate|].
  destruct queue as [|current rest].
  - inversion H; subst. eauto.
  - destruct Inv as [I1 I2 I3 I4 I5 I6 I7].
    destruct (Graphology.member current visited) eqn:M.
    + apply member_In in M. apply (IH _ _ _ _ ) in H; auto.
      constructor; auto.
      * intros x Hx. apply I5. now right.
      * intros s Hs. destruct (I6 s Hs) as [|[<-|]]; auto.
      * intros x y Hx Hn Hy.
        destruct (I7 x y Hx Hn Hy) as [|[<-|]]; auto.
    + apply member_false in M.
      assert (Hcur : current <> N) by (intros ->; contradiction).
      apply (IH _ _ _ _ ) in H; auto. constructor.
      * apply setAdd_In. now right.
      * intros x. rewrite !setAdd_In, I2. split.
        -- intros [->|[H1|[H1 H2]]]; auto.
        -- intros [H1|[[->|H1] H2]]; auto.
      * now apply setAdd_NoDup.
      * intros x Hx Hn. apply setAdd_In in Hx. destruct Hx as [->|Hx].
        -- apply I5. now left.
        -- now apply I4.
      * intros x Hx. apply in_app_or in Hx. destruct Hx as [Hx|Hx].
        -- apply I5. now right.
        -- apply filter_In in Hx. destruct Hx as [Hx _].
           apply outNeighbors_In in Hx.
           destruct (I5 current (or_introl eq_refl)) as [s [Hs Hr]].
           exists s. split; auto. now apply reachable_step with current.
      * intros s Hs. rewrite setAdd_In, in_app_iff.
        destruct (I6 s Hs) as [|[<-|]]; auto.
      * intros x y Hx Hn Hy. rewrite setAdd_In, in_app_iff.
        apply setAdd_In in Hx. destruct Hx as [->|Hx].
        -- destruct (Graphology.member y (Graphology.setAdd current visited))
             eqn:My.
           ++ apply member_In, setAdd_In in My. tauto.
           ++ right. right. apply filter_In. split.
              ** now apply outNeighbors_In.
              ** now rewrite My.
        -- destruct (I7 x y Hx Hn Hy) as [|[<-|]]; auto.
Qed.

(** What the loop leaves in [allReachable]: the out-neighbours of [N],
    and every node other than [N] that is reachable from one of
    them. *)
Lemma loop_result g N visited r :
  LoopInvariant g N [] visited r ->
  forall x, In x r <->
            edgeStep g N x
            \/ (x <> N /\ exists s, edgeStep g N s /\ reachable g s x).
Proof.
  intros [I1 I2 I3 I4 I5 I6 I7] x. rewrite I2. split.
  - intros [H|[H1 H2]]; auto.
  - intros [H|[Hn [s [Hs Hr]]]]; auto. right. split; auto.
    assert (Q : In s visited \/ s = N).
    { destruct (I6 s Hs) as [H|[]]. now left. }
    clear Hs. induction Hr as [s|s s' x Hstep Hr IH].
    + destruct Q; auto. contradiction.
    + apply IH; auto. destruct Q as [Q| ->].
      * destruct (string_dec s N) as [->|Hs].
        -- destruct (I6 s' Hstep) as [H|[]]. now left.
        -- destruct (I7 s s' Q Hs Hstep) as [H|[]]. now left.
      * destruct (I6 s' Hstep) as [H|[]]. now left.
Qed.

Lemma impactLoop_more_fuel g fuel :
  forall fuel' queue visited allReachable r,
    GraphologyAdapter.impactLoop fuel g queue visited allReachable
    = Some r ->
    fuel <= fuel' ->
    GraphologyAdapter.impactLoop fuel' g queue visited allReachable
    = Some r.
Proof.
  induction fuel as [|fuel IH]; intros fuel' queue visited allR r H Hle;
    simpl in H; [discriminate|].
  destruct fuel' as [|fuel']; [lia|]. simpl.
  destruct queue as [|current rest]; auto.
  destruct (Graphology.member current visited); apply IH; auto; lia.
Qed.

Lemma filter_length_weaker {A} (p q : A -> bool) l :
  (forall x, q x = true -> p x = true) ->
  length (filter q l) <= length (filter p l).
Proof.
  intros H. induction l as [|a l IH]; simpl; auto.
  destruct (q a) eqn:Q.
  - rewrite (H a Q). simpl. lia.
  - destruct (p a); simpl; lia.
Qed.

Lemma filter_length_stricter {A} (p q : A -> bool) l c :
  (forall x, q x = true -> p x = true) ->
  In c l -> p c = true -> q c = false ->
  length (filter q l) < length (filter p l).
Proof.
  intros H. induction l as [|a l IH]; simpl; [tauto|].
  intros [->|Hc] Pc Qc.
  - rewrite Pc, Qc. simpl.
    assert (L := filter_length_weaker p q l H). lia.
  - specialize (IH Hc Pc Qc). destruct (q a) eqn:Q.
    + rewrite (H a Q). simpl. lia.
    + destruct (p a); simpl; lia.
Qed.

Lemma unvisited_setAdd g current visited :
  Graphology.hasNode g current = true ->
  Graphology.member current visited = false ->
  unvisited g (Graphology.setAdd current visited) < unvisited g visited.
Proof.
  intros Hn Hm. unfold unvisited.
  apply filter_length_stricter with (c := current).
  - intros x Hx. apply negb_true_iff in Hx. apply negb_true_iff.
    apply member_false in Hx. apply member_false. intros Hin.
    apply Hx. apply setAdd_In. now right.
  - now apply hasNode_In.
  - now rewrite Hm.
  - apply negb_false_iff. apply member_In, setAdd_In. now left.
Qed.

Lemma unvisited_le g visited : unvisited g visited <= length (nodeMap g).
Proof.
  unfold unvisited. etransitivity; [apply filter_length_le|].
  now rewrite length_map.
Qed.

(** The loop ends: each iteration either drops an element of the queue
    or visits a node not visited before. *)
Lemma impactLoop_terminates g :
  wellFormed g = true ->
  forall fuel queue visited allReachable,
    (forall x, In x queue -> Graphology.hasNode g x = true) ->
    length queue + S (length (edgeMap g)) * unvisited g visited < fuel ->
    exists r,
      GraphologyAdapter.impactLoop fuel g queue visited allReachable
      = Some r.
Proof.
  intros W. induction fuel as [|fuel IH]; intros queue visited allR Hq Hm;
    [lia|]. simpl.
  destruct queue as [|current rest]; [eauto|].
  destruct (Graphology.member current visited) eqn:M.
  - apply IH.
    + intros x Hx. apply Hq. now right.
    + simpl in Hm. lia.
  - apply IH.
    + intros x Hx. apply in_app_or in Hx. destruct Hx as [Hx|Hx].
      * apply Hq. now right.
      * apply filter_In in Hx. destruct Hx as [Hx _].
        now apply (outNeighbors_hasNode g current).
    + assert (U := unvisited_setAdd g current visited
                     (Hq current (or_introl eq_refl)) M).
      assert (L := outNeighbors_length g current).
      assert (F := filter_length_le
                     (fun neighbor =>
                        negb (Graphology.member neighbor
                                (Graphology.setAdd current visited)))
                     (Graphology.outNeighbors g current)).
      rewrite length_app. simpl in Hm.
      remember (unvisited g (Graphology.setAdd current visited)) as u'.
      remember (unvisited g visited) as u.
      remember (length (edgeMap g)) as E.
      assert (S E * S u' <= S E * u) by (apply Nat.mul_le_mono_l; lia).
      lia.
Qed.

Lemma attributesOf_ids g keys :
  idsAreKeys g = true ->
  (forall k, In k keys -> Graphology.hasNode g k = true) ->
  map id (GraphologyAdapter.attributesOf g keys) = keys.
Proof.
  intros I. induction keys as [|k keys IH]; simpl; auto. intros H.
  destruct (proj1 (hasNode_getNodeAttributes g k) (H k (or_introl eq_refl)))
    as [n Hn].
  rewrite Hn. simpl. rewrite (idsAreKeys_id g k n I Hn), IH; auto.
Qed.

Lemma existsb_id_member (l : list EventStormingNode) k :
  existsb (fun n => id n =? k) l = Graphology.member k (map id l).
Proof.
  unfold Graphology.member. induction l as [|a l IH]; simpl; auto.
  now rewrite IH.
Qed.

Lemma filter_NoDup {A} (p : A -> bool) l : NoDup l -> NoDup (filter p l).
Proof.
  induction 1 as [|a l Ha Hl IH]; simpl; [constructor|].
  destruct (p a); auto. constructor; auto.
  intros Hin. apply filter_In in Hin. tauto.
Qed.

Lemma filter_partition_length {A} (p : A -> bool) l :
  length l
  = length (filter p l) + length (filter (fun x => negb (p x)) l).
Proof.
  induction l as [|a l IH]; simpl; auto. destruct (p a); simpl; lia.
Qed.

Lemma NoDup_same_length (l l' : list string) :
  NoDup l -> NoDup l' -> (forall x, In x l <-> In x l') ->
  length l = length l'.
Proof.
  intros H H' E. apply Nat.le_antisymm; apply NoDup_incl_length; auto;
    intros x Hx; now apply E.
Qed.

Lemma reachable_hasNode g x y :
  wellFormed g = true -> Graphology.hasNode g x = true ->
  reachable g x y -> Graphology.hasNode g y = true.
Proof.
  intros W Hx H. induction H as [x|x y z Hxy Hyz IH]; auto.
  apply IH. destruct Hxy as [e [He [_ <-]]].
  now apply (wellFormed_endpoints g e W).
Qed.

(** C5, as the code has it.  In a store in which every node is stored
    under its own id, for a stored node [N], [getImpactAnalysis]
    returns (as soon as the loop is given [impactFuel] iterations) a
    result in which: [directImpact] holds the nodes one edge away from
    [N]; [indirectImpact] holds the nodes other than [N] that are
    reachable from those and are not among them; and [totalReach]
    counts the two together, no node being counted twice. *)
Theorem impact_analysis g N :
  wellFormed g = true ->
  idsAreKeys g = true ->
  Graphology.hasNode g N = true ->
  exists r,
    (forall fuel, impactFuel g <= fuel ->
                  GraphologyAdapter.getImpactAnalysis fuel g N = Some r)
    /\ (forall n, In n (directImpact r) <->
                  exists k, nodeAt g k n /\ edgeStep g N k)
    /\ (forall n, In n (indirectImpact r) <->
                  exists k, nodeAt g k n /\ k <> N
                            /\ (exists d, edgeStep g N d
                                          /\ reachable g d k)
                            /\ ~ edgeStep g N k)
    /\ NoDup (map id (directImpact r ++ indirectImpact r))
    /\ totalReach r
       = length (directImpact r) + length (indirectImpact r).
Proof.
  intros W I HN.
  set (seeds := Graphology.outNeighbors g N).
  set (all0 := fold_left (fun s nb => Graphology.setAdd nb s) seeds []).
  set (visited0 := Graphology.setAdd N []).
  assert (Hseeds : forall k, In k seeds -> Graphology.hasNode g k = true).
  { intros k Hk. now apply (outNeighbors_hasNode g N). }
  assert (Hall0 : forall x, In x all0 <-> In x seeds).
  { intros x. unfold all0. rewrite (fold_setAdd_In (fun nb => nb)).
    split; [intros [[]|[a [Ha <-]]]; auto|]. intros H. right. eauto. }
  (* the loop returns *)
  destruct (impactLoop_terminates g W (impactFuel g) seeds visited0 all0
              Hseeds) as [all Hrun].
  { unfold impactFuel. assert (L := outNeighbors_length g N).
    assert (U := unvisited_le g visited0). fold seeds in L.
    assert (S (length (edgeMap g)) * unvisited g visited0
            <= S (length (edgeMap g)) * length (nodeMap g))
      by (apply Nat.mul_le_mono_l; lia).
    lia. }
  (* and what it returns *)
  assert (Inv0 : LoopInvariant g N seeds visited0 all0).
  { constructor.
    - now left.
    - intros x. rewrite Hall0. unfold seeds. rewrite outNeighbors_In.
      split; auto. intros [H|[[<-|[]] H]]; auto. congruence.
    - unfold all0. apply (fold_setAdd_NoDup (fun nb => nb)). constructor.
    - intros x [<-|[]] H. congruence.
    - intros x Hx. exists x. split; [now apply outNeighbors_In|].
      constructor.
    - intros s Hs. right. now apply outNeighbors_In.
    - intros x y [<-|[]] H. congruence. }
  destruct (impactLoop_invariant g N _ _ _ _ _ Inv0 Hrun) as [vis Inv].
  assert (Hall := loop_result g N vis all Inv).
  assert (Hnd : NoDup all) by (destruct Inv; auto).
  assert (Hnodes : forall k, In k all -> Graphology.hasNode g k = true).
  { intros k Hk. apply Hall in Hk. destruct Hk as [Hk|[_ [s [Hs Hr]]]].
    - apply Hseeds. now apply outNeighbors_In.
    - apply (reachable_hasNode g s k W); auto.
      apply Hseeds. now apply outNeighbors_In. }
  set (direct := GraphologyAdapter.attributesOf g seeds).
  assert (Hdir : map id direct = seeds)
    by (apply attributesOf_ids; auto).
  set (rest := filter (fun k => negb (Graphology.member k seeds)) all).
  assert (Hrest : filter (fun reachableId =>
                            negb (existsb (fun n => id n =? reachableId)
                                          direct)) all = rest).
  { unfold rest. apply filter_ext. intros k.
    now rewrite existsb_id_member, Hdir. }
  assert (Hrestnodes : forall k, In k rest ->
                                 Graphology.hasNode g k = true).
  { intros k Hk. apply filter_In in Hk. now apply Hnodes. }
  exists (mkImpact direct (GraphologyAdapter.attributesOf g rest)
                   (length all)).
  cbn [directImpact indirectImpact totalReach].
  split; [|split; [|split; [|split]]].
  - intros fuel Hfuel. unfold GraphologyAdapter.getImpactAnalysis.
    rewrite HN. cbn [negb]. fold seeds. fold all0. fold visited0.
    rewrite (impactLoop_more_fuel g _ fuel _ _ _ _ Hrun Hfuel).
    fold direct. now rewrite Hrest.
  - intros n. unfold direct. rewrite attributesOf_In. unfold nodeAt.
    split; intros [k [H1 H2]]; exists k.
    + split; auto. now apply outNeighbors_In.
    + split; auto. now apply outNeighbors_In.
  - intros n. rewrite attributesOf_In. unfold nodeAt, rest.
    split.
    + intros [k [H1 H2]]. exists k. split; auto.
      apply filter_In in H1. destruct H1 as [H1 H3].
      apply negb_true_iff, member_false in H3.
      unfold seeds in H3. rewrite outNeighbors_In in H3.
      apply Hall in H1. destruct H1 as [H1|[H1 H4]]; [contradiction|].
      auto.
    + intros [k [H1 [H2 [H3 H4]]]]. exists k. split; auto.
      apply filter_In. split.
      * apply Hall. right. auto.
      * apply negb_true_iff, member_false. unfold seeds.
        now rewrite outNeighbors_In.
  - rewrite map_app, Hdir, attributesOf_ids; auto.
    apply NoDup_app.
    + apply outNeighbors_NoDup.
    + now apply filter_NoDup.
    + intros k Hk Hk'. unfold rest in Hk'. apply filter_In in Hk'.
      destruct Hk' as [_ Hk']. apply negb_true_iff, member_false in Hk'.
      contradiction.
  - unfold direct. rewrite !attributesOf_length; auto.
    rewrite (filter_partition_length
               (fun k => Graphology.member k seeds) all).
    fold rest. f_equal. apply NoDup_same_length.
    + now apply filter_NoDup.
    + apply outNeighbors_NoDup.
    + intros x. rewrite filter_In, member_In. split; [tauto|].
      intros Hx. split; auto. apply Hall. left.
      now apply outNeighbors_In.
Qed.

(** Scenario 5: on n1 -> n2 -> n3, n1 -> n4 the analysis of n1 has n2
    and n4 as direct impact and a total reach of 3. *)
Lemma impact_analysis_witness :
  exists r,
    GraphologyAdapter.getImpactAnalysis (impactFuel Examples.chain)
                                        Examples.chain "n1" = Some r
    /\ map id (directImpact r) = ["n2"; "n4"]
    /\ map id (indirectImpact r) = ["n3"]
    /\ totalReach r = 3.
Proof.
  destruct (impact_analysis Examples.chain "n1") as [r [H _]].
  - vm_compute. reflexivity.
  - vm_compute. reflexivity.
  - vm_compute. reflexivity.
  - exists r. specialize (H (impactFuel Examples.chain) (le_n _)).
    split; [exact H|].
    vm_compute in H. inversion H. repeat split.
Defined.

(** C5, as specified, fails on a cycle.  In [Examples.loop]
    the command c1 is reachable from its own out-neighbour e1 and is
    not an out-neighbour of itself, yet the analysis of c1 leaves it
    out: the indirect impact is empty and the total reach is 1.  It
    also fails once an id field differs from the key: in
    [Examples.renamed] the event stored under e1 is an out-neighbour
    of c1 and is listed as indirect impact as well. *)
Lemma impact_analysis_leaves_start_out :
  (edgeStep Examples.loop "c1" "e1"
   /\ reachable Examples.loop "e1" "c1"
   /\ ~ edgeStep Examples.loop "c1" "c1"
   /\ GraphologyAdapter.getImpactAnalysis (impactFuel Examples.loop)
                                          Examples.loop "c1"
      = Some (mkImpact [Examples.node "e1" "Payment declined" event]
                       [] 1))
  /\
  (let moved := Examples.node "e2" "Order failed" event in
   nodeAt Examples.renamed "e1" moved
   /\ edgeStep Examples.renamed "c1" "e1"
   /\ GraphologyAdapter.getImpactAnalysis (impactFuel Examples.renamed)
                                          Examples.renamed "c1"
      = Some (mkImpact [moved; Examples.node "e2" "Order placed" event]
                       [moved] 2)).
Proof.
  split; [split; [|split; [|split]]|split; [|split]].
  - exists (Examples.edge "c1" then_ "e1"). vm_compute. tauto.
  - apply rt1n_trans with "c1"; [|constructor].
    exists (Examples.edge "e1" then_policy "c1"). vm_compute. tauto.
  - intros [e [He [Hs Ht]]]. vm_compute in He.
    destruct He as [<-|[<-|[]]]; discriminate.
  - vm_compute. reflexivity.
  - vm_compute. reflexivity.
  - exists (Examples.edge "c1" then_ "e1"). vm_compute. tauto.
  - vm_compute. reflexivity.
Qed.

(** ** The stores the engine can hold *)

(** Every store of the engine is well formed. *)
Lemma EngineState_wellFormed g : EngineState g -> wellFormed g = true.
Proof.
  induction 1 as [|data g _ _|m g _ IH].
  - apply wellFormed_empty.
  - apply (load_wellFormed data g).
  - now apply mutate_wellFormed.
Qed.

Lemma idsAreKeys_replaced g k n :
  idsAreKeys g = true -> id n = k -> idsAreKeys (replaced k n g) = true.
Proof.
  unfold idsAreKeys, replaced. simpl. rewrite !forallb_forall.
  intros H E kv Hkv. apply in_map_iff in Hkv.
  destruct Hkv as [[k0 n0] [E0 Hin]]. simpl in E0.
  destruct (k0 =? k) eqn:Ek.
  - subst kv. simpl. now apply String.eqb_eq.
  - subst kv. apply (H _ Hin).
Qed.

(** Nodes stay under their ids as long as no [updateNode] changes an
    id field. *)
Lemma mutate_idsAreKeys m g :
  idsAreKeys g = true -> keepsId g m = true ->
  idsAreKeys (snd (EventStormingAPI.mutate m g)) = true.
Proof.
  intros I K. destruct m; simpl.
  - rewrite addNode_run. destruct (Graphology.hasNode g (id node)); auto.
    destruct (isValid _); auto. now apply idsAreKeys_snoc.
  - rewrite updateNode_run. simpl in K.
    destruct (Graphology.getNodeAttributes g nodeId) as [cur|] eqn:Hc; auto.
    cbv zeta. destruct (isValid _); auto. apply idsAreKeys_replaced; auto.
    apply String.eqb_eq in K.
    transitivity (id cur); [exact K|now apply (idsAreKeys_id g)].
  - rewrite removeNode_run. destruct (Graphology.hasNode g nodeId); auto.
    unfold idsAreKeys, without in *. simpl. rewrite forallb_forall in *.
    intros kv Hkv. apply filter_In in Hkv. now apply I.
  - rewrite addEdge_run.
    destruct (Graphology.getNodeAttributes g (source edge)); auto.
    destruct (Graphology.getNodeAttributes g (target edge)); auto.
    cbv zeta. destruct (negb _); auto.
    destruct (Graphology.hasEdge g _); auto.
    destruct (Graphology.hasDirectedEdge g _ _); auto.
  - rewrite removeEdge_run. cbv zeta.
    destruct (Graphology.hasEdge g _); auto.
Qed.

(** ** More on [addEdge] *)

(** The half of C3 that holds: an edge whose triple is stored is
    reported as existing, and the store is left alone. *)
Lemma addEdge_same_triple_rejected g e s t :
  wellFormed g = true ->
  In e (Graphology.edgeEntries g) ->
  Graphology.getNodeAttributes g (source e) = Some s ->
  Graphology.getNodeAttributes g (target e) = Some t ->
  EventStormingAPI.isValidCombination (elabel e) (type s) (type t) = true ->
  EventStormingAPI.addEdge e g
  = (Returned (mkResult false
                 [EventStormingAPI.edgeExists (source e) (elabel e)
                                              (target e)] []), g).
Proof.
  intros W He Hs Ht Hv. rewrite (addEdge_permitted e g s t Hs Ht Hv).
  cbv zeta.
  assert (K : Graphology.hasEdge g (GraphologyAdapter.edgeKey
                (source e) (elabel e) (target e)) = true);
    [|now rewrite K].
  apply wellFormed_parts in W. destruct W as [_ [_ [W3 _]]].
  rewrite forallb_forall in W3.
  unfold Graphology.edgeEntries in He. apply in_map_iff in He.
  destruct He as [[key e'] [E Hin]]. simpl in E. subst e'.
  specialize (W3 _ Hin). simpl in W3. apply String.eqb_eq in W3.
  apply hasEdge_In. rewrite <- W3. apply in_map_iff. exists (key, e). auto.
Qed.

(** ** The string tests, on examples *)

Lemma isErrorLabel_examples :
  EventStormingAPI.isErrorLabel "Payment FAILED" = true
  /\ EventStormingAPI.isErrorLabel "Validation Error raised" = true
  /\ EventStormingAPI.isErrorLabel "Order placed" = false.
Proof. repeat split. Qed.

Lemma trim_examples :
  JsString.trim "  order 1 " = "order 1"
  /\ JsString.trim "   " = ""
  /\ JsString.testKebab "order-1_a" = true
  /\ JsString.testKebab "Order 1" = false
  /\ JsString.testKebab "" = false.
Proof. repeat split. Qed.

(** ** Engines that have only seen plain node ids *)

Lemma PlainEngine_EngineState g : PlainEngine g -> EngineState g.
Proof.
  induction 1 as [|data g _|m g _ IH _].
  - apply state_new.
  - (* a load clears the store it starts from *)
    change (EventStormingAPI.loadGraph data g)
      with (EventStormingAPI.loadGraph data Graphology.empty).
    apply state_load, state_new.
  - now apply state_mutate.
Qed.

Lemma PlainEngine_wellFormed g : PlainEngine g -> wellFormed g = true.
Proof. intros H. now apply EngineState_wellFormed, PlainEngine_EngineState. Qed.

Lemma mutateAll_PlainEngine ms :
  forall g, PlainEngine g -> forallb plainMutation ms = true ->
            PlainEngine (mutateAll ms g).
Proof.
  induction ms as [|m ms IH]; intros g H P; simpl in *; auto.
  apply andb_prop in P. destruct P as [P1 P2].
  apply IH; auto. now apply plain_mutate.
Qed.

(** * Further properties of the store operations *)

(** ** Insert, look up, remove *)

Lemma filter_all_true {A} (p : A -> bool) l :
  (forall x, In x l -> p x = true) -> filter p l = l.
Proof.
  induction l as [|a l IH]; simpl; auto. intros H.
  rewrite (H a (or_introl eq_refl)), IH; auto.
Qed.

Lemma getNodeAttributes_snoc g k n x :
  Graphology.hasNode g k = false ->
  Graphology.getNodeAttributes
    (mkGraph (nodeMap g ++ [(k, n)]) (edgeMap g)) x
  = if k =? x then Some n else Graphology.getNodeAttributes g x.
Proof.
  intros Hk. unfold Graphology.getNodeAttributes. simpl.
  rewrite find_append. simpl.
  destruct (k =? x) eqn:E.
  - apply String.eqb_eq in E. subst x.
    apply hasNode_false_getNodeAttributes in Hk.
    unfold Graphology.getNodeAttributes in Hk.
    destruct (find _ (nodeMap g)); [discriminate|reflexivity].
  - destruct (find _ (nodeMap g)); reflexivity.
Qed.

(** X1.  After a successful [addNode], [getNode] at the node's id
    returns the node as given, every other id resolves as before, and
    the edges are untouched. *)
Theorem addNode_then_getNode node g r g' :
  EventStormingAPI.addNode node g = (Returned r, g') ->
  isValid r = true ->
  EventStormingAPI.getNode g' (id node) = Some node
  /\ (forall k, k <> id node ->
                EventStormingAPI.getNode g' k
                = EventStormingAPI.getNode g k)
  /\ edgeMap g' = edgeMap g.
Proof.
  intros H Hr. rewrite addNode_run in H.
  destruct (Graphology.hasNode g (id node)) eqn:Hn;
    [inversion H; subst; discriminate|].
  destruct (isValid (EventStormingAPI.validateNode node)) eqn:V;
    inversion H; subst; [|congruence].
  unfold EventStormingAPI.getNode. split; [|split; [|reflexivity]].
  - now rewrite getNode_attributes, getNodeAttributes_snoc,
      String.eqb_refl.
  - intros k Hk. rewrite !getNode_attributes, getNodeAttributes_snoc; auto.
    destruct (id node =? k) eqn:E; auto.
    apply String.eqb_eq in E. congruence.
Qed.

Lemma addNode_then_getNode_witness :
  EventStormingAPI.getNode
    (snd (EventStormingAPI.addNode
            (Examples.node "e1" "Order placed" event) Examples.issuing))
    "e1"
  = Some (Examples.node "e1" "Order placed" event).
Proof.
  apply (addNode_then_getNode
           (Examples.node "e1" "Order placed" event) Examples.issuing
           (mkResult true [] []) _).
  - vm_compute. reflexivity.
  - reflexivity.
Defined.

(** X2.  In a well-formed store, removing a node right after it was
    added gives back the store as it was before the addition. *)
Theorem addNode_then_removeNode node g r g1 :
  wellFormed g = true ->
  EventStormingAPI.addNode node g = (Returned r, g1) ->
  isValid r = true ->
  EventStormingAPI.removeNode (id node) g1
  = (Returned (mkResult true [] []), g).
Proof.
  intros W H Hr. rewrite addNode_run in H.
  destruct (Graphology.hasNode g (id node)) eqn:Hn;
    [inversion H; subst; discriminate|].
  destruct (isValid (EventStormingAPI.validateNode node)) eqn:V;
    inversion H; subst; [|congruence].
  rewrite removeNode_run, hasNode_snoc, String.eqb_refl, orb_true_r.
  f_equal. unfold without. simpl. destruct g as [nm em]. simpl in *.
  f_equal.
  - rewrite filter_app. simpl. rewrite String.eqb_refl. simpl.
    rewrite app_nil_r. apply filter_all_true. intros [k n] Hin. simpl.
    apply negb_true_iff. apply String.eqb_neq. intros ->.
    assert (Graphology.hasNode (mkGraph nm em) (id node) = true);
      [|congruence].
    apply hasNode_In. simpl. apply in_map_iff. exists (id node, n). auto.
  - apply filter_all_true. intros [key e] Hin. simpl.
    destruct (wellFormed_endpoints (mkGraph nm em) e W) as [Hs Ht].
    { unfold Graphology.edgeEntries. simpl. apply in_map_iff.
      exists (key, e). auto. }
    apply negb_true_iff, orb_false_iff. split; apply String.eqb_neq;
      intros E; rewrite E in *; congruence.
Qed.

Lemma addNode_then_removeNode_witness :
  EventStormingAPI.removeNode "e1"
    (snd (EventStormingAPI.addNode
            (Examples.node "e1" "Order placed" event) Examples.issuing))
  = (Returned (mkResult true [] []), Examples.issuing).
Proof.
  apply (addNode_then_removeNode
           (Examples.node "e1" "Order placed" event) Examples.issuing
           (mkResult true [] []) _).
  - vm_compute. reflexivity.
  - vm_compute. reflexivity.
  - reflexivity.
Defined.

(** X3.  Removing an edge right after it was added gives back the
    store as it was before the addition. *)
Theorem addEdge_then_removeEdge e g r g1 :
  EventStormingAPI.addEdge e g = (Returned r, g1) ->
  isValid r = true ->
  EventStormingAPI.removeEdge (source e) (target e) (elabel e) g1
  = (Returned (mkResult true [] []), g).
Proof.
  intros H Hr. rewrite addEdge_run in H.
  destruct (Graphology.getNodeAttributes g (source e));
    [|inversion H; subst; discriminate].
  destruct (Graphology.getNodeAttributes g (target e));
    [|inversion H; subst; discriminate].
  cbv zeta in H.
  destruct (isValid (EventStormingAPI.validateEdge e _ _)) eqn:V;
    simpl in H; [|inversion H; subst; congruence].
  destruct (Graphology.hasEdge g _) eqn:Hk;
    [inversion H; subst; discriminate|].
  destruct (Graphology.hasDirectedEdge g _ _); inversion H; subst.
  rewrite removeEdge_run. cbv zeta.
  unfold Graphology.hasEdge at 1. simpl. rewrite existsb_app. simpl.
  rewrite String.eqb_refl, orb_true_r. f_equal.
  destruct g as [nm em]. simpl in *. f_equal.
  rewrite filter_app. simpl. rewrite String.eqb_refl. simpl.
  rewrite app_nil_r. apply filter_all_true. intros [key e'] Hin. simpl.
  apply negb_true_iff. apply String.eqb_neq. intros ->.
  assert (Graphology.hasEdge (mkGraph nm em)
            (GraphologyAdapter.edgeKey (source e) (elabel e) (target e))
          = true); [|congruence].
  apply hasEdge_In. simpl. apply in_map_iff.
  exists (GraphologyAdapter.edgeKey (source e) (elabel e) (target e), e').
  split; [reflexivity|exact Hin].
Qed.

Lemma addEdge_then_removeEdge_witness :
  EventStormingAPI.removeEdge "c1" "e1" then_ Examples.generating
  = (Returned (mkResult true [] []),
     snd (EventStormingAPI.addNode
            (Examples.node "e1" "Order placed" event) Examples.issuing)).
Proof.
  apply (addEdge_then_removeEdge (Examples.edge "c1" then_ "e1")
           (snd (EventStormingAPI.addNode
                   (Examples.node "e1" "Order placed" event)
                   Examples.issuing))
           (mkResult true [] []) Examples.generating).
  - vm_compute. reflexivity.
  - reflexivity.
Defined.

Lemma getNodeAttributes_replaced g k n x :
  Graphology.hasNode g k = true ->
  Graphology.getNodeAttributes (replaced k n g) x
  = if k =? x then Some n else Graphology.getNodeAttributes g x.
Proof.
  intros Hk. unfold Graphology.getNodeAttributes, replaced. simpl.
  unfold Graphology.hasNode in Hk.
  induction (nodeMap g) as [|[k0 n0] l IH]; simpl in *; [discriminate|].
  destruct (k0 =? k) eqn:E0; simpl.
  - apply String.eqb_eq in E0. subst k0.
    destruct (k =? x) eqn:E1; simpl; auto.
    clear IH Hk. induction l as [|[k1 n1] l IH]; simpl; auto.
    destruct (k1 =? k) eqn:E2; simpl.
    + apply String.eqb_eq in E2. subst k1. now rewrite E1.
    + destruct (k1 =? x); auto.
  - simpl in Hk. specialize (IH Hk).
    destruct (k0 =? x) eqn:E1; simpl; auto.
    destruct (k =? x) eqn:E2; auto.
    apply String.eqb_eq in E1, E2. subst. rewrite String.eqb_refl in E0.
    discriminate.
Qed.

(** X4.  After a successful [updateNode], [getNode] at the id returns
    the former node merged with the updates; every other id resolves
    as before; the node keys and the edges are untouched. *)
Theorem updateNode_then_getNode k updates g r g' :
  EventStormingAPI.updateNode k updates g = (Returned r, g') ->
  isValid r = true ->
  exists currentNode,
    EventStormingAPI.getNode g k = Some currentNode
    /\ EventStormingAPI.getNode g' k = Some (spread currentNode updates)
    /\ (forall k', k' <> k ->
                   EventStormingAPI.getNode g' k'
                   = EventStormingAPI.getNode g k')
    /\ map fst (nodeMap g') = map fst (nodeMap g)
    /\ edgeMap g' = edgeMap g.
Proof.
  intros H Hr. rewrite updateNode_run in H.
  destruct (Graphology.getNodeAttributes g k) as [cur|] eqn:Hc;
    [|inversion H; subst; discriminate].
  cbv zeta in H.
  destruct (isValid (EventStormingAPI.validateNode _)) eqn:V;
    inversion H; subst; [|congruence].
  assert (Hk : Graphology.hasNode g k = true)
    by (apply hasNode_getNodeAttributes; eauto).
  exists cur. unfold EventStormingAPI.getNode.
  rewrite !getNode_attributes. split; [exact Hc|]. split; [|split; [|split]].
  - now rewrite getNodeAttributes_replaced, String.eqb_refl.
  - intros k' Hk'. rewrite !getNode_attributes, getNodeAttributes_replaced;
      auto.
    destruct (k =? k') eqn:E; auto. apply String.eqb_eq in E. congruence.
  - apply replaced_keys.
  - reflexivity.
Qed.

Lemma updateNode_then_getNode_witness :
  exists currentNode,
    EventStormingAPI.getNode Examples.issuing "c1" = Some currentNode
    /\ EventStormingAPI.getNode
         (snd (EventStormingAPI.updateNode "c1" (Examples.rename "c9")
                                           Examples.issuing)) "c1"
       = Some (spread currentNode (Examples.rename "c9")).
Proof.
  destruct (updateNode_then_getNode "c1" (Examples.rename "c9")
              Examples.issuing (mkResult true [] [])
              (snd (EventStormingAPI.updateNode
                      "c1" (Examples.rename "c9") Examples.issuing)))
    as [cur [H1 [H2 _]]].
  - vm_compute. reflexivity.
  - reflexivity.
  - exists cur. auto.
Defined.

(** ** The edges at a node *)

Lemma wellFormed_edges_NoDup g :
  wellFormed g = true -> NoDup (Graphology.edgeEntries g).
Proof.
  intros W. apply wellFormed_keys in W. now apply NoDup_map_inv in W.
Qed.

(** X5.  In an engine that has only seen plain node ids, for a stored
    node [N], [getNodeEdges N] lists every stored edge that has [N] as
    source or as target, and nothing else, each edge once (a self-loop
    included). *)
Theorem getNodeEdges_incident g N :
  PlainEngine g ->
  Graphology.hasNode g N = true ->
  NoDup (EventStormingAPI.getNodeEdges g N)
  /\ forall e, In e (EventStormingAPI.getNodeEdges g N) <->
               In e (Graphology.edgeEntries g)
               /\ (source e = N \/ target e = N).
Proof.
  intros P HN. apply PlainEngine_wellFormed in P as W.
  apply wellFormed_edges_NoDup in W.
  unfold EventStormingAPI.getNodeEdges, GraphologyAdapter.getNodeEdges.
  rewrite HN. cbn [negb]. unfold Graphology.attachedEdges,
    Graphology.inEdges, Graphology.outEdges. split.
  - apply NoDup_app.
    + now apply filter_NoDup.
    + now apply filter_NoDup, filter_NoDup.
    + intros e H1 H2. apply filter_In in H1, H2.
      destruct H1 as [_ H1]. destruct H2 as [_ H2].
      rewrite H1 in H2. discriminate.
  - intros e. rewrite in_app_iff, !filter_In, negb_true_iff,
      String.eqb_neq, !String.eqb_eq.
    destruct (string_dec (target e) N); tauto.
Qed.

Lemma getNodeEdges_incident_witness :
  NoDup (EventStormingAPI.getNodeEdges Examples.chain "n2")
  /\ forall e, In e (EventStormingAPI.getNodeEdges Examples.chain "n2") <->
               In e (Graphology.edgeEntries Examples.chain)
               /\ (source e = "n2" \/ target e = "n2").
Proof.
  apply (getNodeEdges_incident Examples.chain "n2").
  - apply mutateAll_PlainEngine; [apply plain_new|].
    vm_compute. reflexivity.
  - vm_compute. reflexivity.
Defined.

(** ** When the edge key identifies the triple *)

Lemma hyphenFree_cons c s :
  hyphenFree (String c s)
  = negb (JsString.code c =? 45)%nat && hyphenFree s.
Proof. reflexivity. Qed.

Lemma split_at_hyphen s1 :
  forall s2 r1 r2,
    hyphenFree s1 = true -> hyphenFree s2 = true ->
    (s1 ++ "-" ++ r1)%string = (s2 ++ "-" ++ r2)%string ->
    s1 = s2 /\ r1 = r2.
Proof.
  induction s1 as [|c s1 IH]; intros s2 r1 r2 H1 H2 E.
  - destruct s2 as [|c2 s2]; simpl in E.
    + inversion E. auto.
    + inversion E; subst c2. rewrite hyphenFree_cons in H2.
      discriminate.
  - destruct s2 as [|c2 s2]; simpl in E.
    + inversion E; subst c. rewrite hyphenFree_cons in H1. discriminate.
    + inversion E; subst c2. rewrite hyphenFree_cons in H1, H2.
      apply andb_prop in H1, H2.
      destruct (IH s2 r1 r2 (proj2 H1) (proj2 H2)) as [-> ->]; auto.
Qed.

Lemma labelString_hyphenFree l : hyphenFree (labelString l) = true.
Proof. destruct l; reflexivity. Qed.

Lemma labelString_injective l l' : labelString l = labelString l' -> l = l'.
Proof. destruct l, l'; intros H; try reflexivity; discriminate. Qed.

Lemma edgeKey_determines_triple s1 l1 t1 s2 l2 t2 :
  hyphenFree s1 = true ->
  hyphenFree s2 = true ->
  GraphologyAdapter.edgeKey s1 l1 t1 = GraphologyAdapter.edgeKey s2 l2 t2 ->
  s1 = s2 /\ l1 = l2 /\ t1 = t2.
Proof.
  unfold GraphologyAdapter.edgeKey. intros H1 H2 E.
  apply split_at_hyphen in E; auto. destruct E as [-> E].
  apply split_at_hyphen in E; auto using labelString_hyphenFree.
  destruct E as [E ->]. apply labelString_injective in E. auto.
Qed.

(** X6.  The key under which an edge is stored identifies its triple
    as long as the source ids contain no hyphen: two edges with
    hyphen-free sources that differ in source, label or target have
    different keys. *)
Theorem edgeKey_injective e1 e2 :
  hyphenFree (source e1) = true ->
  hyphenFree (source e2) = true ->
  e1 <> e2 ->
  GraphologyAdapter.edgeKey (source e1) (elabel e1) (target e1)
  <> GraphologyAdapter.edgeKey (source e2) (elabel e2) (target e2).
Proof.
  intros H1 H2 N E. apply N.
  destruct (edgeKey_determines_triple _ _ _ _ _ _ H1 H2 E) as [A [B C]].
  destruct e1, e2. simpl in *. now subst.
Qed.

Lemma edgeKey_injective_witness :
  GraphologyAdapter.edgeKey "place_order" then_ "order-placed"
  <> GraphologyAdapter.edgeKey "place_order" then_ "order-failed".
Proof.
  apply (edgeKey_injective (mkEdge "place_order" "order-placed" then_)
                           (mkEdge "place_order" "order-failed" then_)).
  - reflexivity.
  - reflexivity.
  - discriminate.
Defined.

(** For an ordered pair of node types the table permits at most one
    label. *)
Lemma label_determined_by_types l l' s t :
  EventStormingAPI.isValidCombination l s t = true ->
  EventStormingAPI.isValidCombination l' s t = true ->
  l = l'.
Proof.
  destruct l, s, t; simpl; try discriminate; intros _;
    destruct l'; simpl; try discriminate; reflexivity.
Qed.

Lemma hyphenFreeKeys_hasNode g k :
  hyphenFreeKeys g = true -> Graphology.hasNode g k = true ->
  hyphenFree k = true.
Proof.
  unfold hyphenFreeKeys. rewrite forallb_forall. intros H Hk.
  apply H. now apply hasNode_In.
Qed.

(** X7.  In a well-formed store whose edges all join permitted types
    and whose node keys contain no hyphen, [addEdge] of a permitted
    edge between stored nodes, its target not named like a property
    every object inherits, never raises: it reports an existing edge,
    leaving the store alone, when that very triple is stored, and
    otherwise appends the edge and returns a valid result. *)
Theorem addEdge_rejects_exactly_stored_triples g e s t :
  wellFormed g = true ->
  compatible g = true ->
  hyphenFreeKeys g = true ->
  plainKey (target e) = true ->
  Graphology.getNodeAttributes g (source e) = Some s ->
  Graphology.getNodeAttributes g (target e) = Some t ->
  EventStormingAPI.isValidCombination (elabel e) (type s) (type t) = true ->
  (In e (Graphology.edgeEntries g) ->
   EventStormingAPI.addEdge e g
   = (Returned (mkResult false
                  [EventStormingAPI.edgeExists (source e) (elabel e)
                                               (target e)] []), g))
  /\ (~ In e (Graphology.edgeEntries g) ->
      EventStormingAPI.addEdge e g
      = (Returned (mkResult true [] []),
         mkGraph (nodeMap g)
                 (edgeMap g ++ [(GraphologyAdapter.edgeKey
                                   (source e) (elabel e) (target e), e)]))).
Proof.
  intros W C F _ Hs Ht Hv. split.
  - intros He. now apply (addEdge_same_triple_rejected g e s t).
  - intros He. rewrite (addEdge_permitted e g s t Hs Ht Hv). cbv zeta.
    assert (Hsrc : Graphology.hasNode g (source e) = true)
      by (apply hasNode_getNodeAttributes; eauto).
    destruct (Graphology.hasEdge g _) eqn:Hk.
    { exfalso. apply He. apply hasEdge_In in Hk.
      apply in_map_iff in Hk. destruct Hk as [[key e'] [E Hin]].
      simpl in E. subst key.
      assert (He' : In e' (Graphology.edgeEntries g)).
      { apply in_map_iff.
        exists (GraphologyAdapter.edgeKey (source e) (elabel e) (target e),
                e'). auto. }
      destruct (wellFormed_endpoints g e' W He') as [Hsrc' _].
      apply wellFormed_parts in W. destruct W as [_ [_ [W3 _]]].
      rewrite forallb_forall in W3. specialize (W3 _ Hin). simpl in W3.
      apply String.eqb_eq in W3. symmetry in W3.
      apply edgeKey_determines_triple in W3;
        try now apply (hyphenFreeKeys_hasNode g).
      destruct W3 as [E1 [E2 E3]]. destruct e, e'. simpl in *.
      now subst. }
    destruct (Graphology.hasDirectedEdge g _ _) eqn:Hp; auto.
    exfalso. rewrite hasDirectedEdge_parallel in Hp.
    apply existsb_exists in Hp. destruct Hp as [e' [He' Hp]].
    apply parallelTo_spec in Hp. destruct Hp as [P1 P2].
    unfold compatible in C. rewrite forallb_forall in C.
    specialize (C e' He'). unfold edgeCompatible, typeOf in C.
    rewrite P1, P2, Hs, Ht in C. simpl in C.
    assert (L := label_determined_by_types _ _ _ _ C Hv).
    apply He. destruct e, e'. simpl in *. now subst.
Qed.

Lemma addEdge_rejects_exactly_stored_triples_witness :
  (In (Examples.edge "a1" issues "c1") (Graphology.edgeEntries Examples.issuing) ->
   EventStormingAPI.addEdge (Examples.edge "a1" issues "c1") Examples.issuing
   = (Returned (mkResult false
                  [EventStormingAPI.edgeExists "a1" issues "c1"] []),
      Examples.issuing))
  /\ (~ In (Examples.edge "a1" issues "c1")
           (Graphology.edgeEntries Examples.issuing) ->
      EventStormingAPI.addEdge (Examples.edge "a1" issues "c1") Examples.issuing
      = (Returned (mkResult true [] []),
         mkGraph (nodeMap Examples.issuing)
                 (edgeMap Examples.issuing
                  ++ [(GraphologyAdapter.edgeKey "a1" issues "c1",
                       Examples.edge "a1" issues "c1")]))).
Proof.
  apply (addEdge_rejects_exactly_stored_triples
           Examples.issuing (Examples.edge "a1" issues "c1")
           (Examples.node "a1" "Customer" actor) (Examples.node "c1" "Place order" command)).
  - vm_compute. reflexivity.
  - vm_compute. reflexivity.
  - vm_compute. reflexivity.
  - vm_compute. reflexivity.
  - vm_compute. reflexivity.
  - vm_compute. reflexivity.
  - vm_compute. reflexivity.
Defined.

(** ** What the engine's store always satisfies *)

Lemma noParallel_In l e e' :
  noParallel l = true -> NoDup l -> In e l -> In e' l ->
  source e' = source e -> target e' = target e -> e' = e.
Proof.
  induction l as [|a l IH]; simpl; [tauto|].
  rewrite andb_true_iff, negb_true_iff. intros [H1 H2] ND He He' Hs Ht.
  inversion ND as [|? ? Ha ND']; subst.
  assert (P : forall x y, In y l -> source y = source x ->
                          target y = target x ->
                          existsb (parallelTo x) l = true).
  { intros x y Hy E1 E2. apply existsb_exists. exists y. split; auto.
    apply parallelTo_spec. auto. }
  destruct He as [->|He], He' as [->|He']; auto.
  - rewrite (P e e' He' Hs Ht) in H1. discriminate.
  - rewrite (P e' e He (eq_sym Hs) (eq_sym Ht)) in H1. discriminate.
Qed.

(** X8.  Whatever loads and mutations an engine has been through, and
    whatever their outcomes, its store has no two nodes under one key,
    no edge with a missing endpoint, and no two edges from one node to
    the same other node. *)
Theorem engine_store_is_a_simple_graph g :
  EngineState g ->
  NoDup (map fst (nodeMap g))
  /\ (forall e, In e (Graphology.edgeEntries g) ->
                Graphology.hasNode g (source e) = true
                /\ Graphology.hasNode g (target e) = true)
  /\ (forall e e', In e (Graphology.edgeEntries g) ->
                   In e' (Graphology.edgeEntries g) ->
                   source e' = source e -> target e' = target e ->
                   e' = e).
Proof.
  intros S.
  assert (W : wellFormed g = true).
  { induction S as [|data g _ _|m g _ IH].
    - apply wellFormed_empty.
    - apply (load_wellFormed data g).
    - now apply mutate_wellFormed. }
  split; [|split].
  - apply wellFormed_parts in W. apply (proj1 (distinct_NoDup _)). tauto.
  - intros e He. now apply wellFormed_endpoints.
  - intros e e' He He'.
    apply (noParallel_In (Graphology.edgeEntries g)); auto.
    + apply wellFormed_parts in W. tauto.
    + now apply wellFormed_edges_NoDup.
Qed.

Lemma engine_store_is_a_simple_graph_witness :
  NoDup (map fst (nodeMap Examples.generating))
  /\ (forall e, In e (Graphology.edgeEntries Examples.generating) ->
                Graphology.hasNode Examples.generating (source e) = true
                /\ Graphology.hasNode Examples.generating (target e) = true)
  /\ (forall e e', In e (Graphology.edgeEntries Examples.generating) ->
                   In e' (Graphology.edgeEntries Examples.generating) ->
                   source e' = source e -> target e' = target e ->
                   e' = e).
Proof.
  apply (engine_store_is_a_simple_graph Examples.generating).
  unfold Examples.generating, Examples.issuing, mutateAll.
  repeat apply state_mutate. apply state_new.
Defined.

(** ** Boundary nodes *)

Lemma validateNode_type_refused n :
  existsb (NodeType_eqb (type n)) EventStormingAPI.validTypes = false ->
  isValid (EventStormingAPI.validateNode n) = false
  /\ In (EventStormingAPI.typeError (type n))
        (errors (EventStormingAPI.validateNode n)).
Proof.
  intros H. unfold EventStormingAPI.validateNode. rewrite H.
  cbn [negb isValid errors]. split.
  - rewrite !length_app. cbn [length]. apply Nat.eqb_neq. lia.
  - rewrite !in_app_iff. right. right. now left.
Qed.

(** X9.  A stored node of type [boundary] cannot be updated as long as
    the update keeps its type: [updateNode] returns an invalid result
    carrying the invalid-node-type error and leaves the store as it
    was, whatever the other fields of the update are. *)
Theorem updateNode_refuses_boundary g k currentNode updates :
  Graphology.getNodeAttributes g k = Some currentNode ->
  type currentNode = boundary ->
  p_type updates = None ->
  exists r,
    EventStormingAPI.updateNode k updates g = (Returned r, g)
    /\ isValid r = false
    /\ In (EventStormingAPI.typeError boundary) (errors r).
Proof.
  intros Hc Ht Hu. rewrite updateNode_run, Hc. cbv zeta.
  assert (T : type (spread currentNode updates) = boundary)
    by (unfold spread; simpl; now rewrite Hu).
  destruct (validateNode_type_refused (spread currentNode updates))
    as [V E]; [now rewrite T|].
  rewrite V, T in *. eauto.
Qed.

Lemma updateNode_refuses_boundary_witness :
  exists r,
    EventStormingAPI.updateNode "b1"
      (mkPartial None (Some "Payment") None [])
      (snd (EventStormingAPI.loadGraph
              (mkData [Examples.node "b1" "Checkout" boundary] [])
              Graphology.empty))
    = (Returned r,
       snd (EventStormingAPI.loadGraph
              (mkData [Examples.node "b1" "Checkout" boundary] [])
              Graphology.empty))
    /\ isValid r = false
    /\ In (EventStormingAPI.typeError boundary) (errors r).
Proof.
  apply (updateNode_refuses_boundary
           (snd (EventStormingAPI.loadGraph
                   (mkData [Examples.node "b1" "Checkout" boundary] [])
                   Graphology.empty))
           "b1" (Examples.node "b1" "Checkout" boundary)
           (mkPartial None (Some "Payment") None [])).
  - vm_compute. reflexivity.
  - reflexivity.
  - reflexivity.
Defined.

(** ** The two checks for commands without events *)

Lemma flat_map_filter_map {A B C} (proj : A -> B) (p q : B -> bool)
      (h : B -> C) (f : A -> list C) (l : list A) :
  (forall a, In a l ->
             f a = if p (proj a)
                   then if q (proj a) then [h (proj a)] else []
                   else []) ->
  flat_map f l = map h (filter q (filter p (map proj l))).
Proof.
  induction l as [|a l IH]; simpl; auto. intros H.
  rewrite (H a (or_introl eq_refl)), IH by auto.
  destruct (p (proj a)); simpl; auto. destruct (q (proj a)); auto.
Qed.

(** X10.  In an engine that has only seen plain node ids and whose
    nodes carry their keys as ids, the adapter's rule check and the
    API's [validateGraph] single out the same command nodes, in the
    same order: those without an outgoing [then] edge.  Each produces
    one message per such command, and the two verdicts agree. *)
Theorem rules_agree_with_validateGraph g :
  PlainEngine g ->
  idsAreKeys g = true ->
  let offending :=
    filter (fun c => negb (hasOutgoing g then_ c))
           (EventStormingAPI.getNodesByType g command) in
  violations (GraphologyAdapter.validateEventStormingRules g)
  = map GraphologyAdapter.commandViolation offending
  /\ errors (EventStormingAPI.validateGraph g)
     = map EventStormingAPI.commandError offending
  /\ rulesValid (GraphologyAdapter.validateEventStormingRules g)
     = isValid (EventStormingAPI.validateGraph g).
Proof.
  intros P I offending. apply PlainEngine_wellFormed in P as W.
  assert (V : violations (GraphologyAdapter.validateEventStormingRules g)
              = map GraphologyAdapter.commandViolation offending).
  { unfold GraphologyAdapter.validateEventStormingRules. cbn [violations].
    unfold offending, EventStormingAPI.getNodesByType,
      GraphologyAdapter.getNodesByType, GraphologyAdapter.filterNodes,
      Graphology.nodeEntries.
    apply (flat_map_filter_map snd
             (fun n => NodeType_eqb (type n) command)
             (fun c => negb (hasOutgoing g then_ c))).
    intros [k n] Hkn. simpl.
    destruct (NodeType_eqb (type n) command); auto.
    unfold idsAreKeys in I. rewrite forallb_forall in I.
    specialize (I _ Hkn). simpl in I. apply String.eqb_eq in I. subst k.
    rewrite getOutNeighborsByLabel_nonempty; auto.
    apply hasNode_In. apply in_map_iff. exists (id n, n). auto. }
  split; [exact V|]. split; [apply validateGraph_errors|].
  change (rulesValid (GraphologyAdapter.validateEventStormingRules g))
    with (length (violations (GraphologyAdapter.validateEventStormingRules g))
          =? 0)%nat.
  change (isValid (EventStormingAPI.validateGraph g))
    with (length (errors (EventStormingAPI.validateGraph g)) =? 0)%nat.
  rewrite V, validateGraph_errors. fold offending.
  now rewrite !length_map.
Qed.

Lemma rules_agree_with_validateGraph_witness :
  violations (GraphologyAdapter.validateEventStormingRules Examples.issuing)
  = map GraphologyAdapter.commandViolation
        (filter (fun c => negb (hasOutgoing Examples.issuing then_ c))
                (EventStormingAPI.getNodesByType Examples.issuing command))
  /\ errors (EventStormingAPI.validateGraph Examples.issuing)
     = map EventStormingAPI.commandError
           (filter (fun c => negb (hasOutgoing Examples.issuing then_ c))
                   (EventStormingAPI.getNodesByType Examples.issuing
                                                     command))
  /\ rulesValid (GraphologyAdapter.validateEventStormingRules
                   Examples.issuing)
     = isValid (EventStormingAPI.validateGraph Examples.issuing).
Proof.
  apply (rules_agree_with_validateGraph Examples.issuing).
  - apply mutateAll_PlainEngine; [apply plain_new|].
    vm_compute. reflexivity.
  - vm_compute. reflexivity.
Defined.

(** ** Import *)

Lemma forEach_invariant_in {A} (P : Graph -> Prop) (body : A -> Eff unit) xs :
  (forall x g, In x xs -> P g -> P (snd (body x g))) ->
  forall g, P g -> P (snd (forEach xs body g)).
Proof.
  induction xs as [|x xs IH]; simpl; auto.
  intros Hb g Hg. unfold bind.
  assert (H1 := Hb x g (or_introl eq_refl) Hg).
  destruct (body x g) as [[u|e] g1]; simpl in *; auto.
Qed.

Lemma load_contents ns es g0 :
  let g' := snd (GraphologyAdapter.loadFromEventStormingData
                   (mkData ns es) g0) in
  (forall n, In n (Graphology.nodeEntries g') -> In n ns)
  /\ (forall e, In e (Graphology.edgeEntries g') -> In e es).
Proof.
  cbv zeta.
  set (P := fun g =>
              (forall n, In n (Graphology.nodeEntries g) -> In n ns)
              /\ (forall e, In e (Graphology.edgeEntries g) -> In e es)).
  change (P (snd (GraphologyAdapter.loadFromEventStormingData
                    (mkData ns es) g0))).
  unfold GraphologyAdapter.loadFromEventStormingData.
  unfold bind, Graphology.clear, putStore. cbn [nodes edges].
  assert (HN : P (snd (forEach ns
                         (fun node => Graphology.addNode (id node) node)
                         Graphology.empty))).
  { apply forEach_invariant_in.
    - intros n g Hn [H1 H2]. unfold Graphology.addNode.
      destruct (Graphology.hasNode g (id n)); simpl; [split; auto|].
      split; auto. unfold Graphology.nodeEntries. simpl.
      intros x. rewrite map_app, in_app_iff. simpl.
      intros [Hx|[<-|[]]]; auto.
    - split; intros ? []. }
  destruct (forEach ns _ Graphology.empty) as [[u|e] g1]; simpl in *; auto.
  apply forEach_invariant_in; auto.
  intros e g He [H1 H2]. rewrite loadEdge_run. cbv zeta.
  destruct (_ && negb _); simpl; [|split; auto].
  destruct (Graphology.hasDirectedEdge _ _ _); simpl; [split; auto|].
  split; auto. unfold Graphology.edgeEntries. simpl.
  intros x. rewrite map_app, in_app_iff. simpl.
  intros [Hx|[<-|[]]]; auto.
Qed.

(** X11.  Given a parsed object that has both arrays, [importFromJSON]
    never raises, and neither its result nor the store it leaves
    depends on what the store held before: the previous content is
    gone whether the import succeeds or fails.  What the store holds
    afterwards are nodes and edges of the snapshot. *)
Theorem importFromJSON_replaces_store ns es g :
  exists r g',
    EventStormingAPI.importFromJSON (ParsedObject (Some ns) (Some es)) g
    = (Returned r, g')
    /\ EventStormingAPI.importFromJSON (ParsedObject (Some ns) (Some es))
         Graphology.empty
       = (Returned r, g')
    /\ (forall n, In n (Graphology.nodeEntries g') -> In n ns)
    /\ (forall e, In e (Graphology.edgeEntries g') -> In e es).
Proof.
  assert (L := load_contents ns es g). cbv zeta in L.
  assert (E : GraphologyAdapter.loadFromEventStormingData (mkData ns es) g
              = GraphologyAdapter.loadFromEventStormingData (mkData ns es)
                  Graphology.empty) by reflexivity.
  unfold EventStormingAPI.importFromJSON, tryCatch, bind at 1 3.
  rewrite <- E.
  destruct (GraphologyAdapter.loadFromEventStormingData (mkData ns es) g)
    as [[u|err] g1]; simpl in L |- *; unfold ret; eauto.
Qed.

(** ** Extended fields *)

(** X12.  [updateNodeExtendedFields] on a stored node always succeeds,
    whatever the node's type; it replaces the node's attributes by the
    spread of the given fields over them, which keeps the node's id,
    label and type, and it changes no other node, no key and no
    edge. *)
Theorem updateNodeExtendedFields_keeps_core g k currentNode fields :
  Graphology.getNodeAttributes g k = Some currentNode ->
  exists updated g',
    EventStormingAPI.updateNodeExtendedFields k fields g
    = (Returned (mkResult true [] []), g')
    /\ EventStormingAPI.getNode g' k = Some updated
    /\ id updated = id currentNode
    /\ label updated = label currentNode
    /\ type updated = type currentNode
    /\ extension updated
       = fold_left (fun x kv => setField (fst kv) (snd kv) x) fields
                   (extension currentNode)
    /\ (forall k', k' <> k ->
                   EventStormingAPI.getNode g' k'
                   = EventStormingAPI.getNode g k')
    /\ map fst (nodeMap g') = map fst (nodeMap g)
    /\ edgeMap g' = edgeMap g.
Proof.
  intros Hc.
  assert (Hn : Graphology.hasNode g k = true)
    by (apply hasNode_getNodeAttributes; eauto).
  exists (spread currentNode (mkPartial None None None fields)),
         (replaced k (spread currentNode (mkPartial None None None fields)) g).
  split.
  - unfold EventStormingAPI.updateNodeExtendedFields,
      GraphologyAdapter.updateNode, GraphologyAdapter.hasNode,
      Graphology.replaceNodeAttributes. eff.
    rewrite Hn. simpl. rewrite Hn, Hc. simpl. now rewrite Hn.
  - unfold EventStormingAPI.getNode. rewrite !getNode_attributes.
    split.
    { rewrite getNodeAttributes_replaced by exact Hn.
      now rewrite String.eqb_refl. }
    repeat (split; [reflexivity|]). split; [|split].
    + intros k' Hk. rewrite !getNode_attributes.
      rewrite getNodeAttributes_replaced by exact Hn.
      destruct (k =? k') eqn:E; auto. apply String.eqb_eq in E.
      congruence.
    + apply replaced_keys.
    + reflexivity.
Qed.

Lemma updateNodeExtendedFields_keeps_core_witness :
  exists updated g',
    EventStormingAPI.updateNodeExtendedFields "c1"
      [("businessContext", "Checkout")] Examples.issuing
    = (Returned (mkResult true [] []), g')
    /\ EventStormingAPI.getNode g' "c1" = Some updated
    /\ id updated = id (Examples.node "c1" "Place order" command)
    /\ label updated = label (Examples.node "c1" "Place order" command)
    /\ type updated = type (Examples.node "c1" "Place order" command)
    /\ extension updated
       = fold_left (fun x kv => setField (fst kv) (snd kv) x)
                   [("businessContext", "Checkout")]
                   (extension (Examples.node "c1" "Place order" command))
    /\ (forall k', k' <> "c1" ->
                   EventStormingAPI.getNode g' k'
                   = EventStormingAPI.getNode Examples.issuing k')
    /\ map fst (nodeMap g') = map fst (nodeMap Examples.issuing)
    /\ edgeMap g' = edgeMap Examples.issuing.
Proof.
  apply (updateNodeExtendedFields_keeps_core
           Examples.issuing "c1" (Examples.node "c1" "Place order" command)
           [("businessContext", "Checkout")]).
  vm_compute. reflexivity.
Defined.

(** ** All paths between two nodes *)

Lemma walk_cons g x y r :
  walk g (x :: y :: r) <-> edgeStep g x y /\ walk g (y :: r).
Proof. reflexivity. Qed.

Lemma NoDup_snoc {A} (l : list A) x : NoDup l -> ~ In x l -> NoDup (l ++ [x]).
Proof.
  intros N H. apply NoDup_app; auto.
  - repeat constructor. intros [].
  - intros y Hy [<-|[]]. contradiction.
Qed.

Lemma dfs_sound g t room :
  forall visited cur p ids,
    (forall x, In x visited <-> In x p) ->
    NoDup p -> ~ In t p ->
    In ids (GraphologyAdapter.dfs g t room visited cur p) ->
    exists q, ids = p ++ cur :: q
              /\ NoDup ids
              /\ walk g (cur :: q)
              /\ (exists pre, cur :: q = pre ++ [t])
              /\ length (cur :: q) <= room.
Proof.
  induction room as [|room IH]; intros visited cur p ids V N T H;
    simpl in H; [destruct H|].
  destruct (cur =? t) eqn:E.
  - apply String.eqb_eq in E. subst cur. destruct H as [<-|[]].
    exists []. repeat split.
    + now apply NoDup_snoc.
    + exists []. reflexivity.
    + simpl. lia.
  - apply String.eqb_neq in E.
    destruct (Graphology.member cur visited) eqn:M; [destruct H|].
    apply member_false in M. rewrite V in M.
    apply in_flat_map in H. destruct H as [nb [Hnb H]].
    apply IH in H.
    + destruct H as [q [-> [N' [W [[pre L] Len]]]]].
      exists (nb :: q). rewrite <- app_assoc in N' |- *. simpl in *.
      repeat split; auto.
      * now apply outNeighbors_In.
      * exists (cur :: pre). simpl. now rewrite L.
      * lia.
    + intros x. rewrite setAdd_In, in_app_iff, V. simpl. intuition.
    + now apply NoDup_snoc.
    + rewrite in_app_iff. simpl. intuition.
Qed.

Lemma dfs_complete g t room :
  forall visited cur p q,
    (forall x, In x visited <-> In x p) ->
    NoDup (p ++ cur :: q) ->
    walk g (cur :: q) ->
    (exists pre, cur :: q = pre ++ [t]) ->
    length (cur :: q) <= room ->
    In (p ++ cur :: q) (GraphologyAdapter.dfs g t room visited cur p).
Proof.
  induction room as [|room IH]; intros visited cur p q V N W [pre L] Len;
    simpl in Len; [lia|].
  simpl. apply NoDup_remove_2 in N as Hcur.
  destruct (cur =? t) eqn:E.
  - apply String.eqb_eq in E. subst cur.
    destruct q as [|y q]; [now left|]. exfalso. apply Hcur.
    rewrite in_app_iff. right.
    destruct pre as [|a pre]; [discriminate|].
    injection L as _ L. rewrite L. rewrite in_app_iff. right. now left.
  - apply String.eqb_neq in E.
    destruct (Graphology.member cur visited) eqn:M.
    { apply member_In in M. rewrite V in M. exfalso. apply Hcur.
      rewrite in_app_iff. now left. }
    destruct q as [|y q].
    { destruct pre as [|a [|b pre]]; simpl in L; try discriminate.
      injection L as L. congruence. }
    apply walk_cons in W. destruct W as [S W].
    apply in_flat_map. exists y. split; [now apply outNeighbors_In|].
    replace (p ++ cur :: y :: q) with ((p ++ [cur]) ++ y :: q)
      by now rewrite <- app_assoc.
    apply IH.
    + intros x. rewrite setAdd_In, in_app_iff, V. simpl. intuition.
    + now rewrite <- app_assoc.
    + exact W.
    + destruct pre as [|a pre]; [destruct q; discriminate|].
      injection L as _ L. eauto.
    + simpl in *. lia.
Qed.

(** X13.  For stored nodes [s] and [t], [findAllPaths s t maxLength]
    returns exactly the lists of ids that start at [s], end at [t],
    follow a stored edge at each step, visit no node twice, and have at
    most [maxLength + 1] nodes. *)
Theorem findAllPaths_spec g s t maxLength p :
  Graphology.hasNode g s = true ->
  Graphology.hasNode g t = true ->
  In p (GraphologyAdapter.findAllPaths g s t maxLength)
  <-> (exists q, p = s :: q)
      /\ (exists pre, p = pre ++ [t])
      /\ NoDup p
      /\ walk g p
      /\ length p <= maxLength + 1.
Proof.
  intros Hs Ht. unfold GraphologyAdapter.findAllPaths. rewrite Hs, Ht.
  cbn [negb orb]. split.
  - intros H. apply dfs_sound in H.
    + destruct H as [q [-> [N [W [L Len]]]]]. simpl in *.
      repeat split; eauto. lia.
    + intros x. tauto.
    + constructor.
    + intros [].
  - intros [[q ->] [L [N [W Len]]]].
    apply (dfs_complete g t (S maxLength) [] s [] q); auto.
    + intros x. tauto.
    + simpl in *. lia.
Qed.

Lemma findAllPaths_spec_witness :
  In ["n1"; "n2"; "n3"]
     (GraphologyAdapter.findAllPaths Examples.chain "n1" "n3" 10)
  <-> (exists q, ["n1"; "n2"; "n3"] = "n1" :: q)
      /\ (exists pre, ["n1"; "n2"; "n3"] = pre ++ ["n3"])
      /\ NoDup ["n1"; "n2"; "n3"]
      /\ walk Examples.chain ["n1"; "n2"; "n3"]
      /\ length ["n1"; "n2"; "n3"] <= 10 + 1.
Proof.
  apply (findAllPaths_spec Examples.chain "n1" "n3" 10 ["n1"; "n2"; "n3"]).
  - vm_compute. reflexivity.
  - vm_compute. reflexivity.
Defined.

(** ** Bottlenecks *)

Lemma insertByCentrality_In b l x :
  In x (GraphologyAdapter.insertByCentrality b l) <-> x = b \/ In x l.
Proof.
  induction l as [|a l IH]; simpl.
  - intuition.
  - destruct (centrality a <=? centrality b)%nat; simpl.
    + intuition.
    + rewrite IH. intuition.
Qed.

Lemma sortByCentrality_In l x :
  In x (GraphologyAdapter.sortByCentrality l) <-> In x l.
Proof.
  induction l as [|a l IH]; simpl; [tauto|].
  rewrite insertByCentrality_In, IH. intuition.
Qed.

Lemma insertByCentrality_sum b l :
  list_sum (map centrality (GraphologyAdapter.insertByCentrality b l))
  = centrality b + list_sum (map centrality l).
Proof.
  induction l as [|a l IH]; simpl; auto.
  destruct (centrality a <=? centrality b)%nat; simpl; auto.
  rewrite IH. lia.
Qed.

Lemma sortByCentrality_sum l :
  list_sum (map centrality (GraphologyAdapter.sortByCentrality l))
  = list_sum (map centrality l).
Proof.
  induction l as [|a l IH]; simpl; auto.
  now rewrite insertByCentrality_sum, IH.
Qed.

Lemma insertByCentrality_sorted b l :
  StronglySorted (fun x y => centrality y <= centrality x) l ->
  StronglySorted (fun x y => centrality y <= centrality x)
                 (GraphologyAdapter.insertByCentrality b l).
Proof.
  induction 1 as [|a l S IH F]; simpl.
  - repeat constructor.
  - destruct (centrality a <=? centrality b)%nat eqn:E.
    + apply Nat.leb_le in E. constructor.
      * now constructor.
      * constructor; auto. rewrite Forall_forall in *.
        intros y Hy. specialize (F y Hy). lia.
    + apply Nat.leb_gt in E. constructor; auto.
      rewrite Forall_forall in *. intros y Hy.
      apply insertByCentrality_In in Hy. destruct Hy as [->|Hy]; auto.
      lia.
Qed.

Lemma sortByCentrality_sorted l :
  StronglySorted (fun x y => centrality y <= centrality x)
                 (GraphologyAdapter.sortByCentrality l).
Proof.
  induction l as [|a l IH]; simpl; [constructor|].
  now apply insertByCentrality_sorted.
Qed.

(** Over distinct keys that include [x], exactly one key is [x]. *)
Lemma count_key keys x :
  NoDup keys -> In x keys ->
  list_sum (map (fun k => if x =? k then 1 else 0) keys) = 1.
Proof.
  induction 1 as [|k keys Hk N IH]; simpl; [tauto|].
  intros [->|Hx].
  - rewrite String.eqb_refl.
    assert (Z : list_sum (map (fun k => if x =? k then 1 else 0) keys) = 0).
    { clear IH N. induction keys as [|a keys IHk]; simpl; auto.
      destruct (x =? a) eqn:E.
      - apply String.eqb_eq in E. subst. exfalso. apply Hk. now left.
      - apply IHk. intros H. apply Hk. now right. }
    lia.
  - destruct (x =? k) eqn:E.
    + apply String.eqb_eq in E. subst. contradiction.
    + now apply IH.
Qed.

Lemma degree_sum (proj : EventStormingEdge -> string) keys es :
  NoDup keys ->
  (forall e, In e es -> In (proj e) keys) ->
  list_sum (map (fun k => length (filter (fun e => proj e =? k) es)) keys)
  = length es.
Proof.
  intros N. induction es as [|e es IH]; intros H; simpl.
  - clear. induction keys; simpl; auto.
  - rewrite <- IH by (intros; apply H; now right).
    change (S ?x) with (1 + x).
    rewrite <- (count_key keys (proj e) N (H e (or_introl eq_refl))).
    clear. induction keys as [|k keys IHk]; simpl; auto.
    rewrite IHk. destruct (proj e =? k); simpl; lia.
Qed.

Lemma list_sum_flat_map_positive {A} (f : A -> Bottleneck) (c : A -> nat)
      (l : list A) :
  (forall a, centrality (f a) = c a) ->
  list_sum (map centrality
              (flat_map (fun a => if (0 <? c a)%nat then [f a] else []) l))
  = list_sum (map c l).
Proof.
  intros H. induction l as [|a l IH]; simpl; auto.
  destruct (0 <? c a)%nat eqn:E; simpl.
  - now rewrite IH, H.
  - apply Nat.ltb_ge in E. rewrite IH. lia.
Qed.

Lemma list_sum_add {A} (f h : A -> nat) l :
  list_sum (map (fun a => f a + h a) l)
  = list_sum (map f l) + list_sum (map h l).
Proof. induction l as [|a l IH]; simpl; auto. rewrite IH. lia. Qed.

(** X14.  [findBottlenecks] lists the stored nodes that have at least
    one edge, each with the number of its incoming plus outgoing
    edges, in descending order of that number. *)
Theorem findBottlenecks_sorted_by_degree g :
  StronglySorted (fun x y => centrality y <= centrality x)
                 (GraphologyAdapter.findBottlenecks g)
  /\ (forall b, In b (GraphologyAdapter.findBottlenecks g) <->
                exists k, In (k, bottleneckNode b) (nodeMap g)
                          /\ centrality b
                             = Graphology.inDegree g k
                               + Graphology.outDegree g k
                          /\ 0 < centrality b).
Proof.
  unfold GraphologyAdapter.findBottlenecks. split.
  - apply sortByCentrality_sorted.
  - intros b. rewrite sortByCentrality_In, in_flat_map. cbv zeta. split.
    + intros [[k n] [Hkn Hb]]. simpl in Hb.
      destruct (0 <? _)%nat eqn:E; [|destruct Hb].
      destruct Hb as [<-|[]]. simpl. apply Nat.ltb_lt in E. eauto.
    + intros [k [Hk [Hc Hp]]]. exists (k, bottleneckNode b). split; auto.
      simpl. rewrite <- Hc. apply Nat.ltb_lt in Hp. rewrite Hp.
      left. destruct b. simpl in *. now subst.
Qed.

(** X15.  In a well-formed store the centralities reported by
    [findBottlenecks] add up to twice the number of stored edges:
    every edge is counted once at its source and once at its
    target. *)
Theorem findBottlenecks_counts_each_edge_twice g :
  wellFormed g = true ->
  list_sum (map centrality (GraphologyAdapter.findBottlenecks g))
  = 2 * length (edgeMap g).
Proof.
  unfold GraphologyAdapter.findBottlenecks.
  intros W. rewrite sortByCentrality_sum. cbv zeta.
  rewrite (list_sum_flat_map_positive
             (fun kv => mkBottleneck (snd kv)
                          (Graphology.inDegree g (fst kv)
                           + Graphology.outDegree g (fst kv)))
             (fun kv => Graphology.inDegree g (fst kv)
                        + Graphology.outDegree g (fst kv)))
    by reflexivity.
  rewrite list_sum_add.
  assert (N : NoDup (map fst (nodeMap g))).
  { apply wellFormed_parts in W. apply (proj1 (distinct_NoDup _)). tauto. }
  assert (L : length (edgeMap g) = length (Graphology.edgeEntries g))
    by (unfold Graphology.edgeEntries; now rewrite length_map).
  unfold Graphology.inDegree, Graphology.outDegree, Graphology.inEdges,
    Graphology.outEdges.
  rewrite <- (map_map fst (fun k => length (filter (fun e => target e =? k)
                                       (Graphology.edgeEntries g)))).
  rewrite <- (map_map fst (fun k => length (filter (fun e => source e =? k)
                                       (Graphology.edgeEntries g)))).
  rewrite !degree_sum; auto; try lia.
  - intros e He. apply hasNode_In.
    now apply (wellFormed_endpoints g e W).
  - intros e He. apply hasNode_In.
    now apply (wellFormed_endpoints g e W).
Qed.

Lemma findBottlenecks_counts_each_edge_twice_witness :
  list_sum (map centrality (GraphologyAdapter.findBottlenecks Examples.chain))
  = 2 * length (edgeMap Examples.chain).
Proof.
  apply (findBottlenecks_counts_each_edge_twice Examples.chain).
  vm_compute. reflexivity.
Defined.

(** ** Cycle detection *)

Lemma walk_app_r g l1 l2 : walk g (l1 ++ l2) -> walk g l2.
Proof.
  induction l1 as [|x l1 IH]; simpl; auto.
  destruct (l1 ++ l2) eqn:E.
  - destruct l1; [|discriminate]. simpl in E. subst. intros _. exact I.
  - intros [_ H]. auto.
Qed.

Lemma walk_snoc g l u n :
  walk g (l ++ [u]) -> edgeStep g u n -> walk g ((l ++ [u]) ++ [n]).
Proof.
  intros H S. induction l as [|x l IH]; simpl in *; auto.
  destruct (l ++ [u]) eqn:E; [destruct l; discriminate|].
  destruct H as [H1 H2]. split; [exact H1|]. exact (IH H2).
Qed.

Lemma walk_clos_trans g mid :
  forall x y, walk g (x :: mid ++ [y]) ->
              clos_trans string (edgeStep g) x y.
Proof.
  induction mid as [|m mid IH]; intros x y H.
  - simpl in H. apply t_step. tauto.
  - change (walk g (x :: m :: mid ++ [y])) in H. apply walk_cons in H.
    destruct H as [H1 H2]. eapply t_trans; [apply t_step; exact H1|].
    now apply IH.
Qed.

Lemma indexOf_skipn x l :
  In x l ->
  exists i pre rest,
    GraphologyAdapter.indexOf x l = Some i
    /\ l = pre ++ x :: rest
    /\ skipn i l = x :: rest.
Proof.
  induction l as [|y l IH]; simpl; [tauto|]. intros H.
  destruct (y =? x) eqn:E.
  - apply String.eqb_eq in E. subst. exists 0, [], l. auto.
  - destruct H as [->|H]; [now rewrite String.eqb_refl in E|].
    destruct (IH H) as [i [pre [rest [H1 [H2 H3]]]]].
    exists (S i), (y :: pre), rest. rewrite H1. simpl.
    repeat split; auto. now rewrite H2 at 1.
Qed.

Lemma setRemove_snoc v r :
  ~ In v r -> Graphology.setRemove v (r ++ [v]) = r.
Proof.
  unfold Graphology.setRemove. intros H. rewrite filter_app. simpl.
  rewrite String.eqb_refl. simpl. rewrite app_nil_r.
  induction r as [|a r IH]; simpl; auto.
  destruct (a =? v) eqn:E.
  - apply String.eqb_eq in E. subst. exfalso. apply H. now left.
  - simpl. rewrite IH; auto. intros Hin. apply H. now right.
Qed.

Lemma setAdd_fresh v r : ~ In v r -> Graphology.setAdd v r = r ++ [v].
Proof.
  intros H. unfold Graphology.setAdd.
  now rewrite (proj2 (member_false v r) H).
Qed.

Lemma closed_under_steps g (P : string -> Prop) :
  (forall x, P x -> forall y, edgeStep g x y -> P y) ->
  forall x z, clos_trans string (edgeStep g) x z -> P x -> P z.
Proof.
  intros C x z H. induction H as [x y S|x y z _ IH1 _ IH2]; eauto.
Qed.

Lemma unvisited_mono g V V' :
  (forall x, In x V -> In x V') -> unvisited g V' <= unvisited g V.
Proof.
  intros H. unfold unvisited. apply filter_length_weaker.
  intros x Hx. apply negb_true_iff in Hx. apply negb_true_iff.
  apply member_false in Hx. apply member_false. auto.
Qed.

(** The loop over the out-neighbours of [v], given what the recursive
    call does. *)
Lemma visit_fold g (dfs : string -> CycleSearch -> option CycleSearch)
      v p0 r0 bound :
  wellFormed g = true ->
  (forall n s,
      CycleInvariant g s ->
      Graphology.hasNode g n = true ->
      ~ In n (searchVisited s) ->
      (forall pre u, searchPath s = pre ++ [u] -> edgeStep g u n) ->
      unvisited g (searchVisited s) <= bound ->
      exists s',
        dfs n s = Some s'
        /\ CycleInvariant g s'
        /\ searchPath s' = searchPath s
        /\ searchRecStack s' = searchRecStack s
        /\ (forall x, In x (searchVisited s) -> In x (searchVisited s'))
        /\ In n (searchVisited s')
        /\ (searchCycles s' = [] -> searchCycles s = [])) ->
  forall ns s,
    (forall n, In n ns -> edgeStep g v n) ->
    CycleInvariant g s ->
    searchPath s = p0 ++ [v] ->
    searchRecStack s = r0 ++ [v] ->
    unvisited g (searchVisited s) <= bound ->
    exists s',
      fold_left (GraphologyAdapter.visitNeighbor dfs) ns (Some s) = Some s'
      /\ CycleInvariant g s'
      /\ searchPath s' = p0 ++ [v]
      /\ searchRecStack s' = r0 ++ [v]
      /\ (forall x, In x (searchVisited s) -> In x (searchVisited s'))
      /\ (searchCycles s' = [] -> searchCycles s = [])
      /\ (searchCycles s' = [] -> forall n, In n ns -> finished s' n).
Proof.
  intros W D. induction ns as [|n ns IH]; intros s E Inv P R B.
  - exists s. simpl. do 6 (split; auto). intros _ n [].
  - assert (En : edgeStep g v n) by (apply E; now left).
    assert (Hn : Graphology.hasNode g n = true).
    { destruct En as [e [He [_ <-]]]. now apply (wellFormed_endpoints g e W). }
    assert (step : exists s1,
               GraphologyAdapter.visitNeighbor dfs (Some s) n = Some s1
               /\ CycleInvariant g s1
               /\ searchPath s1 = p0 ++ [v]
               /\ searchRecStack s1 = r0 ++ [v]
               /\ (forall x, In x (searchVisited s) ->
                             In x (searchVisited s1))
               /\ (searchCycles s1 = [] -> searchCycles s = [])
               /\ (searchCycles s1 = [] -> finished s1 n)).
    { unfold GraphologyAdapter.visitNeighbor.
      destruct (Graphology.member n (searchVisited s)) eqn:M; cbn [negb].
      - apply member_In in M.
        destruct (Graphology.member n (searchRecStack s)) eqn:M2.
        + apply member_In in M2. cbv zeta.
          eexists. split; [reflexivity|].
          cbn [searchCycles searchVisited searchRecStack searchPath].
          assert (Z : searchCycles s
                      ++ [GraphologyAdapter.sliceFrom
                            (GraphologyAdapter.indexOf n (searchPath s))
                            (searchPath s) ++ [n]] = [] -> False)
            by (destruct (searchCycles s); discriminate).
          split; [|split; [exact P|split; [exact R|split; [auto|]]]].
          2:{ split; intros H; destruct (Z H). }
          constructor;
            cbn [searchCycles searchVisited searchRecStack searchPath].
          * apply (stack_is_path Inv).
          * apply (stack_visited Inv).
          * apply (path_simple Inv).
          * apply (path_walk Inv).
          * intros c Hc. apply in_app_iff in Hc.
            destruct Hc as [Hc|[<-|[]]]; [now apply (cycles_closed Inv)|].
            apply (stack_is_path Inv) in M2.
            destruct (indexOf_skipn n (searchPath s) M2)
              as [i [pre [rest [H1 [H2 H3]]]]].
            rewrite H1. unfold GraphologyAdapter.sliceFrom. rewrite H3.
            split; [|exists n, rest; reflexivity].
            assert (Wp := path_walk Inv). rewrite H2 in Wp.
            apply walk_app_r in Wp.
            assert (L : exists l, n :: rest = l ++ [v]).
            { rewrite P in H2. clear - H2.
              destruct (@exists_last _ (n :: rest)) as [l [a Hl]];
                [discriminate|].
              rewrite Hl in H2 |- *. rewrite app_assoc in H2.
              apply app_inj_tail in H2. destruct H2 as [_ ->]. eauto. }
            destruct L as [l L]. rewrite L in Wp |- *.
            now apply walk_snoc.
          * intros H. destruct (Z H).
        + apply member_false in M2. exists s.
          split; [reflexivity|]. do 5 (split; auto).
          intros _. split; auto.
      - apply member_false in M.
        destruct (D n s Inv Hn M) as [s1 [H1 [H2 [H3 [H4 [H5 [H6 H7]]]]]]];
          auto.
        { intros pre u Hp. rewrite P in Hp. apply app_inj_tail in Hp.
          destruct Hp as [_ <-]. exact En. }
        exists s1. rewrite H3, H4.
        split; [exact H1|]. do 5 (split; auto).
        intros _. split; auto.
        rewrite H4. intros Hin. apply M. now apply (stack_visited Inv). }
    destruct step as [s1 [H1 [I1 [P1 [R1 [V1 [C1 F1]]]]]]].
    cbn [fold_left]. rewrite H1.
    destruct (IH s1) as [s' [H2 [I2 [P2 [R2 [V2 [C2 F2]]]]]]]; auto.
    { intros n' Hn'. apply E. now right. }
    { etransitivity; [apply unvisited_mono; exact V1|exact B]. }
    exists s'. split; [exact H2|]. do 5 (split; auto).
    intros H n' [<-|Hn']; [|now apply F2].
    destruct (F1 (C2 H)) as [F3 F4]. split; [now apply V2|].
    rewrite R2. now rewrite R1 in F4.
Qed.

(** One call of the inner [dfs], on a node not visited before. *)
Lemma cycleDfs_spec g :
  wellFormed g = true ->
  forall fuel n s,
    CycleInvariant g s ->
    Graphology.hasNode g n = true ->
    ~ In n (searchVisited s) ->
    (forall pre u, searchPath s = pre ++ [u] -> edgeStep g u n) ->
    unvisited g (searchVisited s) <= fuel ->
    exists s',
      GraphologyAdapter.cycleDfs fuel g n s = Some s'
      /\ CycleInvariant g s'
      /\ searchPath s' = searchPath s
      /\ searchRecStack s' = searchRecStack s
      /\ (forall x, In x (searchVisited s) -> In x (searchVisited s'))
      /\ In n (searchVisited s')
      /\ (searchCycles s' = [] -> searchCycles s = []).
Proof.
  intros W. induction fuel as [|fuel IH]; intros n s Inv Hn Hv Hl B.
  - assert (L := unvisited_setAdd g n (searchVisited s) Hn
                   (proj2 (member_false _ _) Hv)). lia.
  - assert (Hr : ~ In n (searchRecStack s))
      by (intros H; apply Hv; now apply (stack_visited Inv)).
    assert (Hp : ~ In n (searchPath s))
      by (intros H; apply Hr; now apply (stack_is_path Inv)).
    cbn [GraphologyAdapter.cycleDfs]. cbv zeta.
    rewrite (setAdd_fresh n (searchRecStack s) Hr).
    set (st1 := mkSearch (searchCycles s)
                  (Graphology.setAdd n (searchVisited s))
                  (searchRecStack s ++ [n]) (searchPath s ++ [n])).
    assert (I1 : CycleInvariant g st1).
    { constructor; unfold finished, st1;
        cbn [searchCycles searchVisited searchRecStack searchPath].
      - intros x. rewrite !in_app_iff, (stack_is_path Inv). tauto.
      - intros x. rewrite in_app_iff, setAdd_In. simpl.
        intros [H|[->|[]]]; auto. right. now apply (stack_visited Inv).
      - apply NoDup_snoc; auto. apply (path_simple Inv).
      - destruct (searchPath s) as [|a l] eqn:E using rev_ind.
        + exact I.
        + clear IHl. apply walk_snoc.
          * rewrite <- E. apply (path_walk Inv).
          * now apply (Hl l a).
      - apply (cycles_closed Inv).
      - intros C x [F1 F2]. rewrite in_app_iff in F2. simpl in F2.
        apply setAdd_In in F1.
        assert (Fx : finished s x).
        { split; [|tauto]. destruct F1 as [->|F1]; tauto. }
        destruct (finished_closed Inv C Fx) as [S A]. split; auto.
        unfold finished in S.
        intros y Hy. destruct (S y Hy) as [Y1 Y2]. split.
        + apply setAdd_In. now right.
        + rewrite in_app_iff. simpl. intros [H|[->|[]]]; auto. }
    destruct (visit_fold g (GraphologyAdapter.cycleDfs fuel g) n
                (searchPath s) (searchRecStack s) fuel W IH
                (Graphology.outNeighbors g n) st1)
      as [s2 [H2 [I2 [P2 [R2 [V2 [C2 F2]]]]]]]; auto.
    { intros y Hy. now apply outNeighbors_In. }
    { assert (L := unvisited_setAdd g n (searchVisited s) Hn
                     (proj2 (member_false _ _) Hv)).
      unfold st1. cbn [searchVisited]. lia. }
    rewrite H2. eexists. split; [reflexivity|].
    cbn [searchCycles searchVisited searchRecStack searchPath].
    rewrite R2, P2, (setRemove_snoc n (searchRecStack s) Hr), removelast_last.
    assert (Vn : In n (searchVisited s2)).
    { apply V2. unfold st1. cbn [searchVisited]. apply setAdd_In. now left. }
    assert (Vs : forall x, In x (searchVisited s) -> In x (searchVisited s2)).
    { intros x Hx. apply V2. unfold st1. cbn [searchVisited].
      apply setAdd_In. now right. }
    split; [|do 5 (split; auto)].
    constructor; cbn [searchCycles searchVisited searchRecStack searchPath].
    + apply (stack_is_path Inv).
    + intros x Hx. apply Vs. now apply (stack_visited Inv).
    + apply (path_simple Inv).
    + apply (path_walk Inv).
    + apply (cycles_closed I2).
    + intros C x [F3 F4].
      assert (K : forall y, finished s2 y ->
                            forall z, edgeStep g y z -> finished s2 z)
        by (intros y Hy; apply (finished_closed I2 C Hy)).
      assert (Weak : forall y, finished s2 y ->
                               In y (searchVisited s2)
                               /\ ~ In y (searchRecStack s)).
      { intros y [Y1 Y2]. split; auto. rewrite R2, in_app_iff in Y2.
        tauto. }
      destruct (string_dec x n) as [->|Nx].
      * split.
        { intros y Hy. apply Weak. apply F2; auto.
          now apply outNeighbors_In. }
        { intros T. apply Operators_Properties.clos_trans_t1n in T.
          assert (Fn : finished s2 n).
          { inversion T as [y S|y z S T']; subst.
            - apply F2; auto. now apply outNeighbors_In.
            - apply Operators_Properties.clos_t1n_trans in T'.
              apply (closed_under_steps g (finished s2) K y n T').
              apply F2; auto. now apply outNeighbors_In. }
          destruct Fn as [_ Fn]. apply Fn. rewrite R2, in_app_iff.
          right. now left. }
      * assert (Fx : finished s2 x).
        { split; auto. rewrite R2, in_app_iff. simpl. intros [H|[H|[]]]; auto. }
        split.
        { intros y Hy. apply Weak. now apply (K x Fx). }
        { apply (finished_closed I2 C Fx). }
Qed.

(** The outer loop of [detectCycles] over the stored nodes. *)
Lemma detect_fold g fuel :
  wellFormed g = true ->
  length (nodeMap g) <= fuel ->
  forall kvs s,
    (forall kv, In kv kvs -> In kv (nodeMap g)) ->
    CycleInvariant g s ->
    searchPath s = [] ->
    searchRecStack s = [] ->
    exists s',
      fold_left
        (fun acc (kv : string * EventStormingNode) =>
           match acc with
           | None => None
           | Some s =>
               if negb (Graphology.member (fst kv) (searchVisited s))
               then GraphologyAdapter.cycleDfs fuel g (fst kv) s
               else Some s
           end) kvs (Some s) = Some s'
      /\ CycleInvariant g s'
      /\ searchPath s' = []
      /\ searchRecStack s' = []
      /\ (forall x, In x (searchVisited s) -> In x (searchVisited s'))
      /\ (forall kv, In kv kvs -> In (fst kv) (searchVisited s')).
Proof.
  intros W F. induction kvs as [|kv kvs IH]; intros s K Inv P R.
  - exists s. simpl. do 5 (split; auto). intros kv [].
  - cbn [fold_left].
    assert (step : exists s1,
               (if negb (Graphology.member (fst kv) (searchVisited s))
                then GraphologyAdapter.cycleDfs fuel g (fst kv) s
                else Some s) = Some s1
               /\ CycleInvariant g s1
               /\ searchPath s1 = []
               /\ searchRecStack s1 = []
               /\ (forall x, In x (searchVisited s) ->
                             In x (searchVisited s1))
               /\ In (fst kv) (searchVisited s1)).
    { destruct (Graphology.member (fst kv) (searchVisited s)) eqn:M;
        cbn [negb].
      - apply member_In in M. exists s. do 5 (split; auto).
      - apply member_false in M.
        destruct (cycleDfs_spec g W fuel (fst kv) s Inv)
          as [s1 [H1 [H2 [H3 [H4 [H5 [H6 _]]]]]]]; auto.
        + apply hasNode_In. apply in_map. apply K. now left.
        + intros pre u E. rewrite P in E. destruct pre; discriminate.
        + etransitivity; [apply unvisited_le|exact F].
        + exists s1. rewrite H3, H4. do 5 (split; auto). }
    destruct step as [s1 [H1 [I1 [P1 [R1 [V1 N1]]]]]]. rewrite H1.
    destruct (IH s1) as [s' [H2 [I2 [P2 [R2 [V2 N2]]]]]]; auto.
    { intros kv' Hkv'. apply K. now right. }
    exists s'. do 5 (split; auto).
    intros kv' [<-|Hkv']; auto.
Qed.

(** X16.  In a well-formed store, with fuel for as many nested calls
    as there are nodes, [detectCycles] returns; every list it returns
    is a closed walk along stored edges, first and last id the same;
    and it returns no list exactly when the stored edges form no
    cycle. *)
Theorem detectCycles_reports_cycles_iff_any g fuel :
  wellFormed g = true ->
  length (nodeMap g) <= fuel ->
  exists cycles,
    GraphologyAdapter.detectCycles fuel g = Some cycles
    /\ (forall c, In c cycles -> closedWalk g c)
    /\ (cycles = [] <->
        forall x, ~ clos_trans string (edgeStep g) x x).
Proof.
  intros W F. unfold GraphologyAdapter.detectCycles.
  destruct (detect_fold g fuel W F (nodeMap g) (mkSearch [] [] [] []))
    as [s [H [Inv [P [R [_ V]]]]]]; auto.
  { constructor; cbn [searchCycles searchVisited searchRecStack searchPath].
    - tauto.
    - intros x [].
    - constructor.
    - exact I.
    - intros c [].
    - intros _ x [[] _]. }
  rewrite H. exists (searchCycles s). split; [reflexivity|].
  split; [apply (cycles_closed Inv)|]. split.
  - intros C x T.
    assert (Hx : Graphology.hasNode g x = true).
    { apply Operators_Properties.clos_trans_t1n in T.
      assert (S : exists y, edgeStep g x y)
        by (inversion T; subst; eauto).
      destruct S as [y [e [He [<- _]]]].
      now apply (wellFormed_endpoints g e W). }
    apply hasNode_In in Hx. apply in_map_iff in Hx.
    destruct Hx as [kv [<- Hkv]].
    assert (Fx : finished s (fst kv)).
    { split; [now apply V|]. rewrite R. intros []. }
    now apply (finished_closed Inv C Fx).
  - intros A. destruct (searchCycles s) as [|c cs] eqn:C; auto.
    destruct (cycles_closed Inv c) as [Wc [x [mid E]]];
      [rewrite C; now left|].
    subst c. apply walk_clos_trans in Wc. now destruct (A x).
Qed.

Lemma detectCycles_reports_cycles_iff_any_witness :
  exists cycles,
    GraphologyAdapter.detectCycles 2 Examples.loop = Some cycles
    /\ (forall c, In c cycles -> closedWalk Examples.loop c)
    /\ (cycles = [] <->
        forall x, ~ clos_trans string (edgeStep Examples.loop) x x).
Proof.
  apply (detectCycles_reports_cycles_iff_any Examples.loop 2).
  - vm_compute. reflexivity.
  - vm_compute. lia.
Defined.

(** The cycle of the example: the policy leads back to the command. *)
Lemma detectCycles_example :
  GraphologyAdapter.detectCycles 2 Examples.loop = Some [["c1"; "e1"; "c1"]].
Proof. vm_compute. reflexivity. Qed.

(** ** Compound operations *)

Lemma invalid_has_errors (es : list string) :
  (length es =? 0)%nat = false -> es <> [].
Proof. destruct es; [discriminate|]. intros _. discriminate. Qed.

Lemma addNode_outcome node g :
  exists r g',
    EventStormingAPI.addNode node g = (Returned r, g')
    /\ ((errors r = []
         /\ Graphology.hasNode g (id node) = false
         /\ g' = mkGraph (nodeMap g ++ [(id node, node)]) (edgeMap g))
        \/ (errors r <> [] /\ g' = g)).
Proof.
  rewrite addNode_run. destruct (Graphology.hasNode g (id node)) eqn:H.
  - eexists _, _. split; [reflexivity|]. right. split; [discriminate|auto].
  - destruct (isValid (EventStormingAPI.validateNode node)) eqn:V.
    + eexists _, _. split; [reflexivity|]. left. auto.
    + eexists _, _. split; [reflexivity|]. right. split; auto.
      now apply invalid_has_errors.
Qed.

Lemma addEdge_outcome e g r g' :
  EventStormingAPI.addEdge e g = (Returned r, g') ->
  (errors r = []
   /\ g' = mkGraph (nodeMap g)
             (edgeMap g ++ [(GraphologyAdapter.edgeKey (source e) (elabel e)
                                                       (target e), e)]))
  \/ (errors r <> [] /\ g' = g).
Proof.
  rewrite addEdge_run.
  destruct (Graphology.getNodeAttributes g (source e)) as [s|].
  2:{ intros H. inversion H. right. split; [discriminate|auto]. }
  destruct (Graphology.getNodeAttributes g (target e)) as [t|].
  2:{ intros H. inversion H. right. split; [discriminate|auto]. }
  cbv zeta.
  destruct (isValid (EventStormingAPI.validateEdge e s t)) eqn:V; cbn [negb].
  2:{ intros H. inversion H. subst. right. split; auto.
      now apply invalid_has_errors. }
  destruct (Graphology.hasEdge g _).
  { intros H. inversion H. right. split; [discriminate|auto]. }
  destruct (Graphology.hasDirectedEdge g _ _); [discriminate|].
  intros H. inversion H. left. auto.
Qed.

Lemma hasNode_snoc_false l es k n x :
  Graphology.hasNode (mkGraph (l ++ [(k, n)]) es) x = false ->
  Graphology.hasNode (mkGraph l es) x = false /\ x <> k.
Proof.
  intros H.
  assert (T : forall y, In y (map fst l) \/ y = k ->
                        Graphology.hasNode (mkGraph (l ++ [(k, n)]) es) y
                        = true).
  { intros y Hy. apply hasNode_In. simpl. rewrite map_app, in_app_iff.
    simpl. intuition. }
  split.
  - destruct (Graphology.hasNode (mkGraph l es) x) eqn:E; auto.
    apply hasNode_In in E. rewrite T in H by auto. discriminate.
  - intros ->. rewrite T in H by auto. discriminate.
Qed.

(** X17.  When [createCommandFlow] returns a valid result, all seven
    steps have succeeded: the four ids were new and different from one
    another, and the store is the old one followed by the actor, the
    command, the aggregate and the event, and by the issues, on and
    then edges, in this order. *)
Theorem createCommandFlow_valid_adds_everything params g r g' :
  EventStormingAPI.createCommandFlow params g = (Returned r, g') ->
  isValid r = true ->
  let d := EventStormingAPI.describe (description params) in
  g' = mkGraph
         (nodeMap g
          ++ [(actorId params,
               mkNode (actorId params) (actorLabel params) actor d);
              (commandId params,
               mkNode (commandId params) (commandLabel params) command d);
              (aggregateId params,
               mkNode (aggregateId params) (aggregateLabel params)
                      aggregate d);
              (eventId params,
               mkNode (eventId params) (eventLabel params) event d)])
         (edgeMap g
          ++ [(GraphologyAdapter.edgeKey (actorId params) issues
                                         (commandId params),
               mkEdge (actorId params) (commandId params) issues);
              (GraphologyAdapter.edgeKey (commandId params) on
                                         (aggregateId params),
               mkEdge (commandId params) (aggregateId params) on);
              (GraphologyAdapter.edgeKey (commandId params) then_
                                         (eventId params),
               mkEdge (commandId params) (eventId params) then_)])
  /\ NoDup [actorId params; commandId params; aggregateId params;
            eventId params]
  /\ (forall k, In k [actorId params; commandId params; aggregateId params;
                      eventId params] ->
                Graphology.hasNode g k = false).
Proof.
  intros H V d. unfold EventStormingAPI.createCommandFlow, bind in H.
  destruct (addNode_outcome
              (mkNode (actorId params) (actorLabel params) actor d) g)
    as [r1 [g1 [E1 O1]]]. fold d in H. rewrite E1 in H.
  destruct (addNode_outcome
              (mkNode (commandId params) (commandLabel params) command d) g1)
    as [r2 [g2 [E2 O2]]]. rewrite E2 in H.
  destruct (addNode_outcome
              (mkNode (aggregateId params) (aggregateLabel params)
                      aggregate d) g2)
    as [r3 [g3 [E3 O3]]]. rewrite E3 in H.
  destruct (addNode_outcome
              (mkNode (eventId params) (eventLabel params) event d) g3)
    as [r4 [g4 [E4 O4]]]. rewrite E4 in H.
  destruct (EventStormingAPI.addEdge
              (mkEdge (actorId params) (commandId params) issues) g4)
    as [[r5|err] g5] eqn:E5; [|discriminate].
  destruct (EventStormingAPI.addEdge
              (mkEdge (commandId params) (aggregateId params) on) g5)
    as [[r6|err] g6] eqn:E6; [|discriminate].
  destruct (EventStormingAPI.addEdge
              (mkEdge (commandId params) (eventId params) then_) g6)
    as [[r7|err] g7] eqn:E7; [|discriminate].
  apply addEdge_outcome in E5, E6, E7.
  unfold ret in H. inversion H; subst r g'. clear H.
  unfold EventStormingAPI.combineResults in V. cbn [isValid] in V.
  apply Nat.eqb_eq in V. apply length_zero_iff_nil in V.
  cbn [flat_map] in V. rewrite app_nil_r in V.
  repeat (apply app_eq_nil in V; destruct V as [? V]).
  destruct O1 as [[_ [F1 ->]]|[N _]]; [|contradiction].
  destruct O2 as [[_ [F2 ->]]|[N _]]; [|contradiction].
  destruct O3 as [[_ [F3 ->]]|[N _]]; [|contradiction].
  destruct O4 as [[_ [F4 ->]]|[N _]]; [|contradiction].
  destruct E5 as [[_ ->]|[N _]]; [|contradiction].
  destruct E6 as [[_ ->]|[N _]]; [|contradiction].
  destruct E7 as [[_ ->]|[N _]]; [|contradiction].
  cbn [id nodeMap edgeMap source target elabel] in *.
  split; [now rewrite <- !app_assoc|].
  apply hasNode_snoc_false in F4. destruct F4 as [F4 D43].
  apply hasNode_snoc_false in F4. destruct F4 as [F4 D42].
  apply hasNode_snoc_false in F4. destruct F4 as [F4 D41].
  apply hasNode_snoc_false in F3. destruct F3 as [F3 D32].
  apply hasNode_snoc_false in F3. destruct F3 as [F3 D31].
  apply hasNode_snoc_false in F2. destruct F2 as [F2 D21].
  assert (G : forall x, Graphology.hasNode (mkGraph (nodeMap g) (edgeMap g)) x
                        = Graphology.hasNode g x) by (destruct g; reflexivity).
  rewrite G in F4, F3, F2.
  split.
  - repeat constructor; simpl; intuition congruence.
  - simpl. intros k [<-|[<-|[<-|[<-|[]]]]]; auto.
Qed.

Lemma createCommandFlow_valid_adds_everything_witness :
  let params := mkFlowParams "customer" "Customer" "place-order"
                  "Place order" "order" "Order" "order-placed"
                  "Order placed" None in
  let g' := snd (EventStormingAPI.createCommandFlow params Graphology.empty) in
  g' = mkGraph
         [("customer", mkNode "customer" "Customer" actor []);
          ("place-order", mkNode "place-order" "Place order" command []);
          ("order", mkNode "order" "Order" aggregate []);
          ("order-placed", mkNode "order-placed" "Order placed" event [])]
         [(GraphologyAdapter.edgeKey "customer" issues "place-order",
           mkEdge "customer" "place-order" issues);
          (GraphologyAdapter.edgeKey "place-order" on "order",
           mkEdge "place-order" "order" on);
          (GraphologyAdapter.edgeKey "place-order" then_ "order-placed",
           mkEdge "place-order" "order-placed" then_)]
  /\ NoDup ["customer"; "place-order"; "order"; "order-placed"]
  /\ (forall k, In k ["customer"; "place-order"; "order"; "order-placed"] ->
                Graphology.hasNode Graphology.empty k = false).
Proof.
  intros params g'.
  apply (createCommandFlow_valid_adds_everything
           params Graphology.empty (mkResult true [] []) g').
  - vm_compute. reflexivity.
  - reflexivity.
Defined.

(** ** Boundaries are out of reach of the mutations *)

Lemma validateNode_valid_type n :
  isValid (EventStormingAPI.validateNode n) = true -> type n <> boundary.
Proof.
  intros V E.
  destruct (validateNode_type_refused n) as [F _]; [now rewrite E|].
  congruence.
Qed.

Lemma mutate_keeps_boundary_free m g :
  (forall k n, In (k, n) (nodeMap g) -> type n <> boundary) ->
  (forall k e, In (k, e) (edgeMap g) -> elabel e <> marks_pivotal) ->
  (forall k n, In (k, n) (nodeMap (snd (EventStormingAPI.mutate m g))) ->
               type n <> boundary)
  /\ (forall k e, In (k, e) (edgeMap (snd (EventStormingAPI.mutate m g))) ->
                  elabel e <> marks_pivotal).
Proof.
  intros QN QE. destruct m; simpl.
  - rewrite addNode_run. destruct (Graphology.hasNode g (id node)); auto.
    destruct (isValid _) eqn:V; auto. simpl. split; auto.
    intros k n H. apply in_app_iff in H. destruct H as [H|[H|[]]]; eauto.
    inversion H; subst. now apply validateNode_valid_type.
  - rewrite updateNode_run.
    destruct (Graphology.getNodeAttributes g nodeId) as [cur|]; auto.
    cbv zeta. destruct (isValid _) eqn:V; auto. simpl. split; auto.
    intros k n H. apply in_map_iff in H. destruct H as [[k0 n0] [E H]].
    simpl in E. destruct (k0 =? nodeId).
    + inversion E; subst. now apply validateNode_valid_type.
    + inversion E; subst. eauto.
  - rewrite removeNode_run. destruct (Graphology.hasNode g nodeId); auto.
    simpl. split.
    + intros k n H. apply filter_In in H. destruct H as [H _]. eauto.
    + intros k e H. apply filter_In in H. destruct H as [H _]. eauto.
  - rewrite addEdge_run.
    destruct (Graphology.getNodeAttributes g (source edge)) as [s|]; auto.
    destruct (Graphology.getNodeAttributes g (target edge)) as [t|] eqn:Ht;
      auto.
    cbv zeta. destruct (isValid _) eqn:V; cbn [negb]; auto.
    destruct (Graphology.hasEdge g _); auto.
    destruct (Graphology.hasDirectedEdge g _ _); auto.
    simpl. split; auto.
    intros k e H. apply in_app_iff in H. destruct H as [H|[H|[]]]; eauto.
    inversion H; subst. intros L. apply validateEdge_valid in V.
    rewrite L in V. apply getNodeAttributes_In in Ht.
    apply (QN _ _ Ht). destruct (type s), (type t); try discriminate.
    reflexivity.
  - rewrite removeEdge_run. cbv zeta. destruct (Graphology.hasEdge g _); auto.
    simpl. split; auto.
    intros k e H. apply filter_In in H. destruct H as [H _]. eauto.
Qed.

(** X18.  No sequence of API mutations applied to an empty store ever
    stores a node of type [boundary] or an edge labelled
    [marks pivotal]: the node validation does not list the type, and
    the edge needs a boundary as its target. *)
Theorem mutations_never_store_a_boundary ms :
  (forall n, In n (Graphology.nodeEntries (mutateAll ms Graphology.empty)) ->
             type n <> boundary)
  /\ (forall e,
         In e (Graphology.edgeEntries (mutateAll ms Graphology.empty)) ->
         elabel e <> marks_pivotal).
Proof.
  assert (G : forall g,
             (forall k n, In (k, n) (nodeMap g) -> type n <> boundary) ->
             (forall k e, In (k, e) (edgeMap g) ->
                          elabel e <> marks_pivotal) ->
             (forall k n, In (k, n) (nodeMap (mutateAll ms g)) ->
                          type n <> boundary)
             /\ (forall k e, In (k, e) (edgeMap (mutateAll ms g)) ->
                             elabel e <> marks_pivotal)).
  { induction ms as [|m ms IH]; intros g QN QE; simpl; auto.
    destruct (mutate_keeps_boundary_free m g QN QE) as [QN' QE'].
    now apply IH. }
  destruct (G Graphology.empty) as [QN QE]; try (intros ? ? []).
  unfold Graphology.nodeEntries, Graphology.edgeEntries. split.
  - intros n H. apply in_map_iff in H. destruct H as [[k n'] [<- H]]. eauto.
  - intros e H. apply in_map_iff in H. destruct H as [[k e'] [<- H]]. eauto.
Qed.

(** ** Guards and preconditions *)

Lemma addItems_valid t l c items :
  forall g rs g',
    EventStormingAPI.addItems t l c items g = (Returned rs, g') ->
    flat_map errors rs = [] ->
    g' = mkGraph
           (nodeMap g
            ++ map (fun item =>
                      (itemId item,
                       mkNode (itemId item) (itemLabel item) t
                              (EventStormingAPI.describe
                                 (itemDescription item)))) items)
           (edgeMap g
            ++ map (fun item =>
                      (GraphologyAdapter.edgeKey c l (itemId item),
                       mkEdge c (itemId item) l)) items).
Proof.
  induction items as [|item items IH]; intros g rs g' H V.
  - simpl in H. unfold ret in H. inversion H. rewrite !app_nil_r.
    now destruct g'.
  - cbn [EventStormingAPI.addItems] in H. unfold bind in H.
    destruct (addNode_outcome
                (mkNode (itemId item) (itemLabel item) t
                        (EventStormingAPI.describe (itemDescription item))) g)
      as [r1 [g1 [E1 O1]]]. rewrite E1 in H.
    destruct (EventStormingAPI.addEdge (mkEdge c (itemId item) l) g1)
      as [[r2|err] g2] eqn:E2; [|discriminate].
    destruct (EventStormingAPI.addItems t l c items g2)
      as [[rs'|err] g3] eqn:E3; [|discriminate].
    unfold ret in H. inversion H; subst rs g'. clear H.
    cbn [flat_map] in V.
    apply app_eq_nil in V. destruct V as [V1 V].
    apply app_eq_nil in V. destruct V as [V2 V].
    apply addEdge_outcome in E2.
    destruct O1 as [[_ [_ ->]]|[N _]]; [|contradiction].
    destruct E2 as [[_ ->]|[N _]]; [|contradiction].
    rewrite (IH _ _ _ E3 V). cbn [nodeMap edgeMap source target elabel map].
    now rewrite <- !app_assoc.
Qed.

(** X19.  When [addCommandGuards] returns a valid result, every guard
    has been added: the store is the old one followed by one node of
    type [guards] per item and one [if guard] edge from the command to
    it, in the order of the items. *)
Theorem addCommandGuards_valid_adds_all commandId guardItems g r g' :
  EventStormingAPI.addCommandGuards commandId guardItems g
  = (Returned r, g') ->
  isValid r = true ->
  g' = mkGraph
         (nodeMap g
          ++ map (fun item =>
                    (itemId item,
                     mkNode (itemId item) (itemLabel item) guards
                            (EventStormingAPI.describe
                               (itemDescription item)))) guardItems)
         (edgeMap g
          ++ map (fun item =>
                    (GraphologyAdapter.edgeKey commandId if_guard
                                               (itemId item),
                     mkEdge commandId (itemId item) if_guard)) guardItems).
Proof.
  unfold EventStormingAPI.addCommandGuards, bind. intros H V.
  destruct (EventStormingAPI.addItems guards if_guard commandId guardItems g)
    as [[rs|err] g1] eqn:E; [|discriminate].
  unfold ret in H. inversion H; subst r g'.
  apply (addItems_valid _ _ _ _ _ _ _ E).
  unfold EventStormingAPI.combineResults in V. cbn [isValid] in V.
  apply Nat.eqb_eq in V. now apply length_zero_iff_nil in V.
Qed.

Lemma addCommandGuards_valid_adds_all_witness :
  snd (EventStormingAPI.addCommandGuards "c1"
         [mkItem "g1" "Cart not empty" None] Examples.issuing)
  = mkGraph
      (nodeMap Examples.issuing
       ++ [("g1", mkNode "g1" "Cart not empty" guards [])])
      (edgeMap Examples.issuing
       ++ [(GraphologyAdapter.edgeKey "c1" if_guard "g1",
            mkEdge "c1" "g1" if_guard)]).
Proof.
  apply (addCommandGuards_valid_adds_all
           "c1" [mkItem "g1" "Cart not empty" None] Examples.issuing
           (mkResult true [] [])).
  - vm_compute. reflexivity.
  - reflexivity.
Defined.

(** X20.  When [addCommandPreconditions] returns a valid result, every
    precondition has been added: the store is the old one followed by
    one node of type [preconditions] per item and one
    [if preconditions] edge from the command to it, in the order of
    the items. *)
Theorem addCommandPreconditions_valid_adds_all commandId items g r g' :
  EventStormingAPI.addCommandPreconditions commandId items g
  = (Returned r, g') ->
  isValid r = true ->
  g' = mkGraph
         (nodeMap g
          ++ map (fun item =>
                    (itemId item,
                     mkNode (itemId item) (itemLabel item) preconditions
                            (EventStormingAPI.describe
                               (itemDescription item)))) items)
         (edgeMap g
          ++ map (fun item =>
                    (GraphologyAdapter.edgeKey commandId if_preconditions
                                               (itemId item),
                     mkEdge commandId (itemId item) if_preconditions))
                 items).
Proof.
  unfold EventStormingAPI.addCommandPreconditions, bind. intros H V.
  destruct (EventStormingAPI.addItems preconditions if_preconditions
              commandId items g)
    as [[rs|err] g1] eqn:E; [|discriminate].
  unfold ret in H. inversion H; subst r g'.
  apply (addItems_valid _ _ _ _ _ _ _ E).
  unfold EventStormingAPI.combineResults in V. cbn [isValid] in V.
  apply Nat.eqb_eq in V. now apply length_zero_iff_nil in V.
Qed.

Lemma addCommandPreconditions_valid_adds_all_witness :
  snd (EventStormingAPI.addCommandPreconditions "c1"
         [mkItem "p1" "Logged in" (Some "The customer has a session")]
         Examples.issuing)
  = mkGraph
      (nodeMap Examples.issuing
       ++ [("p1", mkNode "p1" "Logged in" preconditions
                         [("description", "The customer has a session")])])
      (edgeMap Examples.issuing
       ++ [(GraphologyAdapter.edgeKey "c1" if_preconditions "p1",
            mkEdge "c1" "p1" if_preconditions)]).
Proof.
  apply (addCommandPreconditions_valid_adds_all
           "c1" [mkItem "p1" "Logged in" (Some "The customer has a session")]
           Examples.issuing (mkResult true [] [])).
  - vm_compute. reflexivity.
  - reflexivity.
Defined.

(** ** Views of a command *)

Lemma find_hd_filter {A} (p : A -> bool) l :
  find p l = hd_error (filter p l).
Proof.
  induction l as [|a l IH]; simpl; auto. destruct (p a); auto.
Qed.

(** X21.  The legacy [getCommandFlow] is [getProcessFlow] without the
    triggered policies: for every store and id, both are null
    together, and otherwise they agree on the command, the actor, the
    aggregate, the guards, the preconditions, the events and the
    branching logic. *)
Theorem getCommandFlow_agrees_with_getProcessFlow g commandId :
  EventStormingAPI.getCommandFlow g commandId
  = option_map
      (fun flow =>
         mkCommandFlow (flowCommand flow) (flowActor flow)
                       (flowAggregate flow) (flowGuards flow)
                       (flowPreconditions flow) (flowEvents flow)
                       (flowBranchingLogic flow))
      (EventStormingAPI.getProcessFlow g commandId).
Proof.
  unfold EventStormingAPI.getCommandFlow, EventStormingAPI.getProcessFlow,
    EventStormingAPI.getNode.
  destruct (GraphologyAdapter.getNode g commandId) as [c|]; auto.
  destruct (negb (NodeType_eqb (type c) command)); auto.
  cbv zeta. simpl. unfold EventStormingAPI.ofType.
  now rewrite !find_hd_filter.
Qed.

Lemma stored_node_lookup g n :
  wellFormed g = true -> idsAreKeys g = true ->
  In n (Graphology.nodeEntries g) ->
  Graphology.getNodeAttributes g (id n) = Some n.
Proof.
  intros W K H. apply in_map_iff in H. destruct H as [[k n'] [E H]].
  simpl in E. subst n'.
  assert (Ek : k = id n).
  { unfold idsAreKeys in K. rewrite forallb_forall in K.
    specialize (K _ H). simpl in K. now apply String.eqb_eq in K. }
  subst k.
  assert (Hn : Graphology.hasNode g (id n) = true).
  { apply hasNode_In. apply in_map_iff. exists (id n, n). auto. }
  apply hasNode_getNodeAttributes in Hn. destruct Hn as [m Hm].
  rewrite Hm. f_equal. apply getNodeAttributes_In in Hm.
  apply wellFormed_parts in W. destruct W as [W _].
  apply distinct_NoDup in W.
  assert (U : forall (l : list (string * EventStormingNode)) k a b,
             NoDup (map fst l) -> In (k, a) l -> In (k, b) l -> a = b).
  { clear. induction l as [|[k0 x] l IH]; simpl; [tauto|].
    intros k a b N [Ha|Ha] [Hb|Hb].
    - congruence.
    - inversion Ha; subst. inversion N; subst. exfalso. apply H1.
      apply in_map_iff. exists (k, b). auto.
    - inversion Hb; subst. inversion N; subst. exfalso. apply H1.
      apply in_map_iff. exists (k, a). auto.
    - inversion N; subst. eauto. }
  exact (U _ _ _ _ W Hm H).
Qed.

(** X22.  In an engine that has only seen plain node ids and whose
    nodes carry their keys as ids, [getAllProcessFlows] returns one
    process flow per command node, in store order, each with that
    command as its command. *)
Theorem getAllProcessFlows_one_per_command g :
  PlainEngine g ->
  idsAreKeys g = true ->
  map flowCommand (EventStormingAPI.getAllProcessFlows g)
  = EventStormingAPI.getNodesByType g command.
Proof.
  intros P K. apply PlainEngine_wellFormed in P as W.
  unfold EventStormingAPI.getAllProcessFlows.
  assert (H : forall cmd, In cmd (EventStormingAPI.getNodesByType g command) ->
                          exists flow,
                            EventStormingAPI.getProcessFlow g (id cmd)
                            = Some flow /\ flowCommand flow = cmd).
  { intros cmd Hc. unfold EventStormingAPI.getNodesByType,
      GraphologyAdapter.getNodesByType, GraphologyAdapter.filterNodes in Hc.
    apply filter_In in Hc. destruct Hc as [Hin Ht].
    unfold EventStormingAPI.getProcessFlow.
    rewrite getNode_attributes, (stored_node_lookup g cmd W K Hin), Ht.
    cbn [negb]. cbv zeta. eexists. split; reflexivity. }
  induction (EventStormingAPI.getNodesByType g command) as [|cmd l IH];
    simpl; auto.
  destruct (H cmd (or_introl eq_refl)) as [flow [E1 E2]].
  unfold EventStormingAPI.present in *. simpl. rewrite E1. simpl.
  rewrite E2. f_equal. apply IH. intros c Hc. apply H. now right.
Qed.

Lemma getAllProcessFlows_one_per_command_witness :
  map flowCommand (EventStormingAPI.getAllProcessFlows Examples.chain)
  = EventStormingAPI.getNodesByType Examples.chain command.
Proof.
  apply (getAllProcessFlows_one_per_command Examples.chain).
  - apply mutateAll_PlainEngine; [apply plain_new|].
    vm_compute. reflexivity.
  - vm_compute. reflexivity.
Defined.

(** ** Statistics *)

Lemma increment_sum {K} (eqb : K -> K -> bool) key acc :
  list_sum (map snd (EventStormingAPI.increment eqb key acc))
  = S (list_sum (map snd acc)).
Proof.
  induction acc as [|[k n] acc IH]; simpl; auto.
  destruct (eqb k key); simpl; auto. rewrite IH. lia.
Qed.

Lemma fold_increment_sum {K A} (eqb : K -> K -> bool) (f : A -> K) l :
  forall acc,
    list_sum (map snd (fold_left (fun acc x =>
                                    EventStormingAPI.increment eqb (f x) acc)
                                 l acc))
    = length l + list_sum (map snd acc).
Proof.
  induction l as [|x l IH]; intros acc; simpl; auto.
  rewrite IH, increment_sum. lia.
Qed.

Lemma increment_count t key acc :
  match find (fun kv => NodeType_eqb (fst kv) t)
             (EventStormingAPI.increment NodeType_eqb key acc) with
  | Some kv => snd kv
  | None => 0
  end
  = (if NodeType_eqb key t then 1 else 0)
    + match find (fun kv => NodeType_eqb (fst kv) t) acc with
      | Some kv => snd kv
      | None => 0
      end.
Proof.
  induction acc as [|[k n] acc IH]; simpl.
  - destruct (NodeType_eqb key t); reflexivity.
  - destruct (NodeType_eqb k key) eqn:E1; simpl.
    + apply NodeType_eqb_eq in E1. subst k.
      destruct (NodeType_eqb key t); simpl; auto.
    + destruct (NodeType_eqb k t) eqn:E2; simpl; auto.
      apply NodeType_eqb_eq in E2. subst k.
      destruct (NodeType_eqb key t) eqn:E3; auto.
      apply NodeType_eqb_eq in E3. subst key.
      destruct t; discriminate.
Qed.

(** X23.  The statistics are consistent: for every node type, the
    count recorded under it in [nodesByType] (none meaning 0) is the
    number of nodes [getNodesByType] returns; the counts of
    [nodesByType] add up to [totalNodes] and those of [edgesByLabel]
    to [totalEdges]. *)
Theorem getStatistics_consistent g :
  (forall t,
      match find (fun kv => NodeType_eqb (fst kv) t)
                 (nodesByType (EventStormingAPI.getStatistics g)) with
      | Some kv => snd kv
      | None => 0
      end
      = length (EventStormingAPI.getNodesByType g t))
  /\ list_sum (map snd (nodesByType (EventStormingAPI.getStatistics g)))
     = totalNodes (EventStormingAPI.getStatistics g)
  /\ list_sum (map snd (edgesByLabel (EventStormingAPI.getStatistics g)))
     = totalEdges (EventStormingAPI.getStatistics g).
Proof.
  unfold EventStormingAPI.getStatistics. cbv zeta.
  cbn [nodesByType edgesByLabel totalNodes totalEdges].
  unfold GraphologyAdapter.filterNodes, GraphologyAdapter.filterEdges.
  rewrite !filter_all. split; [|split].
  - intros t. unfold EventStormingAPI.getNodesByType,
      GraphologyAdapter.getNodesByType.
    assert (G : forall l acc,
               match find (fun kv => NodeType_eqb (fst kv) t)
                          (fold_left
                             (fun acc node =>
                                EventStormingAPI.increment NodeType_eqb
                                  (type node) acc) l acc) with
               | Some kv => snd kv
               | None => 0
               end
               = length (filter (fun node => NodeType_eqb (type node) t) l)
                 + match find (fun kv => NodeType_eqb (fst kv) t) acc with
                   | Some kv => snd kv
                   | None => 0
                   end).
    { induction l as [|n l IH]; intros acc; simpl; auto.
      rewrite IH, increment_count.
      destruct (NodeType_eqb (type n) t); simpl; lia. }
    rewrite G. simpl. lia.
  - rewrite (fold_increment_sum NodeType_eqb type). simpl. lia.
  - rewrite (fold_increment_sum EdgeLabel_eqb elabel). simpl. lia.
Qed.

(** ** The nodes a methodology finding names *)

Lemma list_ascii_of_string_app a b :
  list_ascii_of_string (a ++ b)%string
  = list_ascii_of_string a ++ list_ascii_of_string b.
Proof. induction a as [|c a IH]; simpl; auto. now rewrite IH. Qed.

Lemma quotedRuns_run tail l :
  forall acc,
    forallb (fun c => negb (EventStormingAPI.isQuote c)) l = true ->
    acc ++ l <> [] ->
    EventStormingAPI.quotedRuns (Some acc)
      (l ++ ascii_of_nat 34 :: tail)
    = string_of_list_ascii (rev acc ++ l)
      :: EventStormingAPI.quotedRuns None tail.
Proof.
  induction l as [|c l IH]; intros acc Q N.
  - rewrite !app_nil_r in *. simpl. destruct acc; [contradiction|].
    reflexivity.
  - simpl in Q. apply andb_prop in Q. destruct Q as [Qc Q].
    apply negb_true_iff in Qc. simpl.
    assert (R : rev acc ++ c :: l = rev (c :: acc) ++ l)
      by (simpl; now rewrite <- app_assoc).
    destruct acc as [|a acc]; rewrite Qc.
    + rewrite (IH [c] Q); [reflexivity|discriminate].
    + rewrite (IH (c :: a :: acc) Q); [|discriminate].
      now rewrite R.
Qed.

Lemma extract_commandViolation n :
  forallb (fun c => negb (EventStormingAPI.isQuote c))
          (list_ascii_of_string (label n)) = true ->
  label n <> "" ->
  EventStormingAPI.extractNodeIdsFromMessage
    (GraphologyAdapter.commandViolation n) = [label n].
Proof.
  intros Q N. unfold EventStormingAPI.extractNodeIdsFromMessage,
    GraphologyAdapter.commandViolation, Graphology.quoted.
  rewrite list_ascii_of_string_app. simpl.
  rewrite list_ascii_of_string_app. simpl.
  rewrite list_ascii_of_string_app. cbn [list_ascii_of_string].
  rewrite <- app_assoc. cbn [app].
  rewrite (quotedRuns_run _ (list_ascii_of_string (label n)) [] Q).
  - simpl. now rewrite string_of_list_ascii_of_string.
  - simpl. destruct (label n); [contradiction|discriminate].
Qed.

(** X24.  What a violation of [validateEventStormingMethodology] lists
    as affected nodes is the label of the command at fault, not its
    id: if no stored label is empty or contains a quotation mark, each
    violation is the message about some stored command node and names
    exactly that node's label. *)
Theorem methodology_violations_name_labels g finding :
  (forall n, In n (Graphology.nodeEntries g) ->
             forallb (fun c => negb (EventStormingAPI.isQuote c))
                     (list_ascii_of_string (label n)) = true
             /\ label n <> "") ->
  In finding (methodologyViolations
                (EventStormingAPI.validateEventStormingMethodology g)) ->
  exists n,
    In n (EventStormingAPI.getNodesByType g command)
    /\ message finding = GraphologyAdapter.commandViolation n
    /\ affectedNodes finding = [label n].
Proof.
  intros L H. unfold EventStormingAPI.validateEventStormingMethodology in H.
  cbv zeta in H. cbn [methodologyViolations] in H.
  apply in_map_iff in H. destruct H as [msg [<- H]].
  unfold GraphologyAdapter.validateEventStormingRules in H.
  cbn [violations] in H. apply in_flat_map in H.
  destruct H as [[k n] [Hkn H]]. simpl in H.
  destruct (NodeType_eqb (type n) command) eqn:T; [|destruct H].
  destruct (negb _); [|destruct H]. destruct H as [<-|[]].
  assert (Hn : In n (Graphology.nodeEntries g))
    by (apply in_map_iff; exists (k, n); auto).
  exists n. cbn [message affectedNodes]. split; [|split; auto].
  - unfold EventStormingAPI.getNodesByType,
      GraphologyAdapter.getNodesByType. apply filter_In. auto.
  - destruct (L n Hn). now apply extract_commandViolation.
Qed.

Lemma methodology_violations_name_labels_witness :
  exists n,
    In n (EventStormingAPI.getNodesByType Examples.issuing command)
    /\ message (mkFinding "EventStorming Methodology"
                  (GraphologyAdapter.commandViolation
                     (Examples.node "c1" "Place order" command))
                  ["Place order"])
       = GraphologyAdapter.commandViolation n
    /\ affectedNodes (mkFinding "EventStorming Methodology"
                        (GraphologyAdapter.commandViolation
                           (Examples.node "c1" "Place order" command))
                        ["Place order"])
       = [label n].
Proof.
  apply (methodology_violations_name_labels Examples.issuing).
  - intros n H. vm_compute in H.
    destruct H as [<-|[<-|[]]]; split;
      try (vm_compute; reflexivity); discriminate.
  - vm_compute. left. reflexivity.
Defined.

(** ** The events of an aggregate view *)

Lemma mapSet_keys k v m :
  map fst (EventStormingAPI.mapSet k v m)
  = if existsb (fun kv => fst kv =? k) m
    then map fst m else map fst m ++ [k].
Proof.
  unfold EventStormingAPI.mapSet.
  destruct (existsb _ m).
  - rewrite map_map. apply map_ext. intros [k0 v0]. simpl.
    destruct (k0 =? k) eqn:E; auto. apply String.eqb_eq in E. now subst.
  - now rewrite map_app.
Qed.

Lemma mapSet_In k v m kv :
  In kv (EventStormingAPI.mapSet k v m) -> kv = (k, v) \/ In kv m.
Proof.
  unfold EventStormingAPI.mapSet. destruct (existsb _ m).
  - intros H. apply in_map_iff in H. destruct H as [[k0 v0] [E H]].
    simpl in E. destruct (k0 =? k); subst; auto.
  - rewrite in_app_iff. simpl. intros [H|[H|[]]]; auto.
Qed.

Lemma uniqueById_fold l :
  forall m seen,
    (forall kv, In kv m -> fst kv = id (snd kv) /\ In (snd kv) seen) ->
    NoDup (map fst m) ->
    (forall n, In n seen -> In (id n) (map fst m)) ->
    let m' := fold_left (fun m n => EventStormingAPI.mapSet (id n) n m) l m in
    (forall kv, In kv m' -> fst kv = id (snd kv) /\ In (snd kv) (seen ++ l))
    /\ NoDup (map fst m')
    /\ (forall n, In n (seen ++ l) -> In (id n) (map fst m')).
Proof.
  induction l as [|x l IH]; intros m seen A B C; cbv zeta.
  - simpl. rewrite app_nil_r. auto.
  - cbn [fold_left].
    replace (seen ++ x :: l) with ((seen ++ [x]) ++ l)
      by now rewrite <- app_assoc.
    apply IH.
    + intros kv H. apply mapSet_In in H. destruct H as [->|H].
      * simpl. split; auto. apply in_app_iff. right. now left.
      * destruct (A kv H). split; auto. apply in_app_iff. now left.
    + rewrite mapSet_keys.
      destruct (existsb (fun kv => fst kv =? id x) m) eqn:E; auto.
      apply NoDup_snoc; auto. intros H. apply in_map_iff in H.
      destruct H as [kv [E1 H]].
      assert (T : existsb (fun kv => fst kv =? id x) m = true).
      { apply existsb_exists. exists kv. split; auto.
        now apply String.eqb_eq. }
      congruence.
    + intros n H. rewrite mapSet_keys.
      destruct (existsb (fun kv => fst kv =? id x) m) eqn:E.
      * apply in_app_iff in H. destruct H as [H|[<-|[]]]; auto.
        apply existsb_exists in E. destruct E as [kv [H1 H2]].
        apply String.eqb_eq in H2. rewrite <- H2. now apply in_map.
      * rewrite in_app_iff. apply in_app_iff in H.
        destruct H as [H|[<-|[]]]; auto. right. now left.
Qed.

Lemma uniqueById_spec l :
  NoDup (map id (EventStormingAPI.uniqueById l))
  /\ (forall n, In n (EventStormingAPI.uniqueById l) -> In n l)
  /\ (forall n, In n l ->
                In (id n) (map id (EventStormingAPI.uniqueById l))).
Proof.
  unfold EventStormingAPI.uniqueById.
  destruct (uniqueById_fold l [] []) as [A [B C]];
    try (intros ? []); [constructor|].
  cbv zeta in *. simpl in A, C.
  set (m := fold_left _ l []) in *.
  assert (K : map id (map snd m) = map fst m).
  { rewrite map_map. apply map_ext_in. intros kv H.
    symmetry. now apply A. }
  rewrite K. split; [exact B|]. split; auto.
  intros n H. apply in_map_iff in H. destruct H as [kv [<- H]].
  now apply A.
Qed.

(** X25.  In an aggregate view, [allEvents] holds no two events with
    the same id, holds only events of the view's processes, and holds
    an event under the id of every event of every process of the
    view. *)
Theorem getAggregateView_events_unique g aggregateId view :
  EventStormingAPI.getAggregateView g aggregateId = Some view ->
  NoDup (map id (allEvents view))
  /\ (forall e, In e (allEvents view) ->
                exists process, In process (processes view)
                                /\ In e (flowEvents process))
  /\ (forall process e,
         In process (processes view) -> In e (flowEvents process) ->
         In (id e) (map id (allEvents view))).
Proof.
  unfold EventStormingAPI.getAggregateView. intros H.
  destruct (EventStormingAPI.getNode g aggregateId) as [a|]; [|discriminate].
  destruct (negb _); [discriminate|]. cbv zeta in H.
  inversion H; subst view; clear H. cbn [allEvents processes].
  match goal with
  | |- context [EventStormingAPI.uniqueById ?l] =>
      destruct (uniqueById_spec l) as [A [B C]]
  end.
  split; [exact A|]. split.
  - intros e He. apply B in He. apply in_flat_map in He. exact He.
  - intros process e Hp He. apply C. apply in_flat_map. eauto.
Qed.

Lemma getAggregateView_events_unique_witness :
  exists view,
    EventStormingAPI.getAggregateView
      (snd (EventStormingAPI.createCommandFlow
              (mkFlowParams "customer" "Customer" "place-order"
                 "Place order" "order" "Order" "order-placed"
                 "Order placed" None) Graphology.empty))
      "order" = Some view
    /\ NoDup (map id (allEvents view))
    /\ (forall e, In e (allEvents view) ->
                  exists process, In process (processes view)
                                  /\ In e (flowEvents process))
    /\ (forall process e,
           In process (processes view) -> In e (flowEvents process) ->
           In (id e) (map id (allEvents view))).
Proof.
  eexists. split; [vm_compute; reflexivity|].
  apply (getAggregateView_events_unique
           (snd (EventStormingAPI.createCommandFlow
                   (mkFlowParams "customer" "Customer" "place-order"
                      "Place order" "order" "Order" "order-placed"
                      "Order placed" None) Graphology.empty))
           "order").
  vm_compute. reflexivity.
Defined.

(** ** Removing a node from a plain engine *)

(** X26.  In an engine that has only seen plain node ids, for a node
    id [N] present in the store, [removeNode N] succeeds and
    afterwards: [getNodeEdges N] is empty, no stored edge has [N] as
    source or target, [N] is not a node, every other key holds the
    node it held, and the nodes and edges that remain are exactly the
    former nodes other than [N] and the former edges not incident to
    [N]. *)
Theorem removeNode_cascades_in_plain_engine g N :
  PlainEngine g ->
  Graphology.hasNode g N = true ->
  exists g',
    EventStormingAPI.removeNode N g = (Returned (mkResult true [] []), g')
    /\ EventStormingAPI.getNodeEdges g' N = []
    /\ (forall e, In e (Graphology.edgeEntries g') ->
                  source e <> N /\ target e <> N)
    /\ Graphology.hasNode g' N = false
    /\ (forall k, k <> N -> Graphology.getNodeAttributes g' k
                            = Graphology.getNodeAttributes g k)
    /\ (forall k n, In (k, n) (nodeMap g') <->
                    In (k, n) (nodeMap g) /\ k <> N)
    /\ (forall key e, In (key, e) (edgeMap g') <->
                      In (key, e) (edgeMap g)
                      /\ source e <> N /\ target e <> N)
    /\ PlainEngine g'.
Proof.
  intros P HN. exists (without N g).
  assert (R : EventStormingAPI.removeNode N g
              = (Returned (mkResult true [] []), without N g))
    by now rewrite removeNode_run, HN.
  split; [exact R|].
  split; [|split; [|split; [|split; [|split; [|split]]]]].
  - unfold EventStormingAPI.getNodeEdges, GraphologyAdapter.getNodeEdges.
    now rewrite hasNode_without.
  - intros e He. apply edgeEntries_without in He. tauto.
  - apply hasNode_without.
  - intros k Hk. now apply getNodeAttributes_without.
  - intros k n. unfold without. simpl. rewrite filter_In. simpl.
    rewrite negb_true_iff, String.eqb_neq. tauto.
  - intros key e. unfold without. simpl. rewrite filter_In. simpl.
    rewrite negb_true_iff, orb_false_iff, !String.eqb_neq. tauto.
  - change (without N g)
      with (snd (Returned (mkResult true [] []), without N g)).
    rewrite <- R. now apply (plain_mutate (RemoveNode N)).
Qed.

Lemma removeNode_cascades_in_plain_engine_witness :
  exists g',
    EventStormingAPI.removeNode "c1" Examples.generating
    = (Returned (mkResult true [] []), g')
    /\ EventStormingAPI.getNodeEdges g' "c1" = []
    /\ Graphology.hasNode g' "c1" = false
    /\ Graphology.getNodeAttributes g' "e1"
       = Some (Examples.node "e1" "Order placed" event).
Proof.
  destruct (removeNode_cascades_in_plain_engine Examples.generating "c1")
    as [g' [H1 [H2 [_ [H4 [H5 _]]]]]].
  - apply mutateAll_PlainEngine;
      [apply mutateAll_PlainEngine; [apply plain_new|]|];
      vm_compute; reflexivity.
  - vm_compute. reflexivity.
  - exists g'. repeat split; auto.
    rewrite H5; [reflexivity|discriminate].
Defined.
